(** * The trace-agent pipeline and the docker health parser, embedded in Rocq

    The development follows three Go files of the repository:

    - [pkg/util/docker/containers.go] (package [docker]):
      [parseContainerHealth] and the pattern [healthRe], [ListContainers],
      [UpdateContainerMetrics], [dockerContainers],
      [parseContainerNetworkAddresses], [isExposed], [cleanupCaches];
    - package [agent]: [Process], [sample], [runSamplers],
      [traceContainsError];
    - package [api]: [traceCount], [decodeTraces], [tracesFromSpans],
      [handleTraces], [processTraces], [watchdog], [httpHandle],
      [httpHandleWithVersion], [Languages].

    Conventions.  A Go [string] is a sequence of bytes, here [string].
    A [float64] is a primitive binary64 float, with the IEEE operations of
    [PrimFloat].  A pointer [*pb.Span] is an address into a store of spans
    ([pb.Heap]); a slice of pointers is a list of addresses.  An [int64]
    or [uint64] is the integer of [Z] it denotes, and its arithmetic wraps
    around at 64 bits ([int64], [uint64] below); so do the counters updated
    with [atomic.AddInt64].  A channel is the list of the values sent on
    it, oldest first. *)

From Stdlib Require Import ZArith Ascii String Floats Lia.
From stdpp Require Import base option list gmap strings pretty fin_maps.
From stdpp Require Import sorting.

Local Open Scope Z_scope.

(** ** Package [docker] *)

Module docker.

(** *** The part of package [strings] the parser uses *)

(** [strings.HasPrefix(s, prefix)]. *)
Fixpoint HasPrefix (s prefix : string) : bool :=
  match prefix, s with
  | EmptyString, _ => true
  | String _ _, EmptyString => false
  | String p prefix', String c s' =>
      if Ascii.eqb c p then HasPrefix s' prefix' else false
  end.

(** [strings.Index(s, substr)]: the index of the first instance of
    [substr] in [s], or [-1] when there is none. *)
Fixpoint Index (s substr : string) : Z :=
  if HasPrefix s substr then 0
  else match s with
       | EmptyString => -1
       | String _ s' =>
           let i := Index s' substr in
           if i =? -1 then -1 else i + 1
       end.

(** [strings.IndexByte(s, c)]: the index of the first [c] in [s], or
    [-1]. *)
Fixpoint IndexByte (s : string) (c : ascii) : Z :=
  match s with
  | EmptyString => -1
  | String d s' =>
      if Ascii.eqb d c then 0
      else let i := IndexByte s' c in
           if i =? -1 then -1 else i + 1
  end.

(** [sub] occurs in [s]: what [strings.Index] and [strings.IndexByte] look
    for. *)
Definition occurs (sub s : string) : Prop :=
  exists pre post, s = pre +:+ sub +:+ post.

(** *** The pattern [healthRe] *)

(** The fragment of RE2 syntax that [healthRe] is written in. *)
Inductive regex : Type :=
| Lit (c : ascii)            (* one literal byte, [\(] is [Lit "("] *)
| Word                       (* [\w] *)
| Cat (r1 r2 : regex)        (* [r1 r2] *)
| Plus (r : regex)           (* [r+] *)
| Group (r : regex).         (* [(r)], capturing *)

(** [\w] is the ASCII class [[0-9A-Za-z_]]. *)
Definition isWordChar (c : ascii) : bool :=
  let n := N_of_ascii c in
  ((48 <=? n) && (n <=? 57) || (65 <=? n) && (n <=? 90)
   || (97 <=? n) && (n <=? 122) || (n =? 95))%N.

(** The literal string [l] followed by [r]. *)
Fixpoint lits (l : string) (r : regex) : regex :=
  match l with
  | EmptyString => r
  | String c l' => Cat (Lit c) (lits l' r)
  end.

(** [regexp.MustCompile(`\(health: (\w+)\)`)]. *)
Definition healthRe : regex :=
  lits "(health: " (Cat (Group (Plus Word)) (Lit ")")).

(** What it means for a regular expression to match a whole string, with
    the text of its capture groups, left to right. *)
Inductive re_match : regex -> string -> list string -> Prop :=
| M_Lit c : re_match (Lit c) (String c EmptyString) []
| M_Word c : isWordChar c = true -> re_match Word (String c EmptyString) []
| M_Cat r1 r2 s1 s2 g1 g2 :
    re_match r1 s1 g1 -> re_match r2 s2 g2 ->
    re_match (Cat r1 r2) (s1 +:+ s2) (g1 ++ g2)
| M_PlusOne r s g : re_match r s g -> re_match (Plus r) s g
| M_PlusMore r s1 s2 g1 g2 :
    re_match r s1 g1 -> re_match (Plus r) s2 g2 ->
    re_match (Plus r) (s1 +:+ s2) g2
| M_Group r s g : re_match r s g -> re_match (Group r) s (s :: g).

(** [status] has a match of [r] that starts at byte offset [i], is the
    text [m] and has the capture groups [caps]. *)
Definition match_at (r : regex) (status : string) (i : nat)
    (m : string) (caps : list string) : Prop :=
  exists pre post,
    status = pre +:+ m +:+ post /\ String.length pre = i /\ re_match r m caps.

(** The first match of [r] in [status]: the one that starts leftmost. *)
Definition first_match (r : regex) (status : string)
    (m : string) (caps : list string) : Prop :=
  exists i, match_at r status i m caps /\
    forall j m' caps', match_at r status j m' caps' -> (i <= j)%nat.

Definition no_match (r : regex) (status : string) : Prop :=
  forall i m caps, ~ match_at r status i m caps.

(** *** Running [healthRe] *)

(** [s] without the prefix [p], when it has it. *)
Fixpoint TrimPrefix (s p : string) : option string :=
  match p, s with
  | EmptyString, _ => Some s
  | String _ _, EmptyString => None
  | String a p', String c s' =>
      if Ascii.eqb c a then TrimPrefix s' p' else None
  end.

(** Every byte of [s] is a [\w] byte. *)
Fixpoint isWord (s : string) : bool :=
  match s with
  | EmptyString => true
  | String c s' => isWordChar c && isWord s'
  end.

(** The longest prefix of [s] made of [\w] bytes, and what follows it:
    [\w+] is greedy. *)
Fixpoint wordRun (s : string) : string * string :=
  match s with
  | EmptyString => (EmptyString, EmptyString)
  | String c s' =>
      if isWordChar c
      then let '(w, rest) := wordRun s' in (String c w, rest)
      else (EmptyString, s)
  end.

(** [rest] does not go on with a [\w] byte. *)
Definition stopsWord (rest : string) : Prop :=
  match rest with
  | EmptyString => True
  | String d _ => isWordChar d = false
  end.

(** The match of [healthRe] anchored at the start of [s]: the whole match
    and the text of group 1, as one element of the result of
    [FindAllStringSubmatch]. *)
Definition healthRe_at (s : string) : option (list string) :=
  match TrimPrefix s "(health: " with
  | None => None
  | Some rest =>
      match wordRun rest with
      | (String c w, String d _) =>
          if Ascii.eqb d ")"
          then Some ["(health: " +:+ String c w +:+ ")"; String c w]
          else None
      | _ => None
      end
  end.

(** The successive matches from left to right; [skip] bytes are still
    inside the previous match and start no match of their own. *)
Fixpoint healthRe_scan (s : string) (skip : nat) : list (list string) :=
  match s with
  | EmptyString => []
  | String _ s' =>
      match skip with
      | S k => healthRe_scan s' k
      | O =>
          match healthRe_at s with
          | Some m => m :: healthRe_scan s' (String.length (default "" (head m)) - 1)
          | None => healthRe_scan s' 0
          end
      end
  end.

(** [healthRe.FindAllStringSubmatch(status, -1)]: all successive
    non-overlapping matches, each as the list of the whole match and its
    groups. *)
Definition healthRe_FindAllStringSubmatch (status : string) : list (list string) :=
  healthRe_scan status 0.

(** *** [parseContainerHealth] *)

(** The result is [None] where the Go code would panic on an index out of
    range: [all[0]] and [all[0][1]] are lookups. *)
Definition parseContainerHealth (status : string) : option string :=
  if 0 <=? Index status "unhealthy" then Some "unhealthy"
  else if IndexByte status "(" =? -1 then Some ""
  else
    let all := healthRe_FindAllStringSubmatch status in
    if Z.of_nat (length all) <? 1 then Some ""
    else
      all0 ← all !! 0%nat;
      if Z.of_nat (length all0) <? 2 then Some ""
      else all0 !! 1%nat.

End docker.


(** ** Package [pb]: spans, and the store that pointers to spans live in *)

Module pb.

(** [pb.Span].  [TraceID], [SpanID] and [ParentID] are [uint64], [Start] and
    [Duration] are [int64], [Error] is [int32]. *)
Record Span : Type := mkSpan {
  Service : string;
  Name : string;
  Resource : string;
  TraceID : Z;
  SpanID : Z;
  ParentID : Z;
  Start : Z;
  Duration : Z;
  Error : Z;
  Meta : gmap string string;
  Metrics : gmap string float;
  Type_ : string
}.

(** The zero value of [pb.Span]. *)
Definition zeroSpan : Span :=
  mkSpan "" "" "" 0 0 0 0 0 0 ∅ ∅ "".

Definition withMetrics (s : Span) (m : gmap string float) : Span :=
  mkSpan (Service s) (Name s) (Resource s) (TraceID s) (SpanID s) (ParentID s)
         (Start s) (Duration s) (Error s) (Meta s) m (Type_ s).

(** A [*pb.Span]. *)
Definition addr : Type := nat.

(** The spans that are reachable through pointers, and the next free
    address. *)
Record Heap : Type := mkHeap {
  cells : gmap nat Span;
  next : nat
}.

Definition emptyHeap : Heap := mkHeap ∅ 0.

(** [*p].  Go keeps every cell alive as long as a pointer to it exists, so
    the lookup of a pointer the program holds never fails; the default only
    makes the function total. *)
Definition deref (h : Heap) (p : addr) : Span :=
  default zeroSpan (cells h !! p).

(** [*p = s]. *)
Definition store (p : addr) (s : Span) (h : Heap) : Heap :=
  mkHeap (<[p := s]> (cells h)) (next h).

(** A new cell holding [s]: [&pb.Span{...}], or a variable whose address is
    taken. *)
Definition alloc (s : Span) (h : Heap) : addr * Heap :=
  (next h, mkHeap (<[next h := s]> (cells h)) (S (next h))).

(** [pb.Trace] is [[]*pb.Span] and [pb.Traces] is [[]pb.Trace]. *)
Definition Trace : Type := list addr.
Definition Traces : Type := list Trace.

(** The spans a trace points to, as the reader of the slice sees them. *)
Definition spansOf (h : Heap) (t : Trace) : list Span := map (deref h) t.

End pb.

(** ** Integers of 64 bits *)

(** [uint64(z)]: the value of [z] in a [uint64], its residue modulo [2^64]
    in [[0, 2^64)]. *)
Definition uint64 (z : Z) : Z := z mod 2 ^ 64.

(** [int64(z)]: the value of [z] in an [int64], its residue modulo [2^64]
    in [[-2^63, 2^63)]. *)
Definition int64 (z : Z) : Z := (z + 2 ^ 63) mod 2 ^ 64 - 2 ^ 63.

Arguments uint64 : simpl never.
Arguments int64 : simpl never.

(** ** Package [info]: the receiver's counters *)

Module info.

(** [info.Tags]. *)
Record Tags : Type := mkTags {
  Lang : string;
  LangVersion : string;
  Interpreter : string;
  TracerVersion : string
}.

#[global] Instance Tags_eq_dec : EqDecision Tags.
Proof. solve_decision. Defined.

(** The [int64] fields of [info.TagStats] that the code below updates.  A
    pointer to one of them, such as [&ts.TracesPriorityNone], is its name. *)
Inductive Counter : Type :=
| TracesPriorityNone | TracesPriorityNeg | TracesPriority0
| TracesPriority1 | TracesPriority2
| TracesFiltered | SpansFiltered
| EventsExtracted | EventsSampled
| TracesDropped_DecodingError
| TracesReceived | TracesBytes | PayloadAccepted
| SpansReceived | SpansDropped.

#[global] Instance Counter_eq_dec : EqDecision Counter.
Proof. solve_decision. Defined.

(** [info.ReceiverStats]: one [TagStats] per [Tags]; [GetTagStats] creates
    the entry of tags it has not seen, with every counter at zero. *)
Definition ReceiverStats : Type := Tags -> Counter -> Z.

Definition NewReceiverStats : ReceiverStats := fun _ _ => 0.

(** [atomic.AddInt64(&ts.c, n)] where [ts] is the [TagStats] of [tags]: the
    sum wraps around as every sum of two [int64] does. *)
Definition AddInt64 (tags : Tags) (c : Counter) (n : Z) (st : ReceiverStats)
    : ReceiverStats :=
  fun tags' c' =>
    if decide (tags' = tags /\ c' = c) then int64 (st tags' c' + n) else st tags' c'.

End info.

(** ** Values exchanged with packages [stats] and [writer] *)

Module stats.

(** Modelled from the spec: [stats.SublayerValue] is declared outside the
    files at hand; the spec gives it as
    [(metric_name, tag_name, tag_value, value)]. *)
Record SublayerValue : Type := mkSublayerValue {
  Metric : string;
  TagName : string;
  TagValue : string;
  Value : float
}.

(** Modelled from the spec: an entry of a [stats.WeightedTrace], which the
    spec gives as one entry per span carrying the span and its weight, with
    its top-level and measured flags. *)
Record WeightedSpan : Type := mkWeightedSpan {
  Span : pb.addr;
  Weight : float;
  TopLevel : bool;
  Measured : bool
}.

Definition WeightedTrace : Type := list WeightedSpan.

(** [stats.Subtrace], with the two fields [Process] reads. *)
Record Subtrace : Type := mkSubtrace {
  Root : pb.addr;
  Trace : pb.Trace
}.

(** [stats.Input], what the concentrator receives. *)
Record Input : Type := mkInput {
  In_Trace : WeightedTrace;
  In_Sublayers : gmap nat (list SublayerValue);
  In_Env : string
}.

End stats.

Module writer.

(** [writer.SampledSpans]. *)
Record SampledSpans : Type := mkSampledSpans {
  Trace : pb.Trace;
  Events : list pb.addr
}.

(** Modelled from the spec: [SampledSpans.Empty] is declared outside the
    files at hand.  The spec: the sampled output is
    [(kept_spans, extracted_events)], "either may be empty; if both are
    empty the trace is dropped". *)
Definition Empty (ss : SampledSpans) : bool :=
  (Z.of_nat (length (Trace ss)) =? 0) && (Z.of_nat (length (Events ss)) =? 0).

End writer.

(** ** The process: collaborators, state and the order of effects *)

(** [agent.ProcessedTrace], with the fields [Process] fills. *)
Record ProcessedTrace : Type := mkProcessedTrace {
  pt_Trace : pb.Trace;
  pt_WeightedTrace : stats.WeightedTrace;
  pt_Root : pb.addr;
  pt_Env : string;
  pt_Sublayers : gmap nat (list stats.SublayerValue)
}.

(** The three samplers of [Agent]. *)
Inductive SamplerName : Type :=
| ScoreSampler | ErrorsScoreSampler | PrioritySampler.

#[global] Instance SamplerName_eq_dec : EqDecision SamplerName.
Proof. solve_decision. Defined.

(** [error] values, as far as the code tells them apart. *)
Inductive error : Type :=
| ErrLimitedReaderLimitReached
| ErrOther (msg : string).

(** What a decoder hands back: the bytes it has read from the body and the
    decoded value or an error. *)
Record Decoded (A : Type) : Type := mkDecoded {
  BytesRead : Z;
  Result : error + A
}.
Arguments mkDecoded {A} _ _.
Arguments BytesRead {A} _.
Arguments Result {A} _.

(** [config.AgentConfig], with the fields read below. *)
Record AgentConfig : Type := mkAgentConfig {
  DefaultEnv : string;
  MaxMemory : float;
  MaxCPU : float
}.

(** [watchdog.Info]: [Mem.Alloc] is a [uint64], [CPU.UserAvg] a
    [float64]. *)
Record WatchdogInfo : Type := mkWatchdogInfo {
  Mem_Alloc : Z;
  CPU_UserAvg : float
}.

(** The code that [Process], [handleTraces] and [watchdog] call and that is
    not part of the files at hand: other packages of the repository, and the
    JSON, msgpack and MIME libraries.  Nothing is assumed about these
    functions beyond their types.  [Ext] is the private state of the objects
    behind them (the samplers, the event processor, the rate limiter, the
    dynamic configuration, the watchdog's measurements).  A function that
    may write to the spans it is given takes and returns the store. *)
Class Collaborators : Type := {
  Ext : Type;
  (* package sampler: the two metric keys whose names the files do not show *)
  KeySamplingRateClient : string;
  KeySamplingRatePreSampler : string;
  (* package traceutil *)
  GetRoot : pb.Heap -> pb.Trace -> pb.addr;
  GetEnv : pb.Heap -> pb.Trace -> string;
  ComputeTopLevel : pb.Trace -> pb.Heap -> pb.Heap;
  (* package filters: the blacklist and the replace rules are fixed by the
     configuration *)
  Blacklister_Allows : pb.Heap -> pb.addr -> bool;
  Replacer_Replace : pb.Trace -> pb.Heap -> pb.Heap;
  (* package obfuscate, and agent.Truncate *)
  Obfuscate : pb.addr -> pb.Heap -> pb.Heap;
  Truncate : pb.addr -> pb.Heap -> pb.Heap;
  (* package stats *)
  ExtractTopLevelSubtraces : pb.Heap -> pb.Trace -> pb.addr -> list stats.Subtrace;
  ComputeSublayers : pb.Heap -> pb.Trace -> list stats.SublayerValue;
  SetSublayersOnSpan : pb.addr -> list stats.SublayerValue -> pb.Heap -> pb.Heap;
  NewWeightedTrace : pb.Heap -> pb.Trace -> pb.addr -> stats.WeightedTrace;
  (* agent.Sampler and event.Processor *)
  Sampler_Add : SamplerName -> ProcessedTrace -> Ext * pb.Heap ->
                (bool * float) * (Ext * pb.Heap);
  EventProcessor_Process : pb.addr -> pb.Trace -> Ext * pb.Heap ->
                (list pb.addr * Z) * (Ext * pb.Heap);
  (* api.rateLimiter *)
  RateLimiter_RealRate : Ext -> float;
  RateLimiter_Permits : Z -> Ext -> bool * Ext;
  RateLimiter_SetTargetRate : float -> Ext -> Ext;
  RateLimiter_Stats_TargetRate : Ext -> float;
  (* api.normalizeTrace: it may rewrite the spans and count what it drops *)
  normalizeTrace : info.Tags -> pb.Trace -> info.ReceiverStats * pb.Heap ->
                   option error * (info.ReceiverStats * pb.Heap);
  (* encoding/json, msgp and mime *)
  json_Decode_spans : string -> Decoded (list pb.Span);
  json_Decode_traces : string -> Decoded (list (list pb.Span));
  msgp_Decode_traces : string -> Decoded (list (list pb.Span));
  mime_ParseMediaType : string -> error + string;
  (* sampler.DynamicConfig, as httpRateByService prints it *)
  RateByService_JSON : Ext -> string;
  (* package watchdog *)
  watchdog_Mem : Ext -> Z;
  watchdog_CPU : Z -> Ext -> float
}.

Inductive LogLevel : Type := Debug | Warn | Error | Critical.

(** The calls that leave the process or reach a collaborator whose state is
    not modelled, in the order they are made.  The list is a record of the
    run and is read by no function. *)
Inductive Call : Type :=
| CallSamplerAdd (name : SamplerName) (pt : ProcessedTrace)
                 (sampled : bool) (rate : float)
| CallEventProcess (root : pb.addr) (t : pb.Trace)
| CallSetTargetRate (rate : float)
| CallMetricsCount (name : string) (value : Z)
| CallMetricsGauge (name : string) (value : float)
| CallMetricsFlush
| CallKillProcess (msg : string)
| CallTimingSince (name : string)
| CallUpdateRateLimiter
| CallUpdateWatchdogInfo (wi : WatchdogInfo)
| CallLog (level : LogLevel) (format : string).

(** A goroutine started with [go] and not yet run. *)
Inductive Goroutine : Type :=
| GoProcessTraces (ts : info.Tags) (traces : pb.Traces).

(** A statement run from a state either completes with a value or ends the
    process ([os.Exit]); it leaves a state in both cases. *)
Inductive Outcome (A : Type) : Type :=
| Done (a : A)
| Exited.
Arguments Done {A} a.
Arguments Exited {A}.

Section Pipeline.

Context {C : Collaborators}.

(** The state of the process that the three files read and write. *)
Record World : Type := mkWorld {
  heap : pb.Heap;
  ext : Ext;
  conf : AgentConfig;
  rateLimiterResponse : Z;                  (* [r.rateLimiterResponse] *)
  receiverStats : info.ReceiverStats;       (* [r.Stats] *)
  receiverOut : list pb.Trace;              (* [r.Out], the raw-trace channel *)
  spansOut : list writer.SampledSpans;      (* [a.spansOut] *)
  concentratorIn : list stats.Input;        (* [a.Concentrator.In] *)
  goroutines : list Goroutine;
  calls : list Call
}.

Definition setHeap (h : pb.Heap) (w : World) : World :=
  mkWorld h (ext w) (conf w) (rateLimiterResponse w) (receiverStats w)
          (receiverOut w) (spansOut w) (concentratorIn w) (goroutines w) (calls w).
Definition setExt (e : Ext) (w : World) : World :=
  mkWorld (heap w) e (conf w) (rateLimiterResponse w) (receiverStats w)
          (receiverOut w) (spansOut w) (concentratorIn w) (goroutines w) (calls w).
Definition setReceiverStats (st : info.ReceiverStats) (w : World) : World :=
  mkWorld (heap w) (ext w) (conf w) (rateLimiterResponse w) st
          (receiverOut w) (spansOut w) (concentratorIn w) (goroutines w) (calls w).
Definition setSpansOut (q : list writer.SampledSpans) (w : World) : World :=
  mkWorld (heap w) (ext w) (conf w) (rateLimiterResponse w) (receiverStats w)
          (receiverOut w) q (concentratorIn w) (goroutines w) (calls w).
Definition setConcentratorIn (q : list stats.Input) (w : World) : World :=
  mkWorld (heap w) (ext w) (conf w) (rateLimiterResponse w) (receiverStats w)
          (receiverOut w) (spansOut w) q (goroutines w) (calls w).
Definition setGoroutines (g : list Goroutine) (w : World) : World :=
  mkWorld (heap w) (ext w) (conf w) (rateLimiterResponse w) (receiverStats w)
          (receiverOut w) (spansOut w) (concentratorIn w) g (calls w).
Definition setCalls (l : list Call) (w : World) : World :=
  mkWorld (heap w) (ext w) (conf w) (rateLimiterResponse w) (receiverStats w)
          (receiverOut w) (spansOut w) (concentratorIn w) (goroutines w) l.

(** *** Statements in sequence *)

Definition M (A : Type) : Type := World -> Outcome A * World.

Definition ret {A} (a : A) : M A := fun w => (Done a, w).

Definition bind {A B} (m : M A) (k : A -> M B) : M B :=
  fun w => match m w with
           | (Done a, w') => k a w'
           | (Exited, w') => (Exited, w')
           end.

Notation "x <- m ;; k" := (bind m (fun x => k))
  (at level 100, m at next level, right associativity).
Notation "m ;; k" := (bind m (fun _ => k))
  (at level 100, right associativity).

(** Reading and writing the state. *)
Definition gets {A} (f : World -> A) : M A := fun w => (Done (f w), w).
Definition modify (f : World -> World) : M unit := fun w => (Done tt, f w).

(** One more call on the record of the run. *)
Definition call (c : Call) : M unit :=
  modify (fun w => setCalls (calls w ++ [c]) w).

(** A write to the spans, and a method of a collaborator that may also
    change its own state. *)
Definition onHeap (f : pb.Heap -> pb.Heap) : M unit :=
  modify (fun w => setHeap (f (heap w)) w).
Definition method {A} (f : Ext * pb.Heap -> A * (Ext * pb.Heap)) : M A :=
  fun w => let '(a, (e, h)) := f (ext w, heap w) in (Done a, setExt e (setHeap h w)).

(** [atomic.AddInt64(&ts.c, n)]. *)
Definition atomic_AddInt64 (ts : info.Tags) (c : info.Counter) (n : Z) : M unit :=
  modify (fun w => setReceiverStats (info.AddInt64 ts c n (receiverStats w)) w).

(** [for _, x := range l { body }]. *)
Fixpoint forRange {A} (l : list A) (body : A -> M unit) : M unit :=
  match l with
  | [] => ret tt
  | x :: l' => body x ;; forRange l' body
  end.

(** [killProcess], whose value in the program is [osutil.Exitf]: the
    process ends. *)
Definition killProcess (msg : string) : M unit :=
  fun w => (Exited, setCalls (calls w ++ [CallKillProcess msg]) w).

(** *** Package [sampler]: the sampling metrics of a span

    Package [sampler] is not part of the files at hand; the definitions of
    this part follow what the spec says its functions do to the [metrics]
    of the root. *)

(** Modelled from the spec: the metric keys of package [sampler].  Scenario
    S1 of the spec names the priority key, its property 3 the key of the
    global rate. *)
Definition KeySamplingPriority : string := "_sampling_priority_v1".
Definition KeySamplingRateGlobal : string := "_sample_rate".

(** Modelled from the spec: the read of a metric of package [sampler], a Go
    map lookup [v, ok := s.Metrics[k]], whose value is the zero value when
    the key is missing. *)
Definition getMetric (s : pb.Span) (k : string) : float * bool :=
  match pb.Metrics s !! k with
  | Some v => (v, true)
  | None => (0%float, false)
  end.

(** Modelled from the spec: the write of a metric of package [sampler],
    [s.Metrics[k] = v]. *)
Definition setMetric (k : string) (v : float) (s : pb.Span) : pb.Span :=
  pb.withMetrics s (<[k := v]> (pb.Metrics s)).

(** Modelled from the spec: [sampler.GetSamplingPriority].  The spec: "read
    [(priority, has_priority)] from root's metrics", a missing priority
    being "treated as >= 0".  The priority is kept as the [float64] that
    the metric holds: the integer type it is converted to is declared
    outside the files at hand, and the code only compares it with 0. *)
Definition sampler_GetSamplingPriority (s : pb.Span) : float * bool :=
  getMetric s KeySamplingPriority.

(** Modelled from the spec: [sampler.GetGlobalRate].  The spec: "read client
    sample rate from root metrics", and a trace without a rate weighs 1
    ("weight = 1 / client_sample_rate if available else 1"). *)
Definition sampler_GetGlobalRate (s : pb.Span) : float :=
  let '(v, ok) := getMetric s KeySamplingRateGlobal in
  if ok then v else 1%float.

(** Modelled from the spec: [sampler.SetClientRate].  The spec: "write it
    back into the root's dedicated client rate key". *)
Definition sampler_SetClientRate (p : pb.addr) (rate : float) (h : pb.Heap) : pb.Heap :=
  pb.store p (setMetric KeySamplingRateClient rate (pb.deref h p)) h.

(** Modelled from the spec: [sampler.SetPreSampleRate].  The spec: "write
    the admission pre-sample rate into the root's pre-sample rate key". *)
Definition sampler_SetPreSampleRate (p : pb.addr) (rate : float) (h : pb.Heap) : pb.Heap :=
  pb.store p (setMetric KeySamplingRatePreSampler rate (pb.deref h p)) h.

(** Modelled from the spec: [sampler.AddGlobalRate].  The spec: it writes
    "into the root's global sample rate" and "multiplies, not replaces". *)
Definition sampler_AddGlobalRate (p : pb.addr) (rate : float) (h : pb.Heap) : pb.Heap :=
  let s := pb.deref h p in
  pb.store p (setMetric KeySamplingRateGlobal (sampler_GetGlobalRate s * rate)%float s) h.

(** Modelled from the spec: [sampler.CombineRates].  The spec:
    [combine(a,b) = a + b - a*b]; each of the three operations rounds to
    [float64] on its own. *)
Definition sampler_CombineRates (rate1 rate2 : float) : float :=
  (rate1 + rate2 - rate1 * rate2)%float.

(** *** Package [agent] *)

(** Modelled from the spec: the method [ProcessedTrace.GetSamplingPriority]
    is declared outside the files at hand; the priority of a trace is the
    one its root carries. *)
Definition pt_GetSamplingPriority (pt : ProcessedTrace) : M (float * bool) :=
  gets (fun w => sampler_GetSamplingPriority (pb.deref (heap w) (pt_Root pt))).

(** [traceContainsError]. *)
Fixpoint traceContainsError (h : pb.Heap) (trace : pb.Trace) : bool :=
  match trace with
  | [] => false
  | span :: rest =>
      if negb (pb.Error (pb.deref h span) =? 0) then true
      else traceContainsError h rest
  end.

(** [s.Add(pt)] for the sampler called [name]; the call and what it
    returned go on the record of the run. *)
Definition Add (name : SamplerName) (pt : ProcessedTrace) : M (bool * float) :=
  r <- method (Sampler_Add name pt) ;;
  call (CallSamplerAdd name pt (fst r) (snd r)) ;;
  ret r.

(** [runSamplers].  [sampledPriority] and [ratePriority] keep their zero
    values [false] and [0] when the priority sampler is not called. *)
Definition runSamplers (pt : ProcessedTrace) : M (bool * float) :=
  p <- pt_GetSamplingPriority pt ;;
  rp <- (if snd p then Add PrioritySampler pt else ret (false, 0%float)) ;;
  let '(sampledPriority, ratePriority) := rp in
  hasError <- gets (fun w => traceContainsError (heap w) (pt_Trace pt)) ;;
  rs <- (if hasError then Add ErrorsScoreSampler pt else Add ScoreSampler pt) ;;
  let '(sampledScore, rateScore) := rs in
  ret (sampledScore || sampledPriority,
       sampler_CombineRates ratePriority rateScore).

(** [a.spansOut <- &ss]. *)
Definition send_spansOut (ss : writer.SampledSpans) : M unit :=
  modify (fun w => setSpansOut (spansOut w ++ [ss]) w).

(** [sample].  [ss.Trace] stays the nil slice when the samplers do not keep
    the trace. *)
Definition sample (ts : info.Tags) (pt : ProcessedTrace) : M unit :=
  r <- runSamplers pt ;;
  let '(sampled, rate) := r in
  ss_Trace <- (if sampled
               then onHeap (sampler_AddGlobalRate (pt_Root pt) rate) ;;
                    ret (pt_Trace pt)
               else ret []) ;;
  call (CallEventProcess (pt_Root pt) (pt_Trace pt)) ;;
  e <- method (EventProcessor_Process (pt_Root pt) (pt_Trace pt)) ;;
  let '(events, numExtracted) := e in
  let ss := writer.mkSampledSpans ss_Trace events in
  atomic_AddInt64 ts info.EventsExtracted numExtracted ;;
  atomic_AddInt64 ts info.EventsSampled (Z.of_nat (length events)) ;;
  if negb (writer.Empty ss) then send_spansOut ss else ret tt.

(** The loop of [Process] over the top-level subtraces; [sublayers] is the
    map it fills. *)
Fixpoint sublayersLoop (subtraces : list stats.Subtrace)
    (sublayers : gmap nat (list stats.SublayerValue))
    : M (gmap nat (list stats.SublayerValue)) :=
  match subtraces with
  | [] => ret sublayers
  | subtrace :: rest =>
      subtraceSublayers <-
        gets (fun w => ComputeSublayers (heap w) (stats.Trace subtrace)) ;;
      let sublayers := <[stats.Root subtrace := subtraceSublayers]> sublayers in
      onHeap (SetSublayersOnSpan (stats.Root subtrace) subtraceSublayers) ;;
      sublayersLoop rest sublayers
  end.

(** [a.Concentrator.In <- &stats.Input{...}]. *)
Definition send_concentratorIn (i : stats.Input) : M unit :=
  modify (fun w => setConcentratorIn (concentratorIn w ++ [i]) w).

(** The counter [Process] picks for the priority of the trace. *)
Definition priorityStat (priority : float) (hasPriority : bool) : info.Counter :=
  if hasPriority then
    if (priority <? 0)%float then info.TracesPriorityNeg
    else if (priority =? 0)%float then info.TracesPriority0
    else if (priority =? 1)%float then info.TracesPriority1
    else info.TracesPriority2
  else info.TracesPriorityNone.

(** The part of [Process] between the blacklister and the sampling stage:
    the trace is sanitized, the rates are written to the root, the
    top-level spans and the sublayers are computed and the
    [ProcessedTrace] is built. *)
Definition prepare (t : pb.Trace) (root : pb.addr) : M ProcessedTrace :=
  forRange t (fun span =>
    onHeap (Obfuscate span) ;;
    onHeap (Truncate span)) ;;
  onHeap (Replacer_Replace t) ;;
  clientSampleRate <- gets (fun w => sampler_GetGlobalRate (pb.deref (heap w) root)) ;;
  onHeap (sampler_SetClientRate root clientSampleRate) ;;
  rateLimiterRate <- gets (fun w => RateLimiter_RealRate (ext w)) ;;
  onHeap (sampler_SetPreSampleRate root rateLimiterRate) ;;
  onHeap (sampler_AddGlobalRate root rateLimiterRate) ;;
  onHeap (ComputeTopLevel t) ;;
  subtraces <- gets (fun w => ExtractTopLevelSubtraces (heap w) t root) ;;
  sublayers <- sublayersLoop subtraces ∅ ;;
  weighted <- gets (fun w => NewWeightedTrace (heap w) t root) ;;
  defaultEnv <- gets (fun w => DefaultEnv (conf w)) ;;
  tenv <- gets (fun w => GetEnv (heap w) t) ;;
  ret (mkProcessedTrace t weighted root
         (if negb (String.eqb tenv "") then tenv else defaultEnv)
         sublayers).

(** [info.Tags{}]. *)
Definition noTags : info.Tags := info.mkTags "" "" "" "".

(** [Process].  The deferred [timing.Since] is registered after the test for
    the empty trace and runs when the function returns on either of its two
    later paths. *)
Definition Process (t : pb.Trace) : M unit :=
  if Z.of_nat (length t) =? 0 then
    call (CallLog Debug "Skipping received empty trace")
  else
    root <- gets (fun w => GetRoot (heap w) t) ;;
    let ts := noTags in
    p <- gets (fun w => sampler_GetSamplingPriority (pb.deref (heap w) root)) ;;
    let '(priority, hasPriority) := p in
    let stat := priorityStat priority hasPriority in
    atomic_AddInt64 ts stat 1 ;;
    allows <- gets (fun w => Blacklister_Allows (heap w) root) ;;
    (if negb allows then
       call (CallLog Debug "Trace rejected by blacklister. root: %v") ;;
       atomic_AddInt64 ts info.TracesFiltered 1 ;;
       atomic_AddInt64 ts info.SpansFiltered (Z.of_nat (length t))
     else
       pt <- prepare t root ;;
       (if (0 <=? priority)%float then sample ts pt else ret tt) ;;
       send_concentratorIn
         (stats.mkInput (pt_WeightedTrace pt) (pt_Sublayers pt) (pt_Env pt))) ;;
    call (CallTimingSince "datadog.trace_agent.internal.process_trace_ms").

(** *** Package [api] *)

(** [api.Version]. *)
Inductive Version : Type := v01 | v02 | v03 | v04.

#[global] Instance Version_eq_dec : EqDecision Version.
Proof. solve_decision. Defined.

(** [*http.Request]: the headers under their canonical names, and the bytes
    of the body. *)
Record Request : Type := mkRequest {
  Header : gmap string string;
  Body : string
}.

(** [req.Header.Get(key)]: the empty string when the header is absent. *)
Definition Header_Get (req : Request) (key : string) : string :=
  default "" (Header req !! key).

(** [http.ResponseWriter]: the status line once written, and the chunks of
    the body. *)
Record ResponseWriter : Type := mkResponseWriter {
  Status : option Z;
  Written : list string
}.

Definition newResponseWriter : ResponseWriter := mkResponseWriter None [].

(** [w.WriteHeader(code)]: only the first call counts. *)
Definition WriteHeader (code : Z) (w : ResponseWriter) : ResponseWriter :=
  match Status w with
  | None => mkResponseWriter (Some code) (Written w)
  | Some _ => w
  end.

(** [w.Write(data)]: writes status 200 first when no header was written. *)
Definition Write (data : string) (w : ResponseWriter) : ResponseWriter :=
  let w := WriteHeader 200 w in
  mkResponseWriter (Status w) (Written w ++ [data]).

(** [http.Error(w, msg, code)]. *)
Definition http_Error (w : ResponseWriter) (msg : string) (code : Z) : ResponseWriter :=
  Write msg (WriteHeader code w).

(** The header in which a client announces the number of traces it sends. *)
Definition headerTraceCount : string := "X-Datadog-Trace-Count".

(** *** Package [strconv] of the Go library

    [strconv.Atoi] is not part of the files at hand.  The definitions of
    this part follow the code of the library for base 10 and an [int] of 64
    bits, the size of [int] on the platforms the agent is built for. *)

(** The value of a decimal digit, [None] for any other byte. *)
Definition digitValue (c : ascii) : option Z :=
  let n := Z.of_N (N_of_ascii c) in
  if (48 <=? n) && (n <=? 57) then Some (n - 48) else None.

(** The two errors of package [strconv]: [ErrSyntax] and [ErrRange]. *)
Inductive NumError : Type := ErrSyntax | ErrRange.

Definition maxUint64 : Z := 2 ^ 64 - 1.

(** The loop of [strconv.ParseUint(s, 10, 0)] over the bytes of [s], with
    the value [n] read so far.  It stops at the first byte that is in error,
    from left to right: on a byte that is not a digit the result is 0 and
    [ErrSyntax]; on a digit with which the value leaves the range of
    [uint64] the result is [maxUint64] and [ErrRange], and the bytes that
    follow are not looked at. *)
Fixpoint ParseUint_loop (s : string) (n : Z) : Z * option NumError :=
  match s with
  | EmptyString => (n, None)
  | String c s' =>
      match digitValue c with
      | None => (0, Some ErrSyntax)
      | Some d =>
          let cutoff := maxUint64 / 10 + 1 in
          if cutoff <=? n then (maxUint64, Some ErrRange)
          else
            let n := uint64 (n * 10) in
            let n1 := uint64 (n + d) in
            if (n1 <? n) || (maxUint64 <? n1) then (maxUint64, Some ErrRange)
            else ParseUint_loop s' n1
      end
  end.

(** [strconv.ParseUint(s, 10, 0)]. *)
Definition strconv_ParseUint (s : string) : Z * option NumError :=
  if String.eqb s "" then (0, Some ErrSyntax) else ParseUint_loop s 0.

(** [strconv.ParseInt(s, 10, 0)]: a sign is picked off, the rest is read as
    an unsigned number and checked against the range of [int64]. *)
Definition strconv_ParseInt (s : string) : Z * option NumError :=
  match s with
  | EmptyString => (0, Some ErrSyntax)
  | String c r =>
      let '(neg, s') :=
        if Ascii.eqb c "+" then (false, r)
        else if Ascii.eqb c "-" then (true, r)
        else (false, s) in
      let '(un, err) := strconv_ParseUint s' in
      if err is Some ErrSyntax then (0, Some ErrSyntax)
      else
        let cutoff := 2 ^ 63 in
        if negb neg && (cutoff <=? un) then (int64 (cutoff - 1), Some ErrRange)
        else if neg && (cutoff <? un) then (int64 (- int64 cutoff), Some ErrRange)
        else
          let n := int64 un in
          (if neg then int64 (- n) else n, None)
  end.

(** The loop of the short cut of [strconv.Atoi]: [n = n*10 + int(ch)] for
    every byte, [None] at a byte that is not a digit.  The short cut is
    taken for fewer than 19 bytes, with which [n] stays below [10^18] and
    the sum does not wrap. *)
Fixpoint parseDigits (s : string) (acc : Z) : option Z :=
  match s with
  | EmptyString => Some acc
  | String c s' =>
      match digitValue c with
      | Some d => parseDigits s' (10 * acc + d)
      | None => None
      end
  end.

(** The [error] that carries a [NumError]. *)
Definition numError (e : NumError) : error :=
  match e with
  | ErrSyntax => ErrOther "invalid syntax"
  | ErrRange => ErrOther "value out of range"
  end.

(** [strconv.Atoi]: the short cut for a string of 1 to 18 bytes, and
    [ParseInt(s, 10, 0)] for every other string. *)
Definition strconv_Atoi (s : string) : Z * option error :=
  let sLen := Z.of_nat (String.length s) in
  if (0 <? sLen) && (sLen <? 19) then
    match s with
    | EmptyString => (0, Some (numError ErrSyntax))
    | String c r =>
        let signed := Ascii.eqb c "-" || Ascii.eqb c "+" in
        if signed && (Z.of_nat (String.length r) <? 1)
        then (0, Some (numError ErrSyntax))
        else
          match parseDigits (if signed then r else s) 0 with
          | None => (0, Some (numError ErrSyntax))
          | Some n => (if Ascii.eqb c "-" then - n else n, None)
          end
    end
  else
    let '(i64, err) := strconv_ParseInt s in
    (i64, numError <$> err).

(** [traceCount].  The [int] that [Atoi] returns has 64 bits, and
    [int64(n)] is [n]. *)
Definition traceCount (req : Request) : M Z :=
  let str := Header_Get req headerTraceCount in
  if String.eqb str "" then ret 0
  else
    let '(n, err) := strconv_Atoi str in
    (if err is Some _
     then call (CallLog Error "Error parsing %q HTTP header: %s")
     else ret tt) ;;
    ret n.

(** [r.tagStats(req)]: the tags under which the request is counted. *)
Definition tagStats (req : Request) : info.Tags :=
  info.mkTags (Header_Get req "Datadog-Meta-Lang")
              (Header_Get req "Datadog-Meta-Lang-Version")
              (Header_Get req "Datadog-Meta-Lang-Interpreter")
              (Header_Get req "Datadog-Meta-Tracer-Version").

(** The body of the first loop of [tracesFromSpans], where [s] is the
    address of the loop variable and [x] the element of this iteration:
    [s = x; byID[s.TraceID] = append(byID[s.TraceID], &s)]. *)
Definition groupStep (s : pb.addr) (st : gmap Z (list pb.addr) * pb.Heap)
    (x : pb.Span) : gmap Z (list pb.addr) * pb.Heap :=
  let '(byID, h) := st in
  let h := pb.store s x h in
  let id := pb.TraceID (pb.deref h s) in
  (<[id := default [] (byID !! id) ++ [s]]> byID, h).

(** [tracesFromSpans].  The variable [s] of [for _, s := range spans] is
    declared once for the whole loop and assigned on every iteration (the
    file predates Go 1.22, which made it one variable per iteration), and
    its address is taken, so it is one cell of the store: [&s] is the same
    pointer on every iteration.  [byID] is ranged over in an order Go leaves
    open; here it is the order of [map_to_list]. *)
Definition tracesFromSpans (spans : list pb.Span) (h : pb.Heap)
    : pb.Traces * pb.Heap :=
  let '(s, h) := pb.alloc pb.zeroSpan h in
  let '(byID, h) := foldl (groupStep s) (∅, h) spans in
  (map snd (map_to_list byID), h).

(** A decoded [pb.Traces]: every span is a new cell. *)
Fixpoint allocTrace (spans : list pb.Span) (h : pb.Heap) : pb.Trace * pb.Heap :=
  match spans with
  | [] => ([], h)
  | s :: rest =>
      let '(p, h) := pb.alloc s h in
      let '(ps, h) := allocTrace rest h in
      (p :: ps, h)
  end.

Fixpoint allocTraces (traces : list (list pb.Span)) (h : pb.Heap)
    : pb.Traces * pb.Heap :=
  match traces with
  | [] => ([], h)
  | t :: rest =>
      let '(t', h) := allocTrace t h in
      let '(ts, h) := allocTraces rest h in
      (t' :: ts, h)
  end.

(** [getMediaType]. *)
Definition getMediaType (req : Request) : M string :=
  match mime_ParseMediaType (Header_Get req "Content-Type") with
  | inl _ =>
      call (CallLog Debug "Error parsing media type: %v, assuming application/json") ;;
      ret "application/json"
  | inr mt => ret mt
  end.

(** [decodeRequest(req, &traces)].  In the last case the msgpack decoder
    reads what the JSON decoder has left of the body. *)
Definition decodeRequest (req : Request) : M (Decoded (list (list pb.Span))) :=
  mediaType <- getMediaType req ;;
  if String.eqb mediaType "application/msgpack" then
    ret (msgp_Decode_traces (Body req))
  else if String.eqb mediaType "application/json"
          || String.eqb mediaType "text/json"
          || String.eqb mediaType "" then
    ret (json_Decode_traces (Body req))
  else
    let d1 := json_Decode_traces (Body req) in
    match Result d1 with
    | inr _ => ret d1
    | inl _ =>
        let n := Z.to_nat (BytesRead d1) in
        let d2 := msgp_Decode_traces
                    (String.substring n (String.length (Body req) - n) (Body req)) in
        match Result d2 with
        | inr traces => ret (mkDecoded (BytesRead d1 + BytesRead d2) (inr traces))
        | inl _ =>
            ret (mkDecoded (BytesRead d1 + BytesRead d2)
                   (inl (ErrOther "could not decode JSON (%q), nor Msgpack (%q)")))
        end
    end.

(** [decodeTraces].  Beside the traces or the error, the result tells how
    many bytes of the body were read, which the caller finds in
    the [Count] field of the [LimitedReader] around [req.Body]. *)
Definition decodeTraces (v : Version) (req : Request) : M (Decoded pb.Traces) :=
  if decide (v = v01) then
    let d := json_Decode_spans (Body req) in
    match Result d with
    | inl err => ret (mkDecoded (BytesRead d) (inl err))
    | inr spans =>
        traces <- (fun w => let '(traces, h) := tracesFromSpans spans (heap w) in
                            (Done traces, setHeap h w)) ;;
        ret (mkDecoded (BytesRead d) (inr traces))
    end
  else
    d <- decodeRequest req ;;
    match Result d with
    | inl err => ret (mkDecoded (BytesRead d) (inl err))
    | inr spans =>
        traces <- (fun w => let '(traces, h) := allocTraces spans (heap w) in
                            (Done traces, setHeap h w)) ;;
        ret (mkDecoded (BytesRead d) (inr traces))
    end.

(** Modelled from the spec: [httpOK] is declared outside the files at hand.
    The spec: versions other than v04 "reply a two-byte literal OK". *)
Definition httpOK (w : ResponseWriter) : ResponseWriter :=
  Write "OK" (WriteHeader 200 w).

(** Modelled from the spec: [httpRateByService] is declared outside the
    files at hand.  The spec: "for v04, body is the current service->rate
    mapping as JSON". *)
Definition httpRateByService (w : ResponseWriter) : M ResponseWriter :=
  body <- gets (fun st => RateByService_JSON (ext st)) ;;
  ret (Write body w).

(** [r.replyOK]. *)
Definition replyOK (v : Version) (w : ResponseWriter) : M ResponseWriter :=
  match v with
  | v01 | v02 | v03 => ret (httpOK w)
  | v04 => httpRateByService w
  end.

(** Modelled from the spec: [httpDecodingError] is declared outside the
    files at hand.  The spec: input errors "reply HTTP 4xx", and a body
    over the limit is rejected "with 413-equivalent"; the other decoding
    errors are answered 400 here. *)
Definition httpDecodingError (err : error) (tags : list string)
    (w : ResponseWriter) : ResponseWriter :=
  match err with
  | ErrLimitedReaderLimitReached => http_Error w "payload-too-large" 413
  | ErrOther msg => http_Error w msg 400
  end.

Definition tagTraceHandler : string := "handler:traces".

Definition Version_string (v : Version) : string :=
  match v with
  | v01 => "v0.1" | v02 => "v0.2" | v03 => "v0.3" | v04 => "v0.4"
  end.

(** [go f()]. *)
Definition go (g : Goroutine) : M unit :=
  modify (fun w => setGoroutines (goroutines w ++ [g]) w).

(** [handleTraces].  It returns the response writer as the handler leaves
    it.  [io.Copy(ioutil.Discard, req.Body)] only drains the body. *)
Definition handleTraces (v : Version) (w : ResponseWriter) (req : Request)
    : M ResponseWriter :=
  traceCount <- traceCount req ;;
  permits <- (fun st => let '(b, e) := RateLimiter_Permits traceCount (ext st) in
                        (Done b, setExt e st)) ;;
  if negb permits then
    code <- gets rateLimiterResponse ;;
    let w := WriteHeader code w in
    w <- replyOK v w ;;
    call (CallMetricsCount "datadog.trace_agent.receiver.payload_refused" 1) ;;
    ret w
  else
    let ts := tagStats req in
    d <- decodeTraces v req ;;
    match Result d with
    | inl err =>
        let w := httpDecodingError err
                   [tagTraceHandler; "v:" +:+ Version_string v] w in
        atomic_AddInt64 ts info.TracesDropped_DecodingError traceCount ;;
        call (CallLog Error "Cannot decode %s traces payload: %v") ;;
        ret w
    | inr traces =>
        w <- replyOK v w ;;
        atomic_AddInt64 ts info.TracesReceived (Z.of_nat (length traces)) ;;
        atomic_AddInt64 ts info.TracesBytes (BytesRead d) ;;
        atomic_AddInt64 ts info.PayloadAccepted 1 ;;
        go (GoProcessTraces ts traces) ;;
        ret w
    end.



(** [float64(n)] for an unsigned integer [n]: the nearest binary64 value,
    ties to even. *)
Definition float64_of_uint64 (n : Z) : float :=
  SF2Prim (binary_normalize prec emax n 0 false).

(** [math.Min], with the special cases of its documentation:
    [Min(x, -Inf) = Min(-Inf, x) = -Inf], [Min(x, NaN) = Min(NaN, x) = NaN],
    [Min(-0, ±0) = Min(±0, -0) = -0]. *)
Definition math_Min (x y : float) : float :=
  if (x =? neg_infinity)%float || (y =? neg_infinity)%float then neg_infinity
  else if is_nan x || is_nan y then nan
  else if (x =? 0)%float && (x =? y)%float then
    if get_sign x then x else y
  else if (x <? y)%float then x else y.

(** Modelled from the spec: [clip01], the clipping of a rate to [[0,1]]
    that the spec applies to the rates of the watchdog. *)
Definition clip01 (x : float) : float :=
  if (x <? 0)%float then 0%float
  else if (1 <? x)%float then 1%float
  else x.

(** Modelled from the spec: [computeRateLimitingRate] is declared outside
    the files at hand.  The spec:
    "rateMem = clip01(max_memory / current_memory · previous_rate) and
    likewise rateCPU". *)
Definition computeRateLimitingRate (maxUsage currentUsage currentRate : float) : float :=
  clip01 (maxUsage / currentUsage * currentRate)%float.

(** [r.RateLimiter.SetTargetRate(rate)]. *)
Definition SetTargetRate (rate : float) : M unit :=
  modify (fun w => setExt (RateLimiter_SetTargetRate rate (ext w)) w) ;;
  call (CallSetTargetRate rate).

(** [watchdog]. *)
Definition watchdog (now : Z) : M unit :=
  wi <- gets (fun w => mkWatchdogInfo (watchdog_Mem (ext w))
                                      (watchdog_CPU now (ext w))) ;;
  maxMemory <- gets (fun w => MaxMemory (conf w)) ;;
  maxCPU <- gets (fun w => MaxCPU (conf w)) ;;
  rateMem <-
    (if (0 <? maxMemory)%float then
       let current := float64_of_uint64 (Mem_Alloc wi) in
       let allowed := (maxMemory * 1.5)%float in
       (if (allowed <? current)%float then
          call (CallMetricsCount "datadog.trace_agent.receiver.oom_kill" 1) ;;
          call CallMetricsFlush ;;
          call (CallLog Critical
                  "Killing process. Memory threshold exceeded: %.2fM / %.2fM") ;;
          killProcess "OOM"
        else ret tt) ;;
       realRate <- gets (fun w => RateLimiter_RealRate (ext w)) ;;
       let rateMem := computeRateLimitingRate maxMemory
                        (float64_of_uint64 (Mem_Alloc wi)) realRate in
       (if (rateMem <? 1)%float then
          call (CallLog Warn
                  "Memory threshold exceeded (apm_config.max_memory: %.0f bytes): %d")
        else ret tt) ;;
       ret rateMem
     else ret 1%float) ;;
  rateCPU <-
    (if (0 <? maxCPU)%float then
       realRate <- gets (fun w => RateLimiter_RealRate (ext w)) ;;
       let rateCPU := computeRateLimitingRate maxCPU (CPU_UserAvg wi) realRate in
       (if (rateCPU <? 1)%float then
          call (CallLog Warn
                  "CPU threshold exceeded (apm_config.max_cpu_percent: %.0f): %.0f")
        else ret tt) ;;
       ret rateCPU
     else ret 1%float) ;;
  SetTargetRate (math_Min rateCPU rateMem) ;;
  targetRate <- gets (fun w => RateLimiter_Stats_TargetRate (ext w)) ;;
  call CallUpdateRateLimiter ;;
  call (CallUpdateWatchdogInfo wi) ;;
  call (CallMetricsGauge "datadog.trace_agent.heap_alloc"
          (float64_of_uint64 (Mem_Alloc wi))) ;;
  call (CallMetricsGauge "datadog.trace_agent.cpu_percent"
          (CPU_UserAvg wi * 100)%float) ;;
  call (CallMetricsGauge "datadog.trace_agent.receiver.ratelimit" targetRate).

(** *** What the statements below speak of *)

(** The calls made between the states [w] and [w']. *)
Definition newCalls (w w' : World) : list Call :=
  drop (length (calls w)) (calls w').

(** The sampler [name] was consulted about [pt]. *)
Definition consulted (name : SamplerName) (pt : ProcessedTrace)
    (cs : list Call) : Prop :=
  exists sampled rate, CallSamplerAdd name pt sampled rate ∈ cs.

(** Some sampler, and the event processor, were called. *)
Definition samplersInvoked (cs : list Call) : Prop :=
  exists name pt sampled rate, CallSamplerAdd name pt sampled rate ∈ cs.
Definition eventsExtracted (cs : list Call) : Prop :=
  exists root t, CallEventProcess root t ∈ cs.

(** The root of [pt] carries an explicit sampling priority. *)
Definition hasExplicitPriority (h : pb.Heap) (pt : ProcessedTrace) : Prop :=
  is_Some (pb.Metrics (pb.deref h (pt_Root pt)) !! KeySamplingPriority).

(** At least one span of the trace has [error != 0]. *)
Definition hasErrorSpan (h : pb.Heap) (t : pb.Trace) : Prop :=
  exists span, span ∈ t /\ pb.Error (pb.deref h span) <> 0.

(** The spans as [runSamplers] finds them when it tests the trace for
    errors: the priority sampler, if the trace has a priority, has been
    called and has returned. *)
Definition heapAtErrorTest (pt : ProcessedTrace) (w : World) : pb.Heap :=
  if snd (sampler_GetSamplingPriority (pb.deref (heap w) (pt_Root pt)))
  then snd (snd (Sampler_Add PrioritySampler pt (ext w, heap w)))
  else heap w.

(** The global sample rate a span carries, [metrics[_sample_rate]]. *)
Definition globalRateOf (h : pb.Heap) (p : pb.addr) : option float :=
  pb.Metrics (pb.deref h p) !! KeySamplingRateGlobal.

(** A collaborator that leaves the [_sample_rate] metric of every span as it
    finds it. *)
Definition keepsGlobalRate (f : pb.Heap -> pb.Heap) : Prop :=
  forall h p, globalRateOf (f h) p = globalRateOf h p.

(** None of the collaborators that may write to the spans during [Process]
    writes the [_sample_rate] metric, and the client-rate and pre-sample-rate
    keys are keys of their own. *)
Definition GlobalRateIsProcessOwned : Prop :=
  KeySamplingRateClient <> KeySamplingRateGlobal /\
  KeySamplingRatePreSampler <> KeySamplingRateGlobal /\
  (forall span, keepsGlobalRate (Obfuscate span)) /\
  (forall span, keepsGlobalRate (Truncate span)) /\
  (forall t, keepsGlobalRate (Replacer_Replace t)) /\
  (forall t, keepsGlobalRate (ComputeTopLevel t)) /\
  (forall p v, keepsGlobalRate (SetSublayersOnSpan p v)) /\
  (forall name pt e, keepsGlobalRate (fun h => snd (snd (Sampler_Add name pt (e, h))))) /\
  (forall root t e, keepsGlobalRate (fun h => snd (snd (EventProcessor_Process root t (e, h))))).

(** A statement that only writes to the spans, and leaves their global
    rate alone when the collaborators do. *)
Definition spansOnly {A} (m : M A) : Prop :=
  forall w, exists a h, m w = (Done a, setHeap h w) /\
    (GlobalRateIsProcessOwned -> forall p, globalRateOf h p = globalRateOf (heap w) p).

(** The state in which [Process] reaches [prepare]: the priority counter of
    the trace has been incremented. *)
Definition countedPriority (t : pb.Trace) (w : World) : World :=
  let root := GetRoot (heap w) t in
  let '(priority, hasPriority) := sampler_GetSamplingPriority (pb.deref (heap w) root) in
  setReceiverStats
    (info.AddInt64 noTags (priorityStat priority hasPriority) 1 (receiverStats w)) w.

(** The trace count a request reports in its [X-Datadog-Trace-Count]
    header: the value [traceCount] returns. *)
Definition reportedTraceCount (req : Request) : Z :=
  let str := Header_Get req headerTraceCount in
  if String.eqb str "" then 0 else fst (strconv_Atoi str).

(** The body of [req] fails to decode as a payload of version [v], with the
    error [err]. *)
Definition DecodingFails (v : Version) (req : Request) (err : error) : Prop :=
  forall st, exists d st',
    decodeTraces v req st = (Done d, st') /\ Result d = inl err.

End Pipeline.

(** ** More of package [api]: the wrapper of the handlers and [Languages] *)

Section Handlers.

Context {C : Collaborators}.

Notation "x <- m ;; k" := (bind m (fun x => k))
  (at level 100, m at next level, right associativity).

(** [httpFormatError] is declared outside the files at hand; it answers the
    request, and nothing is assumed about what it writes. *)
Variable httpFormatError : ResponseWriter -> Version -> error -> ResponseWriter.

(** [r.httpHandle(fn)].  The [LimitedReader] it puts around the body is the
    reader the decoders read from, and closing the body leaves no trace
    here. *)
Definition httpHandle (fn : ResponseWriter -> Request -> M ResponseWriter)
    : ResponseWriter -> Request -> M ResponseWriter :=
  fun w req => fn w req.

(** [r.httpHandleWithVersion(v, f)]. *)
Definition httpHandleWithVersion (v : Version)
    (f : Version -> ResponseWriter -> Request -> M ResponseWriter)
    : ResponseWriter -> Request -> M ResponseWriter :=
  httpHandle (fun w req =>
    mediaType <- getMediaType req ;;
    if String.eqb mediaType "application/msgpack"
       && (bool_decide (v = v01) || bool_decide (v = v02))
    then ret (httpFormatError w v (ErrOther "unsupported media type: %q"))
    else f v w req).

(** *** What the statements below speak of *)


End Handlers.

(** The five counters among which [Process] picks one for a trace. *)
Definition priorityCounters : list info.Counter :=
  [info.TracesPriorityNone; info.TracesPriorityNeg; info.TracesPriority0;
   info.TracesPriority1; info.TracesPriority2].


(** The number of pointers a map of traces holds. *)
Definition entries (byID : gmap Z (list pb.addr)) : nat :=
  sum_list (length <$> (snd <$> map_to_list byID)).

(** *** [Languages] *)

(** The order of Go strings, byte by byte, a proper prefix coming first. *)
Definition string_le (a b : string) : Prop := String.leb a b = true.

#[global] Instance string_le_dec : RelDecision string_le.
Proof. intros a b. unfold string_le. apply _. Defined.

(** [sort.Strings(a)]: [a] in increasing order.  Equal strings cannot be
    told apart, so that the result does not depend on the sorting
    algorithm. *)
Definition sort_Strings (a : list string) : list string :=
  merge_sort string_le a.

(** [strings.Join(elems, sep)]. *)
Fixpoint strings_Join (elems : list string) (sep : string) : string :=
  match elems with
  | [] => ""
  | e :: rest =>
      match rest with
      | [] => e
      | _ :: _ => e +:+ sep +:+ strings_Join rest sep
      end
  end.

(** The body of the loop of [Languages] over the keys of [r.Stats.Stats]:
    [langs] records the languages seen, [str] collects them. *)
Definition languageStep (st : gmap string bool * list string) (tags : info.Tags)
    : gmap string bool * list string :=
  let '(langs, str) := st in
  match langs !! info.Lang tags with
  | Some _ => (langs, str)
  | None => (<[info.Lang tags := true]> langs, str ++ [info.Lang tags])
  end.

(** [Languages], of the keys of [r.Stats.Stats] in the order in which the
    [range] statement visits them, which Go leaves open.  The read lock it
    holds meanwhile does not show in the result. *)
Definition Languages (keys : list info.Tags) : string :=
  let '(langs, str) := foldl languageStep (∅, []) keys in
  strings_Join (sort_Strings str) "|".

(** ** Package [docker]: the list of containers

    The rest of [pkg/util/docker/containers.go]: [ListContainers],
    [UpdateContainerMetrics], [dockerContainers],
    [parseContainerNetworkAddresses], [isExposed] and [cleanupCaches]. *)

(** The types of the Docker API that the file reads. *)
Module types.

(** [types.Port]; the two ports are [uint16]. *)
Record Port : Type := mkPort {
  IP : string;
  PrivatePort : Z;
  PublicPort : Z;
  Type_ : string
}.

(** An entry of [SummaryNetworkSettings.Networks], with the two fields that
    are read. *)
Record EndpointSettings : Type := mkEndpointSettings {
  NetworkID : string;
  IPAddress : string
}.

(** [types.SummaryNetworkSettings].  [Networks] is a Go map; the list holds
    its entries in the order in which the [range] statement visits them,
    which Go leaves open. *)
Record SummaryNetworkSettings : Type := mkSummaryNetworkSettings {
  Networks : list (string * EndpointSettings)
}.

(** [types.Container], with the fields that are read; [NetworkSettings] is
    a pointer and may be [nil]. *)
Record Container : Type := mkContainer {
  ID : string;
  Names : list string;
  Image : string;
  ImageID : string;
  Created : Z;
  State : string;
  Status : string;
  Ports : list Port;
  NetworkSettings : option SummaryNetworkSettings
}.

End types.

(** [net.IP] is a slice of bytes; the [nil] slice is [None] below. *)
Module net.

Definition IP : Type := list Byte.byte.

End net.

Module dockerutil.

(** The lines written with [log.Debugf] and [log.Warnf], by their format. *)
Inductive LogLine : Type :=
| Debugf (format : string)
| Warnf (format : string).

(** [ContainerListConfig]. *)
Record ContainerListConfig : Type := mkContainerListConfig {
  IncludeExited : bool;
  FlagExcluded : bool
}.

(** [containers.NetworkAddress]. *)
Record NetworkAddress : Type := mkNetworkAddress {
  NA_IP : option net.IP;
  NA_Port : Z;
  NA_Protocol : string
}.

(** An entry of [d.networkMappings], with the two fields that are read. *)
Record dockerNetwork : Type := mkDockerNetwork {
  iface : string;
  dockerName : string
}.

(** [isExposed]. *)
Definition isExposed (port : types.Port) : bool :=
  (0 <? types.PublicPort port) && negb (String.eqb (types.IP port) "").

(** [s[:12]], which panics on a string of less than 12 bytes. *)
Definition prefix12 (s : string) : option string :=
  if 12 <=? Z.of_nat (String.length s) then Some (String.substring 0 12 s) else None.

(** What the methods of a [containers.Container] fill in ([SetCgroups],
    [FillCgroupLimits], [FillCgroupMetrics], [FillNetworkMetrics]), with its
    zero value [noData]; and what [metrics.ScrapeAllCgroups] finds for a
    container. *)
Class ContainerData : Type := {
  Data : Type;
  noData : Data;
  Cgroup : Type
}.

(** [containers.Container]: the fields [dockerContainers] sets, and the
    rest. *)
Record Container `{ContainerData} : Type := mkContainer {
  C_Type : string;
  C_ID : string;
  C_EntityID : string;
  C_Name : string;
  C_Image : string;
  C_ImageID : string;
  C_Created : Z;
  C_State : string;
  C_Excluded : bool;
  C_Health : string;
  C_AddressList : list NetworkAddress;
  C_Data : Data
}.
Arguments mkContainer {_} _ _ _ _ _ _ _ _ _ _ _ _.

(** The code the file calls and does not hold: [net.ParseIP], which answers
    [nil] for a text that is not an IP address, the Docker daemon
    ([d.cli.ContainerList], and [d.Inspect] as far as the process ID it
    reports), the other files of the package, the container filter, the
    cgroup scraper and the methods of [containers.Container].  Nothing is
    assumed about them beyond their types; an error is its message. *)
Class Daemon `{ContainerData} : Type := {
  net_ParseIP : string -> option net.IP;
  ContainerRunningState : string;
  invalidationInterval : Z;
  cli_ContainerList : bool -> string + list types.Container;
  Inspect_Pid : string -> string + Z;
  findDockerNetworks : string -> Z -> types.Container -> list dockerNetwork;
  resolveDockerNetworks :
    gmap string (list dockerNetwork) -> gmap string (list dockerNetwork);
  ResolveImageName :
    string -> gmap string string -> (string * option string) * gmap string string;
  filter_IsExcluded : string -> string -> bool;
  ContainerIDToEntityName : string -> string;
  ScrapeAllCgroups : string + gmap string Cgroup;
  SetCgroups : Cgroup -> Container -> Container;
  FillCgroupLimits : Container -> option string * Container;
  FillCgroupMetrics : Container -> option string * Container;
  FillNetworkMetrics : gmap string string -> Container -> option string * Container
}.

(** [for _, x := range l { ... }] where a round either goes on to the next
    one with a new state ([continue] included) or panics ([None]). *)
Fixpoint forEach {S A : Type} (step : S -> A -> option S) (l : list A) (st : S)
    : option S :=
  match l with
  | [] => Some st
  | x :: rest => st' ← step st x; forEach step rest st'
  end.

Section Daemon.

Context {CD : ContainerData} {DM : Daemon}.

(** The body of the loop over [ports]: an exposed port gives an address at
    once, any other port is put aside in [tempAddrList]. *)
Definition portStep
    (st : list NetworkAddress * list NetworkAddress * list LogLine)
    (port : types.Port) : list NetworkAddress * list NetworkAddress * list LogLine :=
  let '(addrList, tempAddrList, logs) := st in
  if isExposed port then
    match net_ParseIP (types.IP port) with
    | None =>
        (addrList, tempAddrList,
         logs ++ [Warnf "Unable to parse IP: %v for container: %s"])
    | Some ip =>
        (addrList ++
           [mkNetworkAddress (Some ip) (types.PublicPort port) (types.Type_ port)],
         tempAddrList, logs)
    end
  else
    (addrList,
     tempAddrList ++ [mkNetworkAddress None (types.PrivatePort port) (types.Type_ port)],
     logs).

(** The body of the loop over [netSettings.Networks]. *)
Definition networkStep (tempAddrList : list NetworkAddress)
    (st : list NetworkAddress * list LogLine)
    (network : string * types.EndpointSettings) : list NetworkAddress * list LogLine :=
  let '(addrList, logs) := st in
  if String.eqb (types.IPAddress (snd network)) "" then
    (addrList, logs ++ [Debugf "No IP found for container %s in network %s"])
  else
    match net_ParseIP (types.IPAddress (snd network)) with
    | None =>
        (addrList, logs ++ [Warnf "Unable to parse IP: %v for container: %s"])
    | Some ip =>
        (foldl (fun addrList addr =>
                  addrList ++ [mkNetworkAddress (Some ip) (NA_Port addr) (NA_Protocol addr)])
               addrList tempAddrList,
         logs)
    end.

(** [parseContainerNetworkAddresses]: the addresses, and the lines it
    logs. *)
Definition parseContainerNetworkAddresses (ports : list types.Port)
    (netSettings : option types.SummaryNetworkSettings) (container : string)
    : list NetworkAddress * list LogLine :=
  match netSettings with
  | None => ([], [Debugf "No network settings available from docker"])
  | Some ns =>
      if Z.of_nat (length (types.Networks ns)) =? 0 then
        ([], [Debugf "No network settings available from docker"])
      else
        let '(addrList, tempAddrList, logs) := foldl portStep ([], [], []) ports in
        foldl (networkStep tempAddrList) (addrList, logs) (types.Networks ns)
  end.

(** The part of [DockerUtil] the file reads and writes: [cfg.CollectNetwork],
    the two caches and the time of the last invalidation.  The mutex, which
    keeps other goroutines out of the caches, does not show below. *)
Record DockerUtil : Type := mkDockerUtil {
  CollectNetwork : bool;
  networkMappings : gmap string (list dockerNetwork);
  imageNameBySha : gmap string string;
  lastInvalidate : Z
}.

Definition withNetworkMappings (m : gmap string (list dockerNetwork)) (d : DockerUtil)
    : DockerUtil :=
  mkDockerUtil (CollectNetwork d) m (imageNameBySha d) (lastInvalidate d).
Definition withImageNameBySha (m : gmap string string) (d : DockerUtil) : DockerUtil :=
  mkDockerUtil (CollectNetwork d) (networkMappings d) m (lastInvalidate d).

(** [for k := range m { if _, ok := live[k]; !ok { delete(m, k) } }]: the
    keys are visited in the order of [map_to_list], which Go leaves open; a
    key is deleted at most at its own visit. *)
Definition deleteUnknown {V} (live : gset string) (m : gmap string V) : gmap string V :=
  foldl (fun m k => if decide (k ∈ live) then m else delete k m)
        m (map fst (map_to_list m)).

(** [cleanupCaches]. *)
Definition cleanupCaches (containers : list types.Container) (d : DockerUtil)
    : DockerUtil :=
  let '(liveContainers, liveImages) :=
    foldl (fun (st : gset string * gset string) c =>
             ({[types.ID c]} ∪ fst st, {[types.Image c]} ∪ snd st))
          (∅, ∅) containers in
  withImageNameBySha (deleteUnknown liveImages (imageNameBySha d))
    (withNetworkMappings (deleteUnknown liveContainers (networkMappings d)) d).

(** The body of the loop of [dockerContainers]; [None] is the panic of
    [c.Names[0]] on a container without a name, and of [all[0][1]] in
    [parseContainerHealth]. *)
Definition containerStep (cfg : ContainerListConfig)
    (st : list Container * DockerUtil * list LogLine) (c : types.Container)
    : option (list Container * DockerUtil * list LogLine) :=
  let '(ret, d, logs) := st in
  let mapped : option DockerUtil :=
    if CollectNetwork d && String.eqb (types.State c) ContainerRunningState then
      match networkMappings d !! types.ID c with
      | Some _ => Some d
      | None =>
          match Inspect_Pid (types.ID c) with
          | inl _ => None
          | inr pid =>
              Some (withNetworkMappings
                      (<[types.ID c := findDockerNetworks (types.ID c) pid c]>
                         (networkMappings d)) d)
          end
      end
    else Some d in
  match mapped with
  | None => Some (ret, d, logs ++ [Debugf "Error inspecting container %s: %s"])
  | Some d =>
      let '((image, err), images) := ResolveImageName (types.Image c) (imageNameBySha d) in
      let d := withImageNameBySha images d in
      let logs := if err is Some _
                  then logs ++ [Warnf "Can't resolve image name %s: %s"] else logs in
      name ← types.Names c !! 0%nat;
      let excluded := filter_IsExcluded name image in
      if excluded && negb (FlagExcluded cfg) then Some (ret, d, logs)
      else
        let entityID := ContainerIDToEntityName (types.ID c) in
        health ← docker.parseContainerHealth (types.Status c);
        let '(addressList, logs') :=
          parseContainerNetworkAddresses (types.Ports c) (types.NetworkSettings c) name in
        Some (ret ++ [mkContainer "Docker" (types.ID c) entityID name image
                        (types.ImageID c) (types.Created c) (types.State c)
                        excluded health addressList noData],
              d, logs ++ logs')
  end.

(** [dockerContainers], at the time [now]; [cfg] is a pointer and may be
    [nil].  The result is the error or the containers, with the state of
    [d] and the log. *)
Definition dockerContainers (cfg : option ContainerListConfig) (now : Z)
    (d : DockerUtil) (logs : list LogLine)
    : option ((string + list Container) * DockerUtil * list LogLine) :=
  match cfg with
  | None => Some (inl "configuration is nil", d, logs)
  | Some cfg =>
      match cli_ContainerList (IncludeExited cfg) with
      | inl _ => Some (inl "error listing containers: %s", d, logs)
      | inr cList =>
          st ← forEach (containerStep cfg) cList ([], d, logs);
          let '(ret, d, logs) := st in
          let d := if CollectNetwork d
                   then withNetworkMappings (resolveDockerNetworks (networkMappings d)) d
                   else d in
          let d := if now <? lastInvalidate d + invalidationInterval
                   then cleanupCaches cList d else d in
          Some (inr ret, d, logs)
      end
  end.

(** The containers behind the pointers of a [[]*containers.Container]. *)
Definition Objects : Type := gmap nat Container.

(** [nwByIface], the map [UpdateContainerMetrics] makes of the networks of
    a container: of two networks on one interface the later one stays. *)
Definition nwByIface (networks : list dockerNetwork) : gmap string string :=
  foldl (fun m nw => <[iface nw := dockerName nw]> m) ∅ networks.

(** The body of the loop of [UpdateContainerMetrics] for the container at
    the address [p]; [None] is the panic of [container.ID[:12]]. *)
Definition updateStep (d : DockerUtil) (st : Objects * list LogLine) (p : nat)
    : option (Objects * list LogLine) :=
  let '(objs, logs) := st in
  container ← objs !! p;
  if negb (String.eqb (C_State container) ContainerRunningState) || C_Excluded container
  then Some (objs, logs)
  else
    let '(err, container) := FillCgroupMetrics container in
    let objs := <[p := container]> objs in
    match err with
    | Some _ =>
        _ ← prefix12 (C_ID container);
        Some (objs, logs ++ [Debugf "Cannot get metrics for container %s: %s"])
    | None =>
        if CollectNetwork d then
          let networks := default [] (networkMappings d !! C_ID container) in
          let '(err, container) := FillNetworkMetrics (nwByIface networks) container in
          let objs := <[p := container]> objs in
          match err with
          | Some _ =>
              Some (objs, logs ++ [Debugf "Cannot get network stats for container %s: %s"])
          | None => Some (objs, logs)
          end
        else Some (objs, logs)
    end.

(** [UpdateContainerMetrics]: the error it returns, the containers and the
    log. *)
Definition UpdateContainerMetrics (d : DockerUtil) (cList : list nat)
    (objs : Objects) (logs : list LogLine)
    : option (option string * Objects * list LogLine) :=
  st ← forEach (updateStep d) cList (objs, logs);
  Some (None, fst st, snd st).

(** The body of the loop of [ListContainers]. *)
Definition limitsStep (cgByContainer : gmap string Cgroup)
    (st : Objects * list LogLine) (p : nat) : option (Objects * list LogLine) :=
  let '(objs, logs) := st in
  container ← objs !! p;
  if negb (String.eqb (C_State container) ContainerRunningState) || C_Excluded container
  then Some (objs, logs)
  else
    match cgByContainer !! C_ID container with
    | None =>
        _ ← prefix12 (C_ID container);
        Some (objs, logs ++ [Debugf "No matching cgroups for container %s, skipping"])
    | Some cgroup =>
        let container := SetCgroups cgroup container in
        let '(err, container) := FillCgroupLimits container in
        let objs := <[p := container]> objs in
        match err with
        | Some _ =>
            _ ← prefix12 (C_ID container);
            Some (objs, logs ++ [Debugf "Cannot get limits for container %s: %s, skipping"])
        | None => Some (objs, logs)
        end
    end.

(** The containers [dockerContainers] has made, each behind a pointer of
    its own: the addresses from [next] on. *)
Definition allocContainers (ret : list Container) (next : nat) (objs : Objects)
    : list nat * Objects :=
  (seq next (length ret),
   foldl (fun objs '(p, c) => <[p := c]> objs) objs (zip (seq next (length ret)) ret)).

(** [ListContainers]: the list and the error it returns, with the state of
    [d], the containers and the log.  [next] is the first address not in
    use. *)
Definition ListContainers (cfg : option ContainerListConfig) (now : Z)
    (d : DockerUtil) (next : nat) (objs : Objects) (logs : list LogLine)
    : option ((list nat * option string) * DockerUtil * Objects * list LogLine) :=
  match ScrapeAllCgroups with
  | inl _ => Some (([], Some "could not get cgroups: %s"), d, objs, logs)
  | inr cgByContainer =>
      r ← dockerContainers cfg now d logs;
      let '(res, d, logs) := r in
      match res with
      | inl _ => Some (([], Some "could not get docker containers: %s"), d, objs, logs)
      | inr ret =>
          let '(cList, objs) := allocContainers ret next objs in
          st ← forEach (limitsStep cgByContainer) cList (objs, logs);
          u ← UpdateContainerMetrics d cList (fst st) (snd st);
          let '(err, objs, logs) := u in
          Some ((cList, err), d, objs, logs)
      end
  end.

(** The address that an exposed port gives: the host IP, if it parses, with
    the public port. *)
Definition hostAddress (port : types.Port) : option NetworkAddress :=
  if isExposed port then
    ip ← net_ParseIP (types.IP port);
    Some (mkNetworkAddress (Some ip) (types.PublicPort port) (types.Type_ port))
  else None.

(** The IP of a network that has one, if it parses. *)
Definition networkIP (network : string * types.EndpointSettings) : option net.IP :=
  if String.eqb (types.IPAddress (snd network)) "" then None
  else net_ParseIP (types.IPAddress (snd network)).

(** The address of a port that is not exposed, in a network of IP [ip]. *)
Definition networkAddress (ip : net.IP) (port : types.Port) : NetworkAddress :=
  mkNetworkAddress (Some ip) (types.PrivatePort port) (types.Type_ port).

(** A container that the loops of [ListContainers] and
    [UpdateContainerMetrics] pass over: it is not running, or it is
    excluded. *)
Definition passedOver (container : Container) : Prop :=
  C_State container <> ContainerRunningState \/ C_Excluded container = true.

(** [out] is the entry [dockerContainers] makes for the container [c] of
    the daemon's list. *)
Definition listedAs (cfg : ContainerListConfig) (c : types.Container)
    (out : Container) : Prop :=
  C_Type out = "Docker" /\
  C_ID out = types.ID c /\
  C_EntityID out = ContainerIDToEntityName (types.ID c) /\
  types.Names c !! 0%nat = Some (C_Name out) /\
  (exists images, C_Image out = fst (fst (ResolveImageName (types.Image c) images))) /\
  C_ImageID out = types.ImageID c /\
  C_Created out = types.Created c /\
  C_State out = types.State c /\
  C_Excluded out = filter_IsExcluded (C_Name out) (C_Image out) /\
  (C_Excluded out = true -> FlagExcluded cfg = true) /\
  docker.parseContainerHealth (types.Status c) = Some (C_Health out) /\
  C_AddressList out =
    fst (parseContainerNetworkAddresses (types.Ports c) (types.NetworkSettings c)
           (C_Name out)) /\
  C_Data out = noData.

(** A round of a loop over the containers that writes to no container but
    its own, and not even to that one if it is passed over. *)
Definition ownContainerOnly
    (step : Objects * list LogLine -> nat ->
            option (Objects * list LogLine)) : Prop :=
  forall objs logs p objs' logs',
    step (objs, logs) p = Some (objs', logs') ->
    exists c, objs !! p = Some c /\
      (passedOver c -> objs' = objs) /\
      (forall q, q <> p -> objs' !! q = objs !! q) /\
      is_Some (objs' !! p).

End Daemon.

End dockerutil.


(** ** A small deployment to run the code on

    Stand-ins for the collaborators, simple enough to compute with: the
    samplers, the event processor, the rate limiter and the watchdog's
    measurements answer what their state holds, the sanitizers and the
    sublayer analysis do nothing, the blacklister refuses one resource, and
    the JSON decoder knows one body. *)

Module demo.

Record State : Type := mkState {
  priority : bool * float;      (* the answer of [PrioritySampler.Add] *)
  errors : bool * float;        (* the answer of [ErrorsScoreSampler.Add] *)
  score : bool * float;         (* the answer of [ScoreSampler.Add] *)
  events : list pb.addr;        (* what the event processor extracts *)
  realRate : float;
  targetRate : float;
  permits : bool;
  alloc : Z;
  cpu : float
}.

Definition setTargetRate (rate : float) (s : State) : State :=
  mkState (priority s) (errors s) (score s) (events s) (realRate s)
          rate (permits s) (alloc s) (cpu s).

(** Three spans of the traces 7, 7 and 9, as in scenario S3 of the spec. *)
Definition spanA : pb.Span :=
  pb.mkSpan "web" "web.request" "/a" 7 1 0 100 10 0 ∅ ∅ "http".
Definition spanB : pb.Span :=
  pb.mkSpan "web" "web.query" "/b" 7 2 1 101 5 0 ∅ ∅ "sql".
Definition spanC : pb.Span :=
  pb.mkSpan "api" "api.request" "/c" 9 3 0 102 7 0 ∅ ∅ "http".

Definition s3Body : string := "[spanA, spanB, spanC]".

Definition decodeSpans (body : string) : Decoded (list pb.Span) :=
  if String.eqb body s3Body
  then mkDecoded (Z.of_nat (String.length body)) (inr [spanA; spanB; spanC])
  else mkDecoded 0 (inl (ErrOther "unexpected end of JSON input")).

Definition decodeTraces (body : string) : Decoded (list (list pb.Span)) :=
  if String.eqb body s3Body
  then mkDecoded (Z.of_nat (String.length body)) (inr [[spanA; spanB]; [spanC]])
  else mkDecoded 0 (inl (ErrOther "unexpected end of JSON input")).

Definition collaborators : Collaborators := {|
  Ext := State;
  KeySamplingRateClient := "_client_rate";
  KeySamplingRatePreSampler := "_pre_sample_rate";
  GetRoot := fun _ t => hd 0%nat t;
  GetEnv := fun _ _ => "";
  ComputeTopLevel := fun _ h => h;
  Blacklister_Allows := fun h root =>
    negb (String.eqb (pb.Resource (pb.deref h root)) "GET /blocked");
  Replacer_Replace := fun _ h => h;
  Obfuscate := fun _ h => h;
  Truncate := fun _ h => h;
  ExtractTopLevelSubtraces := fun _ _ _ => [];
  ComputeSublayers := fun _ _ => [];
  SetSublayersOnSpan := fun _ _ h => h;
  NewWeightedTrace := fun _ _ _ => [];
  Sampler_Add := fun name _ st =>
    (match name with
     | PrioritySampler => priority (fst st)
     | ErrorsScoreSampler => errors (fst st)
     | ScoreSampler => score (fst st)
     end, st);
  EventProcessor_Process := fun _ _ st =>
    ((events (fst st), Z.of_nat (length (events (fst st)))), st);
  RateLimiter_RealRate := realRate;
  RateLimiter_Permits := fun _ s => (permits s, s);
  RateLimiter_SetTargetRate := setTargetRate;
  RateLimiter_Stats_TargetRate := targetRate;
  normalizeTrace := fun _ _ st => (None, st);
  json_Decode_spans := decodeSpans;
  json_Decode_traces := decodeTraces;
  msgp_Decode_traces := decodeTraces;
  mime_ParseMediaType := fun s => inr s;
  RateByService_JSON := fun _ => "{}";
  watchdog_Mem := alloc;
  watchdog_CPU := fun _ => cpu
|}.

(** A state of the collaborators: the priority sampler keeps at rate 1, the
    errors sampler keeps at rate 1, the score sampler drops at rate 0.5, no
    event is extracted, the rate limiter lets everything in, 100 bytes are
    allocated and half a CPU is in use. *)
Definition state : State :=
  mkState (true, 1%float) (true, 1%float) (false, 0.5%float) []
          1%float 1%float true 100 0.5%float.

Definition world (s : State) (h : pb.Heap) (cfg : AgentConfig) : @World collaborators :=
  @mkWorld collaborators h s cfg 200 info.NewReceiverStats [] [] [] [] [].

(** No limit is configured ([MaxMemory] and [MaxCPU] are 0). *)
Definition noLimits : AgentConfig := mkAgentConfig "none" 0%float 0%float.

(** A limit of 1000 bytes of memory. *)
Definition limited : AgentConfig := mkAgentConfig "none" 1000%float 0%float.

(** A store with one span, at address 0: a root without any metric, one
    with the priority 1 that the blacklister refuses, one with the priority
    -1 that the blacklister refuses. *)
Definition plainRoot : pb.Span :=
  pb.mkSpan "web" "web.request" "/a" 7 1 0 100 10 0 ∅ ∅ "http".
Definition blockedRoot : pb.Span :=
  pb.mkSpan "web" "web.request" "GET /blocked" 7 1 0 100 10 0 ∅
            {[ KeySamplingPriority := 1%float ]} "http".
Definition blockedNegativeRoot : pb.Span :=
  pb.mkSpan "web" "web.request" "GET /blocked" 7 1 0 100 10 0 ∅
            {[ KeySamplingPriority := (-1)%float ]} "http".

Definition heapOf (s : pb.Span) : pb.Heap := snd (pb.alloc s pb.emptyHeap).

(** Two requests for [/v0.1/spans]: the body of scenario S3, and a body that
    does not decode, announced as three traces. *)
Definition s3Request : Request :=
  mkRequest {[ headerTraceCount := "2" ]} s3Body.
Definition brokenRequest : Request :=
  mkRequest {[ headerTraceCount := "3" ]} "[{".

(** The deployment with each of the three stores, no limit configured. *)
Definition plainWorld : @World collaborators :=
  world state (heapOf plainRoot) noLimits.
Definition blockedWorld : @World collaborators :=
  world state (heapOf blockedRoot) noLimits.
Definition blockedNegativeWorld : @World collaborators :=
  world state (heapOf blockedNegativeRoot) noLimits.

End demo.

(** ** A small Docker host to run the code on

    A daemon that lists two containers, [/web], running, with a health
    check, one published port and one port that is not published, and
    [/pause], exited, which the filter excludes.  Images resolve to
    themselves, inspection always succeeds, no cgroup is found, and the
    methods of a container never fail. *)

Module harbor.

#[global] Instance data : dockerutil.ContainerData := {|
  dockerutil.Data := unit;
  dockerutil.noData := tt;
  dockerutil.Cgroup := unit
|}.

Definition web : types.Container :=
  types.mkContainer "0123456789abcdef" ["/web"] "nginx" "sha256:1" 1000 "running"
    "Up 5 seconds (health: starting)"
    [types.mkPort "127.0.0.1" 80 8080 "tcp"; types.mkPort "" 9000 0 "tcp"]
    (Some (types.mkSummaryNetworkSettings
             [("bridge", types.mkEndpointSettings "n1" "10.0.0.2");
              ("backend", types.mkEndpointSettings "n2" "10.0.1.2")])).

Definition pause : types.Container :=
  types.mkContainer "fedcba9876543210" ["/pause"] "pause" "sha256:2" 900 "exited"
    "Exited (0) 2 hours ago" [] None.

Definition parseIP (s : string) : option net.IP :=
  if String.eqb s "127.0.0.1" then Some [Byte.x7f; Byte.x00; Byte.x00; Byte.x01]
  else if String.eqb s "10.0.0.2" then Some [Byte.x0a; Byte.x00; Byte.x00; Byte.x02]
  else if String.eqb s "10.0.1.2" then Some [Byte.x0a; Byte.x00; Byte.x01; Byte.x02]
  else None.

#[global] Instance daemon : dockerutil.Daemon := {|
  dockerutil.net_ParseIP := parseIP;
  dockerutil.ContainerRunningState := "running";
  dockerutil.invalidationInterval := 300;
  dockerutil.cli_ContainerList := fun _ => inr [web; pause];
  dockerutil.Inspect_Pid := fun _ => inr 1;
  dockerutil.findDockerNetworks := fun _ _ _ => [dockerutil.mkDockerNetwork "eth0" "bridge"];
  dockerutil.resolveDockerNetworks := fun m => m;
  dockerutil.ResolveImageName := fun image m => ((image, None), m);
  dockerutil.filter_IsExcluded := fun name _ => String.eqb name "/pause";
  dockerutil.ContainerIDToEntityName := fun id => "docker://" +:+ id;
  dockerutil.ScrapeAllCgroups := inr ∅;
  dockerutil.SetCgroups := fun _ c => c;
  dockerutil.FillCgroupLimits := fun c => (None, c);
  dockerutil.FillCgroupMetrics := fun c => (None, c);
  dockerutil.FillNetworkMetrics := fun _ c => (None, c)
|}.

(** The two containers as [dockerContainers] lists them. *)
Definition webObject : dockerutil.Container :=
  dockerutil.mkContainer "Docker" "0123456789abcdef" "docker://0123456789abcdef"
    "/web" "nginx" "sha256:1" 1000 "running" false "starting" [] tt.

Definition pauseObject : dockerutil.Container :=
  dockerutil.mkContainer "Docker" "fedcba9876543210" "docker://fedcba9876543210"
    "/pause" "pause" "sha256:2" 900 "exited" true "" [] tt.

Definition objects : dockerutil.Objects := {[ 0%nat := webObject; 1%nat := pauseObject ]}.

(** A [DockerUtil] that collects networks, with empty caches. *)
Definition util : dockerutil.DockerUtil := dockerutil.mkDockerUtil true ∅ ∅ 0.

(** The caller asks for the excluded containers too. *)
Definition everything : dockerutil.ContainerListConfig :=
  dockerutil.mkContainerListConfig true true.

(** Requests for the receiver: a msgpack payload, and the tags of three
    clients, two of them in Go. *)
Definition msgpackRequest : Request :=
  mkRequest {[ "Content-Type" := "application/msgpack" ]} "".

(** What the receiver answers to a payload in a format it does not take. *)
Definition formatError (w : ResponseWriter) (v : Version) (err : error) : ResponseWriter :=
  http_Error w "unsupported media type" 415.

(** A state of the collaborators in which the rate limiter refuses. *)
Definition refusing : demo.State :=
  demo.mkState (true, 1%float) (true, 1%float) (false, 0.5%float) []
               1%float 1%float false 100 0.5%float.

Definition clients : list info.Tags :=
  [info.mkTags "python" "3.7" "CPython" "0.20";
   info.mkTags "go" "1.12" "" "1.13";
   info.mkTags "go" "1.11" "" "1.13"].

End harbor.


(** * Proofs *)

(** * Strings *)

Lemma sapp_nil_l (s : string) : "" +:+ s = s.
Proof. reflexivity. Qed.

Lemma sapp_cons (c : ascii) (s t : string) : String c s +:+ t = String c (s +:+ t).
Proof. reflexivity. Qed.

Lemma sapp_nil_r (s : string) : s +:+ "" = s.
Proof. induction s as [|c s IH]; [reflexivity|]. rewrite sapp_cons. by rewrite IH. Qed.

Lemma sapp_assoc (s t u : string) : (s +:+ t) +:+ u = s +:+ t +:+ u.
Proof.
  induction s as [|c s IH]; [reflexivity|].
  rewrite !sapp_cons. by rewrite IH.
Qed.

Lemma slength_app (s t : string) :
  String.length (s +:+ t) = (String.length s + String.length t)%nat.
Proof.
  induction s as [|c s IH]; [reflexivity|].
  rewrite sapp_cons. simpl. by rewrite IH.
Qed.

Lemma sapp_eq_nil (s t : string) : s +:+ t = "" -> s = "" /\ t = "".
Proof. destruct s; [rewrite sapp_nil_l; auto | rewrite sapp_cons; discriminate]. Qed.

(** * [strings.Index] and [strings.IndexByte] *)

Lemma HasPrefix_true (s p : string) :
  docker.HasPrefix s p = true <-> exists post, s = p +:+ post.
Proof.
  revert s. induction p as [|a p IH]; intros [|c s]; simpl.
  - split; [intros _; eexists; reflexivity | done].
  - split; [intros _; eexists; reflexivity | done].
  - split; [done | intros [post H]; rewrite sapp_cons in H; discriminate].
  - destruct (Ascii.eqb_spec c a) as [->|Hne].
    + rewrite IH. split; intros [post H]; exists post.
      * rewrite sapp_cons. by rewrite H.
      * rewrite sapp_cons in H. by injection H.
    + split; [done | intros [post H]; rewrite sapp_cons in H].
      injection H as H1 _. done.
Qed.

Lemma Index_unfold (s sub : string) :
  docker.Index s sub =
    if docker.HasPrefix s sub then 0
    else match s with
         | EmptyString => -1
         | String _ s' =>
             if docker.Index s' sub =? -1 then -1 else docker.Index s' sub + 1
         end.
Proof. destruct s; reflexivity. Qed.

Lemma Index_range (s sub : string) :
  docker.Index s sub = -1 \/ 0 <= docker.Index s sub.
Proof.
  induction s as [|c s IH]; rewrite Index_unfold;
    destruct (docker.HasPrefix _ sub); try lia.
  destruct (Z.eqb_spec (docker.Index s sub) (-1)); lia.
Qed.

Lemma Index_found (s sub : string) :
  0 <= docker.Index s sub <-> docker.occurs sub s.
Proof.
  induction s as [|c s IH]; rewrite Index_unfold;
    destruct (docker.HasPrefix _ sub) eqn:HP.
  - split; [intros _ | lia].
    apply HasPrefix_true in HP as [post HP]. exists "", post. by rewrite sapp_nil_l.
  - split; [lia|]. intros (pre & post & H).
    symmetry in H. apply sapp_eq_nil in H as [-> H].
    assert (docker.HasPrefix "" sub = true); [|congruence].
    apply HasPrefix_true. exists post. by rewrite H.
  - split; [intros _ | lia].
    apply HasPrefix_true in HP as [post HP]. exists "", post. by rewrite sapp_nil_l.
  - destruct (Index_range s sub) as [Hi|Hi].
    + rewrite Hi. simpl. split; [lia|]. intros (pre & post & H).
      destruct pre as [|d pre].
      * rewrite sapp_nil_l in H.
        assert (docker.HasPrefix (String c s) sub = true); [|congruence].
        apply HasPrefix_true. by exists post.
      * rewrite sapp_cons in H. injection H as _ H.
        assert (0 <= docker.Index s sub); [|lia].
        apply IH. by exists pre, post.
    + destruct (Z.eqb_spec (docker.Index s sub) (-1)); [lia|].
      split; [intros _ | lia].
      apply IH in Hi as (pre & post & ->).
      exists (String c pre), post. by rewrite sapp_cons.
Qed.

Lemma IndexByte_range (s : string) (c : ascii) :
  docker.IndexByte s c = -1 \/ 0 <= docker.IndexByte s c.
Proof.
  induction s as [|d s IH]; simpl; [lia|].
  destruct (Ascii.eqb d c); [lia|].
  destruct (Z.eqb_spec (docker.IndexByte s c) (-1)); lia.
Qed.

Lemma IndexByte_found (s : string) (c : ascii) :
  0 <= docker.IndexByte s c <-> docker.occurs (String c "") s.
Proof.
  induction s as [|d s IH]; simpl.
  - split; [lia|]. intros (pre & post & H).
    symmetry in H. apply sapp_eq_nil in H as [_ H]. rewrite sapp_cons in H. discriminate.
  - destruct (Ascii.eqb_spec d c) as [->|Hne].
    + split; [intros _ | lia]. exists "", s. reflexivity.
    + destruct (IndexByte_range s c) as [Hi|Hi].
      * rewrite Hi. simpl. split; [lia|]. intros (pre & post & H).
        destruct pre as [|e pre].
        -- rewrite sapp_nil_l, sapp_cons in H. injection H as H _. done.
        -- rewrite sapp_cons in H. injection H as _ H.
           assert (0 <= docker.IndexByte s c); [|lia].
           apply IH. by exists pre, post.
      * destruct (Z.eqb_spec (docker.IndexByte s c) (-1)); [lia|].
        split; [intros _ | lia].
        apply IH in Hi as (pre & post & ->).
        exists (String d pre), post. by rewrite sapp_cons.
Qed.

(** * The pattern [healthRe] *)

Lemma re_match_Lit c s g :
  docker.re_match (docker.Lit c) s g -> s = String c "" /\ g = [].
Proof. by inversion 1. Qed.

Lemma re_match_Word s g :
  docker.re_match docker.Word s g ->
  exists c, s = String c "" /\ docker.isWordChar c = true /\ g = [].
Proof. inversion 1; subst. by eexists. Qed.

Lemma re_match_plus_word_inv r s g :
  docker.re_match r s g -> r = docker.Plus docker.Word ->
  s <> "" /\ docker.isWord s = true /\ g = [].
Proof.
  induction 1 as [| | | r s g H IH | r s1 s2 g1 g2 H1 IH1 H2 IH2 |]; try discriminate.
  - intros [= ->]. apply re_match_Word in H as (c & -> & Hc & ->).
    simpl. by rewrite Hc.
  - intros [= ->]. apply re_match_Word in H1 as (c & -> & Hc & ->).
    destruct (IH2 eq_refl) as (_ & Hw & ->).
    rewrite sapp_cons, sapp_nil_l. simpl. rewrite Hc, Hw. done.
Qed.

Lemma re_match_plus_word s :
  s <> "" -> docker.isWord s = true ->
  docker.re_match (docker.Plus docker.Word) s [].
Proof.
  induction s as [|c s IH]; [done|]. intros _. simpl.
  intros [Hc Hs]%andb_prop.
  destruct s as [|d s].
  - apply docker.M_PlusOne. by constructor.
  - change (String c (String d s)) with (String c "" +:+ String d s).
    eapply docker.M_PlusMore; [by constructor | by apply IH].
Qed.

Lemma re_match_lits l r s g :
  docker.re_match (docker.lits l r) s g <->
  exists s', s = l +:+ s' /\ docker.re_match r s' g.
Proof.
  revert s g. induction l as [|c l IH]; intros s g; simpl.
  - split; [intros H; by exists s | by intros (s' & -> & H)].
  - split.
    + inversion 1; subst.
      match goal with H : docker.re_match (docker.Lit _) _ _ |- _ =>
        apply re_match_Lit in H as [-> ->] end.
      match goal with H : docker.re_match (docker.lits _ _) _ _ |- _ =>
        apply IH in H as (s' & -> & H) end.
      exists s'. by rewrite !sapp_cons, sapp_nil_l.
    + intros (s' & -> & H).
      change (String c l +:+ s') with (String c "" +:+ (l +:+ s')).
      change g with ([] ++ g).
      constructor; [constructor | apply IH; by exists s'].
Qed.

Lemma healthRe_match m caps :
  docker.re_match docker.healthRe m caps <->
  exists g, m = "(health: " +:+ g +:+ ")" /\ g <> "" /\
            docker.isWord g = true /\ caps = [g].
Proof.
  unfold docker.healthRe. rewrite re_match_lits. split.
  - intros (s' & -> & H). inversion H; subst.
    match goal with H : docker.re_match (docker.Lit _) _ _ |- _ =>
      apply re_match_Lit in H as [-> ->] end.
    match goal with H : docker.re_match (docker.Group _) _ _ |- _ =>
      inversion H; subst end.
    match goal with H : docker.re_match (docker.Plus _) _ _ |- _ =>
      apply re_match_plus_word_inv in H as (Hne & Hw & ->); [|done] end.
    by eexists.
  - intros (g & -> & Hne & Hw & ->). exists (g +:+ ")"). split; [done|].
    change [g] with ([g] ++ []).
    constructor; [|constructor].
    constructor. by apply re_match_plus_word.
Qed.

(** * Running [healthRe] *)

Lemma wordRun_spec s w rest :
  docker.wordRun s = (w, rest) ->
  s = w +:+ rest /\ docker.isWord w = true /\ docker.stopsWord rest.
Proof.
  revert w rest. induction s as [|c s IH]; intros w rest; simpl.
  - intros [= <- <-]. done.
  - destruct (docker.isWordChar c) eqn:Hc.
    + destruct (docker.wordRun s) as [w' rest'].
      intros [= <- <-]. destruct (IH _ _ eq_refl) as (-> & Hw & Hr).
      rewrite sapp_cons. simpl. by rewrite Hc, Hw.
    + intros [= <- <-]. by rewrite sapp_nil_l.
Qed.

Lemma wordRun_app g rest :
  docker.isWord g = true -> docker.stopsWord rest ->
  docker.wordRun (g +:+ rest) = (g, rest).
Proof.
  intros Hg Hr. induction g as [|c g IH].
  - rewrite sapp_nil_l. destruct rest as [|d rest]; [done|].
    simpl in *. by rewrite Hr.
  - simpl in Hg. apply andb_prop in Hg as [Hc Hg].
    rewrite sapp_cons. simpl. by rewrite Hc, (IH Hg).
Qed.

Lemma TrimPrefix_spec s p rest :
  docker.TrimPrefix s p = Some rest <-> s = p +:+ rest.
Proof.
  revert s. induction p as [|a p IH]; intros [|c s]; simpl;
    rewrite ?sapp_nil_l, ?sapp_cons.
  - split; congruence.
  - split; congruence.
  - split; discriminate.
  - destruct (Ascii.eqb_spec c a) as [->|Hne].
    + rewrite IH. split; congruence.
    + split; [discriminate | congruence].
Qed.

Lemma closing_stopsWord post : docker.stopsWord (")" +:+ post).
Proof. reflexivity. Qed.

(** A match anchored at the start of [s] is what [healthRe_at] finds. *)
Lemma healthRe_at_complete s g post :
  g <> "" -> docker.isWord g = true ->
  s = ("(health: " +:+ g +:+ ")") +:+ post ->
  docker.healthRe_at s = Some ["(health: " +:+ g +:+ ")"; g].
Proof.
  intros Hne Hw ->. unfold docker.healthRe_at.
  assert (docker.TrimPrefix (("(health: " +:+ g +:+ ")") +:+ post) "(health: "
          = Some (g +:+ ")" +:+ post)) as ->.
  { apply TrimPrefix_spec. by rewrite !sapp_assoc. }
  rewrite (wordRun_app g (")" +:+ post) Hw (closing_stopsWord post)).
  destruct g as [|c w]; [done|]. reflexivity.
Qed.

Lemma healthRe_at_sound s l :
  docker.healthRe_at s = Some l ->
  exists g post, l = ["(health: " +:+ g +:+ ")"; g] /\
    s = ("(health: " +:+ g +:+ ")") +:+ post /\
    g <> "" /\ docker.isWord g = true.
Proof.
  unfold docker.healthRe_at.
  destruct (docker.TrimPrefix s "(health: ") as [rest|] eqn:HT; [|done].
  apply TrimPrefix_spec in HT as ->.
  destruct (docker.wordRun rest) as [w rest'] eqn:HW.
  apply wordRun_spec in HW as (-> & Hw & Hr).
  destruct w as [|c w]; [done|]. destruct rest' as [|d rest']; [done|].
  destruct (Ascii.eqb_spec d ")") as [->|]; [|done].
  intros [= <-]. exists (String c w), rest'. split; [done|].
  split; [|done]. by rewrite !sapp_assoc.
Qed.

Lemma match_at_O r s m caps :
  docker.match_at r s 0 m caps <->
  exists post, s = m +:+ post /\ docker.re_match r m caps.
Proof.
  split.
  - intros (pre & post & -> & Hl & H). destruct pre; [|done]. by exists post.
  - intros (post & -> & H). by exists "", post.
Qed.

Lemma match_at_S r c s j m caps :
  docker.match_at r (String c s) (S j) m caps <-> docker.match_at r s j m caps.
Proof.
  split.
  - intros (pre & post & Hs & Hl & H). destruct pre as [|d pre]; [done|].
    rewrite sapp_cons in Hs. injection Hs as _ ->. simpl in Hl.
    exists pre, post. naive_solver.
  - intros (pre & post & -> & Hl & H). exists (String c pre), post.
    rewrite sapp_cons. simpl. naive_solver.
Qed.

Lemma healthRe_at_None s :
  docker.healthRe_at s = None ->
  forall m caps, ~ docker.match_at docker.healthRe s 0 m caps.
Proof.
  intros Hn m caps (post & -> & H)%match_at_O.
  apply healthRe_match in H as (g & -> & Hne & Hw & ->).
  by rewrite (healthRe_at_complete _ g post Hne Hw eq_refl) in Hn.
Qed.

Lemma no_match_nil : docker.no_match docker.healthRe "".
Proof.
  intros i m caps (pre & post & Hs & _ & H).
  symmetry in Hs. apply sapp_eq_nil in Hs as [_ Hs].
  apply sapp_eq_nil in Hs as [-> _].
  apply healthRe_match in H as (g & H & _). discriminate.
Qed.

(** The scan finds the first match, or there is none. *)
Lemma healthRe_scan_first s :
  (exists g rest,
     docker.healthRe_scan s 0 = ["(health: " +:+ g +:+ ")"; g] :: rest /\
     docker.first_match docker.healthRe s ("(health: " +:+ g +:+ ")") [g])
  \/ (docker.healthRe_scan s 0 = [] /\ docker.no_match docker.healthRe s).
Proof.
  induction s as [|c s IH].
  - right. split; [done | apply no_match_nil].
  - cbn [docker.healthRe_scan].
    destruct (docker.healthRe_at (String c s)) as [l|] eqn:Hat.
    + left. apply healthRe_at_sound in Hat as (g & post & -> & Hs & Hne & Hw).
      exists g. eexists. split; [done|].
      exists 0%nat. split; [|intros; lia].
      apply match_at_O. exists post. split; [done|].
      apply healthRe_match. by exists g.
    + destruct IH as [(g & rest & Hscan & i & Hi & Hmin)|[Hscan Hno]].
      * left. exists g, rest. split; [done|].
        exists (S i). split; [by apply match_at_S|].
        intros [|j] m' caps' Hj; [by apply healthRe_at_None in Hj|].
        apply match_at_S in Hj. apply Hmin in Hj. lia.
      * right. split; [done|].
        intros [|j] m' caps' Hj; [by apply healthRe_at_None in Hj|].
        apply match_at_S in Hj. by apply Hno in Hj.
Qed.

Lemma sapp_inv_length (p p' a b : string) :
  p +:+ a = p' +:+ b -> String.length p = String.length p' -> p = p' /\ a = b.
Proof.
  revert p'. induction p as [|c p IH]; intros [|c' p']; try done.
  rewrite !sapp_cons. intros [= -> H] [= Hl].
  destruct (IH _ H Hl) as [-> ->]. done.
Qed.

(** The first match of [healthRe] is unique, so "the first capture group of
    the first match" is one string. *)
Lemma healthRe_first_match_unique s m caps m' caps' :
  docker.first_match docker.healthRe s m caps ->
  docker.first_match docker.healthRe s m' caps' ->
  m = m' /\ caps = caps'.
Proof.
  intros (i & Hi & Hmin) (i' & Hi' & Hmin').
  assert (i = i') as <-.
  { apply Hmin in Hi' as ?. apply Hmin' in Hi as ?. lia. }
  destruct Hi as (pre & post & Hs & Hl & H).
  destruct Hi' as (pre' & post' & Hs' & Hl' & H').
  rewrite Hs in Hs'. apply sapp_inv_length in Hs' as [_ Hs']; [|congruence].
  apply healthRe_match in H as (g & -> & Hne & Hw & ->).
  apply healthRe_match in H' as (g' & -> & Hne' & Hw' & ->).
  rewrite !sapp_assoc in Hs'. apply (inj (String.app _)) in Hs'.
  assert (docker.wordRun (g +:+ ")" +:+ post) = docker.wordRun (g' +:+ ")" +:+ post'))
    as Hrun by by rewrite Hs'.
  rewrite !wordRun_app in Hrun by (done || apply closing_stopsWord).
  by injection Hrun as -> _.
Qed.

(** C10.  [parseContainerHealth] never fails on its two indexings, so it is
    total; it returns "unhealthy" when [status] contains "unhealthy"; the
    empty string when [status] contains neither "unhealthy" nor a byte "(";
    and otherwise group 1 of the first match of [healthRe] in [status], or
    the empty string when [healthRe] has no match. *)
Theorem parseContainerHealth_spec (status : string) :
  exists r, docker.parseContainerHealth status = Some r /\
    (docker.occurs "unhealthy" status -> r = "unhealthy") /\
    (~ docker.occurs "unhealthy" status -> ~ docker.occurs "(" status -> r = "") /\
    (~ docker.occurs "unhealthy" status -> docker.occurs "(" status ->
       (exists m g, docker.first_match docker.healthRe status m [g] /\ r = g)
       \/ (docker.no_match docker.healthRe status /\ r = "")).
Proof.
  unfold docker.parseContainerHealth.
  destruct (Z.leb_spec 0 (docker.Index status "unhealthy")) as [Hu|Hu].
  { apply Index_found in Hu. exists "unhealthy". naive_solver. }
  assert (~ docker.occurs "unhealthy" status) as Hnu.
  { intros H%Index_found. lia. }
  destruct (Z.eqb_spec (docker.IndexByte status "(") (-1)) as [Hp|Hp].
  { assert (~ docker.occurs "(" status) by (intros H%IndexByte_found; lia).
    exists "". naive_solver. }
  assert (docker.occurs "(" status) as Hocc.
  { apply IndexByte_found. destruct (IndexByte_range status "("); lia. }
  unfold docker.healthRe_FindAllStringSubmatch.
  destruct (healthRe_scan_first status) as [(g & rest & -> & Hfirst)|[-> Hno]].
  - exists g. split; [|split; [tauto|]; split; [tauto|]].
    + match goal with |- context [(Z.of_nat (length ?l) <? 1)] =>
        assert ((Z.of_nat (length l) <? 1) = false) as ->
          by (apply Z.ltb_ge; simpl length; lia) end.
      reflexivity.
    + intros _ _. left. by eexists _, g.
  - exists "". split; [done|]. split; [tauto|]. split; [tauto|].
    intros _ _. by right.
Qed.

(** * binary64 *)



Lemma float_of_zero (x : float) (s : bool) :
  Prim2SF x = S754_zero s -> x = if s then (-0)%float else 0%float.
Proof.
  intros H. rewrite <- (SF2Prim_Prim2SF x), H. by destruct s.
Qed.

Lemma SFeqb_refl_finite (x : spec_float) :
  x <> S754_nan -> SFeqb x x = true.
Proof.
  destruct x as [s|s| |s m e]; try done; intros _; unfold SFeqb, SFcompare.
  - by destruct s.
  - rewrite Z.compare_refl, Pos.compare_cont_refl. by destruct s.
Qed.

(** Two finite numbers that compare equal are the same number. *)
Lemma SFcompare_finite_Eq s1 m1 e1 s2 m2 e2 :
  SFcompare (S754_finite s1 m1 e1) (S754_finite s2 m2 e2) = Some Eq ->
  S754_finite s1 m1 e1 = S754_finite s2 m2 e2.
Proof.
  unfold SFcompare. fold (Pos.compare m1 m2).
  destruct s1, s2; try discriminate;
    destruct (Z.compare_spec e1 e2); try discriminate;
    destruct (Pos.compare_spec m1 m2); try discriminate; by subst.
Qed.

Lemma SFcompare_finite_antisym s1 m1 e1 s2 m2 e2 :
  SFcompare (S754_finite s2 m2 e2) (S754_finite s1 m1 e1) =
  option_map CompOpp (SFcompare (S754_finite s1 m1 e1) (S754_finite s2 m2 e2)).
Proof.
  unfold SFcompare. fold (Pos.compare m1 m2) (Pos.compare m2 m1).
  rewrite (Z.compare_antisym e1 e2), (Pos.compare_antisym m1 m2).
  destruct s1, s2; try reflexivity;
    destruct (e1 ?= e2); try reflexivity;
    destruct (m1 ?= m2)%positive; reflexivity.
Qed.

Lemma math_Min_comm (x y : float) : math_Min x y = math_Min y x.
Proof.
  destruct (Prim2SF x) as [sx|sx| |sx mx ex] eqn:Ex;
  destruct (Prim2SF y) as [sy|sy| |sy my ey] eqn:Ey;
  try (apply float_of_zero in Ex; apply float_of_zero in Ey; subst;
       by destruct sx, sy).
  all: unfold math_Min, is_nan;
    rewrite !FloatAxioms.eqb_spec, !ltb_spec;
    change (Prim2SF neg_infinity) with (S754_infinity true);
    change (Prim2SF 0) with (S754_zero false);
    rewrite ?Ex, ?Ey.
  all: rewrite ?(SFeqb_refl_finite (S754_finite _ _ _)),
         ?(SFeqb_refl_finite (S754_infinity _)),
         ?(SFeqb_refl_finite (S754_zero _)) by done.
  all: try reflexivity.
  all: try (destruct sx; reflexivity).
  all: try (destruct sy; reflexivity).
  all: try (destruct sx, sy; simpl; try reflexivity;
            apply Prim2SF_inj; congruence).
  (* two finite numbers *)
  unfold SFeqb, SFltb. rewrite (SFcompare_finite_antisym sx mx ex sy my ey).
  destruct (SFcompare (S754_finite sx mx ex) (S754_finite sy my ey))
    as [[| |]|] eqn:Hc; simpl; destruct sx, sy; simpl; try reflexivity.
  all: try (simpl in Hc; discriminate).
  all: apply SFcompare_finite_Eq in Hc; apply Prim2SF_inj; congruence.
Qed.




Lemma is_finite_SF (r : float) :
  is_finite r = true ->
  (exists s, Prim2SF r = S754_zero s) \/ (exists s m e, Prim2SF r = S754_finite s m e).
Proof.
  unfold is_finite, is_nan, is_infinity.
  rewrite !FloatAxioms.eqb_spec, abs_spec.
  change (Prim2SF infinity) with (S754_infinity false).
  destruct (Prim2SF r) as [s|s| |s m e] eqn:E; simpl; try done; eauto.
  by destruct s.
Qed.

(** Adding a rate to the zero rate: [0 + r - 0 * r] is [r], up to the sign of
    a zero. *)
Lemma CombineRates_zero_l (r : float) :
  is_finite r = true -> (sampler_CombineRates 0 r =? r)%float = true.
Proof.
  intros Hfin. unfold sampler_CombineRates.
  rewrite FloatAxioms.eqb_spec, sub_spec, add_spec, mul_spec.
  change (Prim2SF 0) with (S754_zero false).
  destruct (is_finite_SF r Hfin) as [[s ->]|(s & m & e & ->)].
  - by destruct s.
  - change (SFeqb (S754_finite s m e) (S754_finite s m e) = true).
    by apply SFeqb_refl_finite.
Qed.


(** * [strconv.Atoi] reads decimal notation *)

Lemma digitValue_pretty_N_char (d : N) :
  (d < 10)%N -> digitValue (pretty_N_char d) = Some (Z.of_N d).
Proof.
  intros Hd.
  assert (d = 0 \/ d = 1 \/ d = 2 \/ d = 3 \/ d = 4 \/ d = 5 \/ d = 6
          \/ d = 7 \/ d = 8 \/ d = 9)%N as Hcases by lia.
  repeat destruct Hcases as [->|Hcases]; try reflexivity. by subst.
Qed.

Lemma digitValue_not_sign (c : ascii) (d : Z) :
  digitValue c = Some d -> Ascii.eqb c "-" = false /\ Ascii.eqb c "+" = false.
Proof.
  intros H. split; apply Ascii.eqb_neq; intros ->; discriminate H.
Qed.

Lemma digitValue_range (c : ascii) (d : Z) :
  digitValue c = Some d -> 0 <= d <= 9.
Proof.
  unfold digitValue.
  destruct (Z.leb_spec 48 (Z.of_N (N_of_ascii c))); [|done].
  destruct (Z.leb_spec (Z.of_N (N_of_ascii c)) 57); [|done].
  simpl. intros [= <-]. lia.
Qed.

Lemma int64_small (z : Z) : - 2 ^ 63 <= z < 2 ^ 63 -> int64 z = z.
Proof. intros Hz. unfold int64. rewrite Z.mod_small; lia. Qed.

Lemma uint64_small (z : Z) : 0 <= z < 2 ^ 64 -> uint64 z = z.
Proof. intros Hz. unfold uint64. by rewrite Z.mod_small. Qed.

Lemma int64_range (z : Z) : - 2 ^ 63 <= int64 z < 2 ^ 63.
Proof. unfold int64. pose proof (Z.mod_pos_bound (z + 2 ^ 63) (2 ^ 64)). lia. Qed.

(** One step of the loop of [ParseUint] on a digit that keeps the value in
    range. *)
Lemma ParseUint_loop_digit (c : ascii) (s : string) (n d : Z) :
  digitValue c = Some d -> 0 <= n -> n * 10 + d < 2 ^ 64 ->
  ParseUint_loop (String c s) n = ParseUint_loop s (n * 10 + d).
Proof.
  intros Hc Hn Hlt. pose proof (digitValue_range c d Hc) as Hd.
  cbn [ParseUint_loop]. rewrite Hc. cbv zeta. unfold maxUint64.
  destruct (Z.leb_spec ((2 ^ 64 - 1) / 10 + 1) n) as [Hcut|Hcut].
  { exfalso. change ((2 ^ 64 - 1) / 10 + 1) with 1844674407370955162 in Hcut. lia. }
  rewrite (uint64_small (n * 10)) by lia.
  rewrite uint64_small by lia.
  destruct (Z.ltb_spec (n * 10 + d) (n * 10)); [lia|].
  destruct (Z.ltb_spec (2 ^ 64 - 1) (n * 10 + d)); [lia|]. done.
Qed.

(** One step on a digit with which the value leaves the range. *)
Lemma ParseUint_loop_overflow (c : ascii) (s : string) (n d : Z) :
  digitValue c = Some d -> 0 <= n < 2 ^ 64 -> 2 ^ 64 <= n * 10 + d ->
  ParseUint_loop (String c s) n = (maxUint64, Some ErrRange).
Proof.
  intros Hc Hn Hge. pose proof (digitValue_range c d Hc) as Hd.
  cbn [ParseUint_loop]. rewrite Hc. cbv zeta. unfold maxUint64.
  destruct (Z.leb_spec ((2 ^ 64 - 1) / 10 + 1) n) as [Hcut|Hcut]; [done|].
  change ((2 ^ 64 - 1) / 10 + 1) with 1844674407370955162 in Hcut.
  rewrite (uint64_small (n * 10)) by lia.
  assert (uint64 (n * 10 + d) = n * 10 + d - 2 ^ 64) as ->.
  { unfold uint64. symmetry. apply (Z.mod_unique _ _ 1); lia. }
  destruct (Z.ltb_spec (n * 10 + d - 2 ^ 64) (n * 10)); [done|lia].
Qed.

(** The digits [pretty_N_go] puts in front of [s] are read by the loop of
    [ParseUint] as [x] when [x] is in the range of [uint64]; when it is
    not, the loop stops with [ErrRange] on one of these digits and does not
    reach [s]. *)
Lemma ParseUint_loop_pretty_N_go (x : N) (s : string) :
  ParseUint_loop (pretty_N_go x s) 0 =
    if Z.of_N x <? 2 ^ 64 then ParseUint_loop s (Z.of_N x)
    else (maxUint64, Some ErrRange).
Proof.
  revert s. induction (N.lt_wf_0 x) as [x _ IH]; intros s.
  destruct (decide (x = 0%N)) as [->|Hx]; [by rewrite pretty_N_go_0|].
  rewrite pretty_N_go_step by lia.
  rewrite IH by (apply N.div_lt; lia).
  assert (x `mod` 10 < 10)%N as Hm by (apply N.mod_lt; lia).
  pose proof (digitValue_pretty_N_char _ Hm) as Hd.
  assert (Z.of_N x = Z.of_N (x `div` 10) * 10 + Z.of_N (x `mod` 10)) as Hx10.
  { rewrite (N.div_mod x 10) at 1 by done. lia. }
  destruct (Z.ltb_spec (Z.of_N (x `div` 10)) (2 ^ 64)) as [Hq|Hq];
    destruct (Z.ltb_spec (Z.of_N x) (2 ^ 64)) as [Hlt|Hge]; try lia; try done.
  - rewrite (ParseUint_loop_digit _ _ _ _ Hd) by lia. by rewrite <- Hx10.
  - apply (ParseUint_loop_overflow _ _ _ _ Hd); lia.
  - exfalso. pose proof (N2Z.is_nonneg (x `mod` 10)). lia.
Qed.

Lemma pretty_N_go_starts_with_digit (x : N) (s : string) :
  (0 < x)%N \/ (exists c r d, s = String c r /\ digitValue c = Some d) ->
  exists c r d, pretty_N_go x s = String c r /\ digitValue c = Some d.
Proof.
  revert s. induction (N.lt_wf_0 x) as [x _ IH]; intros s Hs.
  destruct (decide (x = 0%N)) as [->|Hx].
  - rewrite pretty_N_go_0. destruct Hs as [?|?]; [lia | done].
  - rewrite pretty_N_go_step by lia. apply IH; [apply N.div_lt; lia|].
    right. do 3 eexists. split; [reflexivity|].
    apply digitValue_pretty_N_char, N.mod_lt. lia.
Qed.

(** [ParseUint] reads the decimal notation of a natural number, up to the
    range of [uint64]. *)
Lemma strconv_ParseUint_pretty_N (n : N) :
  strconv_ParseUint (pretty n) =
    if Z.of_N n <? 2 ^ 64 then (Z.of_N n, None) else (maxUint64, Some ErrRange).
Proof.
  unfold pretty, pretty_N.
  destruct (decide (n = 0%N)) as [->|Hne]; [reflexivity|].
  destruct (pretty_N_go_starts_with_digit n "") as (c & r & d & Hs & Hc); [lia|].
  unfold strconv_ParseUint.
  destruct (String.eqb_spec (pretty_N_go n "") "") as [He|_]; [congruence|].
  by rewrite ParseUint_loop_pretty_N_go.
Qed.

Lemma pretty_N_head (n : N) :
  exists c r d, pretty n = String c r /\ digitValue c = Some d.
Proof.
  unfold pretty, pretty_N.
  destruct (decide (n = 0%N)) as [->|Hne]; [by exists "0"%char, "", 0|].
  apply pretty_N_go_starts_with_digit. lia.
Qed.

(** [ParseInt] reads the decimal notation of an integer: the integer itself
    in the range of [int64], the nearest bound of the range and [ErrRange]
    outside. *)
Lemma strconv_ParseInt_pretty (z : Z) :
  strconv_ParseInt (pretty z) =
    if (- 2 ^ 63 <=? z) && (z <? 2 ^ 63) then (z, None)
    else (if 0 <=? z then 2 ^ 63 - 1 else - 2 ^ 63, Some ErrRange).
Proof.
  destruct z as [|p|p].
  - reflexivity.
  - change (pretty (Z.pos p)) with (pretty (N.pos p)).
    destruct (pretty_N_head (N.pos p)) as (c & r & d & Hs & Hc).
    pose proof (strconv_ParseUint_pretty_N (N.pos p)) as Hp. rewrite Hs in Hp.
    unfold strconv_ParseInt. rewrite Hs.
    destruct (digitValue_not_sign c d Hc) as [-> ->]. rewrite Hp.
    change (Z.of_N (N.pos p)) with (Z.pos p).
    destruct (Z.ltb_spec (Z.pos p) (2 ^ 64)) as [H64|H64]; cbv zeta.
    + destruct (Z.leb_spec (2 ^ 63) (Z.pos p)) as [H63|H63]; simpl.
      * destruct (Z.ltb_spec (Z.pos p) (2 ^ 63)); [lia|done].
      * destruct (Z.ltb_spec (Z.pos p) (2 ^ 63)); [|lia].
        by rewrite int64_small by lia.
    + unfold maxUint64. simpl.
      destruct (Z.ltb_spec (Z.pos p) (2 ^ 63)); [lia|done].
  - change (pretty (Z.neg p)) with (String "-" (pretty (N.pos p))).
    destruct (pretty_N_head (N.pos p)) as (c & r & d & Hs & Hc).
    pose proof (strconv_ParseUint_pretty_N (N.pos p)) as Hp.
    unfold strconv_ParseInt. simpl Ascii.eqb. cbv iota. rewrite Hp.
    change (Z.of_N (N.pos p)) with (Z.pos p).
    destruct (Z.ltb_spec (Z.pos p) (2 ^ 64)) as [H64|H64]; cbv zeta.
    + destruct (Z.ltb_spec (2 ^ 63) (Z.pos p)) as [H63|H63]; simpl.
      * destruct (Z.leb_spec (- 2 ^ 63) (Z.neg p)); [lia|done].
      * destruct (Z.leb_spec (- 2 ^ 63) (Z.neg p)); [|lia]. simpl.
        f_equal. change (Z.neg p) with (- Z.pos p).
        destruct (decide (Z.pos p = 2 ^ 63)) as [->|Hne]; [by vm_compute|].
        rewrite (int64_small (Z.pos p)) by lia. rewrite int64_small by lia. done.
    + unfold maxUint64. simpl.
      destruct (Z.leb_spec (- 2 ^ 63) (Z.neg p)); [lia|done].
Qed.

(** What the short cut reads stays below the power of ten of its length. *)
Lemma parseDigits_bound (s : string) (n v : Z) :
  0 <= n -> parseDigits s n = Some v ->
  0 <= v < (n + 1) * 10 ^ Z.of_nat (String.length s).
Proof.
  revert n. induction s as [|c s IH]; intros n Hn; simpl String.length.
  - intros [= <-]. change (10 ^ Z.of_nat 0) with 1. lia.
  - cbn [parseDigits]. destruct (digitValue c) as [d|] eqn:Hc; [|done].
    pose proof (digitValue_range c d Hc) as Hd. intros Hv.
    apply IH in Hv; [|lia].
    rewrite Nat2Z.inj_succ, Z.pow_succ_r by lia.
    assert (0 < 10 ^ Z.of_nat (String.length s)) by (apply Z.pow_pos_nonneg; lia).
    nia.
Qed.

(** As long as the value cannot leave the range of [uint64], the loop of
    [ParseUint] and the loop of the short cut read the same. *)
Lemma ParseUint_loop_short (s : string) (n : Z) :
  0 <= n -> (n + 1) * 10 ^ Z.of_nat (String.length s) <= 2 ^ 64 ->
  ParseUint_loop s n =
    match parseDigits s n with
    | Some v => (v, None)
    | None => (0, Some ErrSyntax)
    end.
Proof.
  revert n. induction s as [|c s IH]; intros n Hn; simpl String.length; [done|].
  rewrite Nat2Z.inj_succ, Z.pow_succ_r by lia. intros Hb.
  assert (0 < 10 ^ Z.of_nat (String.length s)) by (apply Z.pow_pos_nonneg; lia).
  destruct (digitValue c) as [d|] eqn:Hc.
  - pose proof (digitValue_range c d Hc) as Hd.
    rewrite (ParseUint_loop_digit c s n d Hc) by nia.
    cbn [parseDigits]. rewrite Hc.
    replace (10 * n + d) with (n * 10 + d) by lia.
    apply IH; nia.
  - cbn [ParseUint_loop parseDigits]. by rewrite Hc.
Qed.

Lemma pow10_le (k : nat) (m : Z) :
  Z.of_nat k <= m -> 10 ^ Z.of_nat k <= 10 ^ m.
Proof. intros. apply Z.pow_le_mono_r; lia. Qed.

(** The loop of [ParseUint] on at most 18 bytes. *)
Lemma ParseUint_loop_18 (s : string) :
  Z.of_nat (String.length s) <= 18 ->
  ParseUint_loop s 0 =
    match parseDigits s 0 with
    | Some v => (v, None)
    | None => (0, Some ErrSyntax)
    end /\
  forall v, parseDigits s 0 = Some v -> 0 <= v < 10 ^ 18.
Proof.
  intros Hl. pose proof (pow10_le _ _ Hl) as Hp. split.
  - apply ParseUint_loop_short; [done|].
    change (2 ^ 64) with 18446744073709551616.
    change (10 ^ 18) with 1000000000000000000 in Hp. lia.
  - intros v Hv. apply parseDigits_bound in Hv; lia.
Qed.

Lemma strconv_ParseUint_18 (s : string) :
  Z.of_nat (String.length s) <= 18 -> s <> "" ->
  strconv_ParseUint s =
    match parseDigits s 0 with
    | Some v => (v, None)
    | None => (0, Some ErrSyntax)
    end.
Proof.
  intros Hl Hne. unfold strconv_ParseUint.
  destruct (String.eqb_spec s "") as [?|_]; [done|].
  apply ParseUint_loop_18, Hl.
Qed.

Lemma length_positive (s : string) :
  1 <= Z.of_nat (String.length s) -> s <> "".
Proof. destruct s; simpl; [lia | done]. Qed.

(** The short cut of [Atoi] gives what [ParseInt] gives: [Atoi] is
    [ParseInt(s, 10, 0)] on every string. *)
Lemma strconv_Atoi_ParseInt (s : string) :
  strconv_Atoi s =
    (fst (strconv_ParseInt s), numError <$> snd (strconv_ParseInt s)).
Proof.
  unfold strconv_Atoi. cbv zeta.
  destruct (Z.ltb_spec 0 (Z.of_nat (String.length s))) as [H0|H0]; simpl andb;
    [|by destruct (strconv_ParseInt s)].
  destruct (Z.ltb_spec (Z.of_nat (String.length s)) 19) as [H19|H19];
    [|by destruct (strconv_ParseInt s)].
  destruct s as [|c r]; [simpl in H0; lia|].
  simpl String.length in H19. rewrite Nat2Z.inj_succ in H19.
  unfold strconv_ParseInt.
  assert (forall t v, Z.of_nat (String.length t) <= 18 -> parseDigits t 0 = Some v ->
            (2 ^ 63 <=? v) = false /\ (2 ^ 63 <? v) = false /\
            int64 v = v /\ int64 (- v) = - v) as Hsmall.
  { intros t v Ht Hv. apply (ParseUint_loop_18 t Ht) in Hv.
    change (10 ^ 18) with 1000000000000000000 in Hv.
    destruct (Z.leb_spec (2 ^ 63) v); [lia|].
    destruct (Z.ltb_spec (2 ^ 63) v); [lia|].
    rewrite (int64_small v) by lia. rewrite (int64_small (- v)) by lia. done. }
  destruct (Ascii.eqb_spec c "-"%char) as [->|Hm]; simpl orb.
  - simpl Ascii.eqb. cbv iota.
    destruct (Z.ltb_spec (Z.of_nat (String.length r)) 1) as [Hr|Hr]; simpl andb.
    + destruct r; [reflexivity | simpl in Hr; lia].
    + rewrite (strconv_ParseUint_18 r) by (first [lia | by apply length_positive]).
      destruct (parseDigits r 0) as [v|] eqn:Hv; [|done].
      destruct (Hsmall r v ltac:(lia) Hv) as (_ & -> & -> & ->). done.
  - destruct (Ascii.eqb_spec c "+"%char) as [->|Hp]; simpl orb.
    + destruct (Z.ltb_spec (Z.of_nat (String.length r)) 1) as [Hr|Hr]; simpl andb.
      * destruct r; [reflexivity | simpl in Hr; lia].
      * rewrite (strconv_ParseUint_18 r) by (first [lia | by apply length_positive]).
        destruct (parseDigits r 0) as [v|] eqn:Hv; [|done].
        destruct (Hsmall r v ltac:(lia) Hv) as (-> & _ & -> & _). done.
    + simpl andb.
      rewrite (strconv_ParseUint_18 (String c r)) by (first [simpl String.length; lia | done]).
      destruct (parseDigits (String c r) 0) as [v|] eqn:Hv; [|done].
      destruct (Hsmall (String c r) v ltac:(simpl String.length; lia) Hv)
        as (-> & _ & -> & _). done.
Qed.

(** A header that holds the decimal notation of an [int64] reports that
    number. *)
Lemma strconv_Atoi_pretty (z : Z) :
  - 2 ^ 63 <= z < 2 ^ 63 -> strconv_Atoi (pretty z) = (z, None).
Proof.
  intros Hz. rewrite strconv_Atoi_ParseInt, strconv_ParseInt_pretty.
  destruct (Z.leb_spec (- 2 ^ 63) z); [|lia].
  destruct (Z.ltb_spec z (2 ^ 63)); [|lia]. reflexivity.
Qed.

Lemma strconv_Atoi_pretty_large (z : Z) :
  2 ^ 63 <= z \/ z < - 2 ^ 63 ->
  exists msg, strconv_Atoi (pretty z) =
    (if 0 <=? z then 2 ^ 63 - 1 else - 2 ^ 63, Some (ErrOther msg)).
Proof.
  intros Hz. rewrite strconv_Atoi_ParseInt, strconv_ParseInt_pretty.
  destruct (Z.leb_spec (- 2 ^ 63) z); destruct (Z.ltb_spec z (2 ^ 63));
    try lia; by eexists.
Qed.

Lemma pretty_Z_nonempty (z : Z) : pretty z <> "".
Proof.
  destruct z as [|p|p]; [done| |done].
  change (pretty (Z.pos p)) with (pretty (N.pos p)).
  by destruct (pretty_N_head (N.pos p)) as (c & r & d & -> & _).
Qed.

Lemma reportedTraceCount_decimal (req : Request) (z : Z) :
  - 2 ^ 63 <= z < 2 ^ 63 ->
  Header req !! headerTraceCount = Some (pretty z) ->
  reportedTraceCount req = z.
Proof.
  intros Hz Hh. unfold reportedTraceCount, Header_Get. rewrite Hh. simpl.
  destruct (String.eqb_spec (pretty z) "") as [He|_].
  - by apply pretty_Z_nonempty in He.
  - by rewrite strconv_Atoi_pretty.
Qed.

(** The loop of [ParseUint] stops at a byte that is not a digit when the
    digits before it cannot take the value out of the range of [uint64]. *)
Lemma ParseUint_loop_not_digit (pre post : string) (c : ascii) (n : Z) :
  digitValue c = None ->
  0 <= n -> (n + 1) * 10 ^ Z.of_nat (String.length pre) <= 2 ^ 64 ->
  ParseUint_loop (pre +:+ String c post) n = (0, Some ErrSyntax).
Proof.
  intros Hc. revert n. induction pre as [|a pre IH]; intros n Hn.
  - intros _. rewrite sapp_nil_l. cbn [ParseUint_loop]. by rewrite Hc.
  - simpl String.length. rewrite Nat2Z.inj_succ, Z.pow_succ_r by lia. intros Hb.
    assert (0 < 10 ^ Z.of_nat (String.length pre)) by (apply Z.pow_pos_nonneg; lia).
    rewrite sapp_cons.
    destruct (digitValue a) as [d|] eqn:Ha.
    + pose proof (digitValue_range a d Ha) as Hd.
      rewrite (ParseUint_loop_digit a _ n d Ha) by nia.
      apply IH; nia.
    + cbn [ParseUint_loop]. by rewrite Ha.
Qed.

Lemma sapp_cons_nonempty (pre post : string) (c : ascii) :
  pre +:+ String c post <> "".
Proof. destruct pre; [by rewrite sapp_nil_l | by rewrite sapp_cons]. Qed.

Lemma strconv_ParseUint_not_digit (pre post : string) (c : ascii) :
  digitValue c = None -> Z.of_nat (String.length pre) <= 19 ->
  strconv_ParseUint (pre +:+ String c post) = (0, Some ErrSyntax).
Proof.
  intros Hc Hl. unfold strconv_ParseUint.
  destruct (String.eqb_spec (pre +:+ String c post) "") as [He|_];
    [by apply sapp_cons_nonempty in He|].
  apply ParseUint_loop_not_digit; [done | done |].
  pose proof (pow10_le _ _ Hl) as Hp.
  change (2 ^ 64) with 18446744073709551616.
  change (10 ^ 19) with 10000000000000000000 in Hp. lia.
Qed.

(** A byte that is not a digit among the first 20 bytes, a sign in front
    apart, is a syntax error. *)
Lemma strconv_Atoi_not_digit (pre post : string) (c : ascii) :
  digitValue c = None ->
  pre <> "" \/ (c <> "-"%char /\ c <> "+"%char) ->
  (String.length pre <= 19)%nat ->
  exists msg, strconv_Atoi (pre +:+ String c post) = (0, Some (ErrOther msg)).
Proof.
  intros Hc Hsign Hl. rewrite strconv_Atoi_ParseInt. unfold strconv_ParseInt.
  destruct pre as [|a pre].
  - destruct Hsign as [?|[Hm Hp]]; [done|].
    rewrite sapp_nil_l.
    apply Ascii.eqb_neq in Hm, Hp. rewrite Hm, Hp.
    pose proof (strconv_ParseUint_not_digit "" post c Hc) as Hu.
    rewrite sapp_nil_l in Hu. rewrite Hu by (simpl; lia).
    by eexists.
  - rewrite sapp_cons. simpl String.length in Hl.
    destruct (Ascii.eqb a "+"); [|destruct (Ascii.eqb a "-")].
    + rewrite strconv_ParseUint_not_digit by (first [done | lia]). by eexists.
    + rewrite strconv_ParseUint_not_digit by (first [done | lia]). by eexists.
    + rewrite <- sapp_cons.
      rewrite strconv_ParseUint_not_digit by (first [done | simpl String.length; lia]).
      by eexists.
Qed.

Section PipelineProofs.

Context {C : Collaborators}.

(** * Running the statements *)

Lemma newCalls_app (w w' : World) (cs : list Call) :
  calls w' = calls w ++ cs -> newCalls w w' = cs.
Proof. unfold newCalls. intros ->. by rewrite drop_app_length. Qed.

(** What a call of [Add] does to the state. *)
Lemma Add_run (name : SamplerName) (pt : ProcessedTrace) (w : World) :
  let r := Sampler_Add name pt (ext w, heap w) in
  Add name pt w =
    (Done (fst r),
     setCalls (calls w ++ [CallSamplerAdd name pt (fst (fst r)) (snd (fst r))])
       (setExt (fst (snd r)) (setHeap (snd (snd r)) w))).
Proof.
  unfold Add, bind, method, call, modify, ret. simpl.
  destruct (Sampler_Add name pt (ext w, heap w)) as [[k r] [e h]]. reflexivity.
Qed.

(** C9.  [Process] on the empty trace returns at once: it only logs one
    debug line.  No counter moves, no sampler or other collaborator is
    called, nothing is sent on the sampled-spans channel nor to the
    concentrator, and the deferred timing is not even registered. *)
Theorem Process_empty_trace (w : World) :
  exists w', Process [] w = (Done tt, w') /\
    receiverStats w' = receiverStats w /\
    spansOut w' = spansOut w /\
    concentratorIn w' = concentratorIn w /\
    receiverOut w' = receiverOut w /\
    heap w' = heap w /\ ext w' = ext w /\
    calls w' = calls w ++ [CallLog Debug "Skipping received empty trace"].
Proof. eexists. split; [reflexivity|]. by repeat split. Qed.

Lemma traceContainsError_true (h : pb.Heap) (t : pb.Trace) :
  traceContainsError h t = true <-> hasErrorSpan h t.
Proof.
  unfold hasErrorSpan. induction t as [|span t IH]; simpl.
  - split; [done | intros (? & []%elem_of_nil & _)].
  - destruct (Z.eqb_spec (pb.Error (pb.deref h span)) 0) as [He|He]; simpl.
    + rewrite IH. split.
      * intros (s & Hin & Hs). exists s. split; [by right | done].
      * intros (s & [->|Hin]%elem_of_cons & Hs); [done | by exists s].
    + split; [intros _ | done]. exists span. split; [by left | done].
Qed.

(** The score sampler [runSamplers] turns to for the spans in [h]: the
    errors sampler when a span has an error, the score sampler when none
    has. *)
Lemma scoreSampler_choice (h : pb.Heap) (t : pb.Trace) :
  let name := if traceContainsError h t then ErrorsScoreSampler else ScoreSampler in
  name = ErrorsScoreSampler /\ hasErrorSpan h t \/
  name = ScoreSampler /\ ~ hasErrorSpan h t.
Proof.
  cbv zeta. rewrite <- traceContainsError_true.
  destruct (traceContainsError h t); [left | right]; split; congruence.
Qed.

(** C1.  [runSamplers] always returns.  When the root of the trace carries
    a priority, it asks the priority sampler and then, in the state the
    priority sampler has left, one of the two score samplers (the errors
    sampler when a span has an error, the score sampler when none has); it
    keeps the trace when either of the two answers keeps it, and returns
    [a + b - a*b] for the rates [a] and [b] of the two answers.  When the
    root carries no priority it asks one score sampler only, returns the
    decision of its answer, and returns [0 + b - 0*b] for the rate [b] of
    its answer, which is [b] for every finite [b].  The decisions and the
    rates are the ones [Sampler.Add] returns, and the samplers are left in
    the state of the last answer.  No run consults no sampler, so the case
    for which the spec gives the rate 1.0 does not arise. *)
Theorem runSamplers_combines (pt : ProcessedTrace) (w : World) :
  exists sampled rate w', runSamplers pt w = (Done (sampled, rate), w') /\
    ((hasExplicitPriority (heap w) pt /\
      exists sampledPriority ratePriority e1 h1 name sampledScore rateScore,
        Sampler_Add PrioritySampler pt (ext w, heap w) =
          ((sampledPriority, ratePriority), (e1, h1)) /\
        Sampler_Add name pt (e1, h1) =
          ((sampledScore, rateScore), (ext w', heap w')) /\
        calls w' = calls w ++
          [CallSamplerAdd PrioritySampler pt sampledPriority ratePriority;
           CallSamplerAdd name pt sampledScore rateScore] /\
        (name = ErrorsScoreSampler /\ hasErrorSpan h1 (pt_Trace pt) \/
         name = ScoreSampler /\ ~ hasErrorSpan h1 (pt_Trace pt)) /\
        sampled = sampledPriority || sampledScore /\
        rate = (ratePriority + rateScore - ratePriority * rateScore)%float)
     \/
     (~ hasExplicitPriority (heap w) pt /\
      exists name sampledScore rateScore,
        Sampler_Add name pt (ext w, heap w) =
          ((sampledScore, rateScore), (ext w', heap w')) /\
        calls w' = calls w ++ [CallSamplerAdd name pt sampledScore rateScore] /\
        (name = ErrorsScoreSampler /\ hasErrorSpan (heap w) (pt_Trace pt) \/
         name = ScoreSampler /\ ~ hasErrorSpan (heap w) (pt_Trace pt)) /\
        sampled = sampledScore /\
        rate = (0 + rateScore - 0 * rateScore)%float /\
        (is_finite rateScore = true -> (rate =? rateScore)%float = true))).
Proof.
  unfold runSamplers, pt_GetSamplingPriority, bind, gets, ret, hasExplicitPriority.
  unfold sampler_GetSamplingPriority, getMetric.
  destruct (pb.Metrics _ !! KeySamplingPriority) as [priority|] eqn:Hp; simpl.
  - rewrite Add_run.
    destruct (Sampler_Add PrioritySampler pt _) as [[kp rp] [e1 h1]] eqn:E1; simpl.
    pose proof (scoreSampler_choice h1 (pt_Trace pt)) as Hname. cbv zeta in Hname.
    destruct (traceContainsError h1 (pt_Trace pt)); rewrite Add_run; simpl;
      destruct (Sampler_Add _ pt (e1, h1)) as [[ks rs] [e2 h2]] eqn:E2; simpl;
      do 3 eexists; (split; [reflexivity|]); left; (split; [by eexists|]);
      exists kp, rp, e1, h1; eexists; exists ks, rs; simpl;
      (split; [reflexivity|]); (split; [exact E2|]);
      rewrite <- app_assoc; (split; [reflexivity|]);
      (split; [exact Hname|]); (split; [apply orb_comm | reflexivity]).
  - pose proof (scoreSampler_choice (heap w) (pt_Trace pt)) as Hname. cbv zeta in Hname.
    destruct (traceContainsError (heap w) (pt_Trace pt)); rewrite Add_run; simpl;
      destruct (Sampler_Add _ pt (ext w, heap w)) as [[ks rs] [e2 h2]] eqn:E2; simpl;
      do 3 eexists; (split; [reflexivity|]); right;
      (split; [by intros ?%is_Some_None|]);
      eexists; exists ks, rs; simpl;
      (split; [exact E2|]); (split; [reflexivity|]); (split; [exact Hname|]);
      (split; [apply orb_false_r|]); (split; [reflexivity|]).
    all: apply CombineRates_zero_l.
Qed.

(** * Which sampler is consulted *)

Lemma consulted_singleton name name' pt pt' k r :
  consulted name pt [CallSamplerAdd name' pt' k r] <-> name = name' /\ pt = pt'.
Proof.
  unfold consulted. split.
  - intros (k' & r' & H%list_elem_of_singleton). by injection H.
  - intros [-> ->]. exists k, r. by apply list_elem_of_singleton.
Qed.

Lemma consulted_pair name n1 n2 pt k1 r1 k2 r2 :
  consulted name pt [CallSamplerAdd n1 pt k1 r1; CallSamplerAdd n2 pt k2 r2]
  <-> name = n1 \/ name = n2.
Proof.
  unfold consulted. split.
  - intros (k' & r' & [H|H%list_elem_of_singleton]%elem_of_cons);
      injection H; auto.
  - intros [->| ->]; [exists k1, r1 | exists k2, r2]; set_solver.
Qed.

(** C2.  Of the calls [runSamplers] makes: the priority sampler is consulted
    exactly when the root carries an explicit sampling priority; the
    errors sampler exactly when a span of the trace has [error != 0]; the
    score sampler exactly when none has.  The spans are tested for errors
    after the priority sampler has returned. *)
Theorem runSamplers_consults (pt : ProcessedTrace) (w : World) :
  let cs := newCalls w (snd (runSamplers pt w)) in
  (consulted PrioritySampler pt cs <-> hasExplicitPriority (heap w) pt) /\
  (consulted ErrorsScoreSampler pt cs <->
     hasErrorSpan (heapAtErrorTest pt w) (pt_Trace pt)) /\
  (consulted ScoreSampler pt cs <->
     ~ hasErrorSpan (heapAtErrorTest pt w) (pt_Trace pt)).
Proof.
  cbv zeta. unfold heapAtErrorTest, hasExplicitPriority.
  unfold runSamplers, pt_GetSamplingPriority, bind, gets, ret.
  unfold sampler_GetSamplingPriority, getMetric.
  destruct (pb.Metrics _ !! KeySamplingPriority) as [priority|] eqn:Hp; simpl.
  - rewrite Add_run.
    destruct (Sampler_Add PrioritySampler pt _) as [[kp rp] [e1 h1]]; simpl.
    rewrite <- traceContainsError_true.
    destruct (traceContainsError h1 (pt_Trace pt)); rewrite Add_run;
      destruct (Sampler_Add _ pt _) as [[ks rs] [e2 h2]]; simpl;
      (erewrite newCalls_app; [|simpl; rewrite <- app_assoc; reflexivity]);
      simpl app; rewrite !consulted_pair;
      intuition (eauto; discriminate || congruence).
  - rewrite <- traceContainsError_true.
    destruct (traceContainsError (heap w) (pt_Trace pt)); rewrite Add_run;
      destruct (Sampler_Add _ pt _) as [[ks rs] [e2 h2]]; simpl;
      (erewrite newCalls_app; [|simpl; reflexivity]);
      rewrite !consulted_singleton;
      intuition (eauto; try discriminate; try congruence).
    all: match goal with H : is_Some None |- _ => by apply is_Some_None in H end.
Qed.


(** * The sampling stage *)

Lemma Sampler_Add_keeps name pt e h r e' h' :
  GlobalRateIsProcessOwned ->
  Sampler_Add name pt (e, h) = (r, (e', h')) ->
  forall p, globalRateOf h' p = globalRateOf h p.
Proof.
  intros (_ & _ & _ & _ & _ & _ & _ & HS & _) E p.
  specialize (HS name pt e h p). cbv beta in HS. by rewrite E in HS.
Qed.

Lemma EventProcessor_keeps root t e h r e' h' :
  GlobalRateIsProcessOwned ->
  EventProcessor_Process root t (e, h) = (r, (e', h')) ->
  forall p, globalRateOf h' p = globalRateOf h p.
Proof.
  intros (_ & _ & _ & _ & _ & _ & _ & _ & HE) E p.
  specialize (HE root t e h p). cbv beta in HE. by rewrite E in HE.
Qed.

(** [runSamplers] only touches the collaborators' state, the spans and the
    record of calls. *)
Lemma runSamplers_run (pt : ProcessedTrace) (w : World) :
  exists sampled rate e h cs,
    runSamplers pt w =
      (Done (sampled, rate), setCalls (calls w ++ cs) (setExt e (setHeap h w))) /\
    samplersInvoked cs /\
    (GlobalRateIsProcessOwned -> forall p, globalRateOf h p = globalRateOf (heap w) p).
Proof.
  destruct w as [h0 e0 cf rl st out so ci gs cs0].
  unfold runSamplers, pt_GetSamplingPriority, bind, gets, ret.
  destruct (sampler_GetSamplingPriority _) as [priority [|]]; simpl.
  - rewrite Add_run. simpl.
    destruct (Sampler_Add PrioritySampler pt (e0, h0)) as [[kp rp] [e1 h1]] eqn:E1; simpl.
    destruct (traceContainsError h1 (pt_Trace pt)); rewrite Add_run; simpl;
      destruct (Sampler_Add _ pt (e1, h1)) as [[ks rs] [e2 h2]] eqn:E2; simpl;
      do 5 eexists; (split; [rewrite <- app_assoc; reflexivity|]);
      (split; [do 4 eexists; by left|]);
      intros HG p;
      rewrite (Sampler_Add_keeps _ _ _ _ _ _ _ HG E2 p);
      apply (Sampler_Add_keeps _ _ _ _ _ _ _ HG E1 p).
  - destruct (traceContainsError h0 (pt_Trace pt)); rewrite Add_run; simpl;
      destruct (Sampler_Add _ pt (e0, h0)) as [[ks rs] [e2 h2]] eqn:E2; simpl;
      do 5 eexists; (split; [reflexivity|]);
      (split; [do 4 eexists; by left|]);
      intros HG p; apply (Sampler_Add_keeps _ _ _ _ _ _ _ HG E2 p).
Qed.

Lemma Empty_true (ss : writer.SampledSpans) :
  writer.Empty ss = true <-> writer.Trace ss = [] /\ writer.Events ss = [].
Proof.
  unfold writer.Empty. destruct ss as [[|s t] [|e es]]; simpl; intuition congruence.
Qed.

(** C8.  [sample] sends the sampled output, the kept spans and the
    extracted events, exactly when one of the two is not empty; when the
    samplers do not keep the trace and no event is extracted, nothing is
    sent. *)
Theorem sample_sends_nonempty (ts : info.Tags) (pt : ProcessedTrace) (w : World) :
  exists sampled rate w1 events numExtracted w',
    runSamplers pt w = (Done (sampled, rate), w1) /\
    fst (EventProcessor_Process (pt_Root pt) (pt_Trace pt)
           (ext w1,
            if sampled then sampler_AddGlobalRate (pt_Root pt) rate (heap w1)
            else heap w1)) = (events, numExtracted) /\
    sample ts pt w = (Done tt, w') /\
    let ss := writer.mkSampledSpans (if sampled then pt_Trace pt else []) events in
    (writer.Trace ss <> [] \/ writer.Events ss <> [] ->
       spansOut w' = spansOut w ++ [ss]) /\
    (writer.Trace ss = [] /\ writer.Events ss = [] -> spansOut w' = spansOut w) /\
    (sampled = false -> events = [] -> spansOut w' = spansOut w).
Proof.
  destruct (runSamplers_run pt w) as (sampled & rate & e & h & cs & Hrun & _).
  destruct w as [h0 e0 cf rl st out so ci gs cs0].
  exists sampled, rate. eexists.
  destruct (EventProcessor_Process (pt_Root pt) (pt_Trace pt)
              (e, if sampled then sampler_AddGlobalRate (pt_Root pt) rate h else h))
    as [[events n] [e' h']] eqn:EP.
  exists events, n.
  set (ss := writer.mkSampledSpans (if sampled then pt_Trace pt else []) events).
  pose proof (Empty_true ss) as HE.
  assert (exists w', sample ts pt (mkWorld h0 e0 cf rl st out so ci gs cs0) = (Done tt, w')
            /\ spansOut w' = if writer.Empty ss then so else so ++ [ss]) as (w' & Hs & Hout).
  { unfold sample, bind. rewrite Hrun.
    unfold onHeap, modify, call, method, ret, atomic_AddInt64, modify, send_spansOut.
    subst ss. destruct sampled; simpl in *; rewrite EP; simpl;
      match goal with |- context [writer.Empty ?x] => destruct (writer.Empty x) end;
      simpl; eexists; split; reflexivity. }
  exists w'. split; [exact Hrun|]. split; [simpl; by rewrite EP|].
  split; [exact Hs|]. cbv zeta. fold ss. simpl spansOut at 2 4 6. rewrite Hout.
  destruct (writer.Empty ss).
  - destruct HE as [[Ht He] _]; [done|]. split; [|done].
    intros [?|?]; congruence.
  - split; [done|]. 
    assert (~ (writer.Trace ss = [] /\ writer.Events ss = [])) as Hn.
    { intros H%HE. discriminate. }
    split; [tauto|]. intros -> ->. exfalso. by apply Hn.
Qed.

(** * The spans' store and the global rate *)

Lemma deref_store_eq (p : pb.addr) (s : pb.Span) (h : pb.Heap) :
  pb.deref (pb.store p s h) p = s.
Proof. unfold pb.deref, pb.store. simpl. by rewrite lookup_insert_eq. Qed.

Lemma deref_store_ne (p q : pb.addr) (s : pb.Span) (h : pb.Heap) :
  p <> q -> pb.deref (pb.store p s h) q = pb.deref h q.
Proof. intros. unfold pb.deref, pb.store. simpl. by rewrite lookup_insert_ne. Qed.

Lemma GetGlobalRate_globalRateOf (h : pb.Heap) (p : pb.addr) :
  sampler_GetGlobalRate (pb.deref h p) = default 1%float (globalRateOf h p).
Proof.
  unfold sampler_GetGlobalRate, getMetric, globalRateOf.
  by destruct (pb.Metrics _ !! _).
Qed.

Lemma globalRateOf_setMetric_ne (key : string) (v : float) (p q : pb.addr) (h : pb.Heap) :
  key <> KeySamplingRateGlobal ->
  globalRateOf (pb.store p (setMetric key v (pb.deref h p)) h) q = globalRateOf h q.
Proof.
  intros Hk. unfold globalRateOf. destruct (decide (p = q)) as [->|Hpq].
  - rewrite deref_store_eq. simpl. by rewrite lookup_insert_ne.
  - by rewrite deref_store_ne.
Qed.

Lemma globalRateOf_SetClientRate (v : float) (p q : pb.addr) (h : pb.Heap) :
  KeySamplingRateClient <> KeySamplingRateGlobal ->
  globalRateOf (sampler_SetClientRate p v h) q = globalRateOf h q.
Proof. apply globalRateOf_setMetric_ne. Qed.

Lemma globalRateOf_SetPreSampleRate (v : float) (p q : pb.addr) (h : pb.Heap) :
  KeySamplingRatePreSampler <> KeySamplingRateGlobal ->
  globalRateOf (sampler_SetPreSampleRate p v h) q = globalRateOf h q.
Proof. apply globalRateOf_setMetric_ne. Qed.

Lemma globalRateOf_AddGlobalRate (rate : float) (p q : pb.addr) (h : pb.Heap) :
  globalRateOf (sampler_AddGlobalRate p rate h) q =
    if decide (q = p)
    then Some (sampler_GetGlobalRate (pb.deref h p) * rate)%float
    else globalRateOf h q.
Proof.
  unfold sampler_AddGlobalRate, globalRateOf. destruct (decide (q = p)) as [->|Hpq].
  - rewrite deref_store_eq. simpl. by rewrite lookup_insert_eq.
  - by rewrite deref_store_ne.
Qed.

(** * [Process] up to the sampling stage *)

Lemma spansOnly_onHeap (f : pb.Heap -> pb.Heap) :
  (GlobalRateIsProcessOwned -> keepsGlobalRate f) -> spansOnly (onHeap f).
Proof.
  intros Hf [h0 e0 cf rl st out so ci gs cs0]. exists tt, (f h0).
  split; [reflexivity|]. intros HG p. by apply Hf.
Qed.

Lemma spansOnly_bind {A B} (m : M A) (k : A -> M B) :
  spansOnly m -> (forall a, spansOnly (k a)) -> spansOnly (bind m k).
Proof.
  intros Hm Hk w. destruct (Hm w) as (a & h & Em & Hh).
  destruct (Hk a (setHeap h w)) as (b & h' & Ek & Hh').
  exists b, h'. unfold bind. rewrite Em, Ek.
  split; [by destruct w|]. intros HG p.
  rewrite (Hh' HG p). destruct w. by apply Hh.
Qed.

Lemma spansOnly_ret {A} (a : A) : spansOnly (ret a).
Proof. intros w. exists a, (heap w). split; [by destruct w | done]. Qed.

Lemma spansOnly_forRange {A} (l : list A) (body : A -> M unit) :
  (forall x, spansOnly (body x)) -> spansOnly (forRange l body).
Proof.
  intros Hb. induction l as [|x l IH]; simpl.
  - apply spansOnly_ret.
  - apply spansOnly_bind; [apply Hb | intros _; apply IH].
Qed.

Lemma spansOnly_sublayersLoop subtraces sublayers :
  spansOnly (sublayersLoop subtraces sublayers).
Proof.
  revert sublayers. induction subtraces as [|st l IH]; intros sublayers; simpl.
  - apply spansOnly_ret.
  - intros w. unfold bind at 1. unfold gets.
    apply spansOnly_bind.
    + apply spansOnly_onHeap. intros HG. apply HG.
    + intros _. apply IH.
Qed.

(** [prepare] hands the trace and its root on to the sampling stage, and
    leaves on the root the client rate times the pre-sample rate. *)
Lemma prepare_run (t : pb.Trace) (root : pb.addr) (w : World) :
  exists pt h, prepare t root w = (Done pt, setHeap h w) /\
    pt_Trace pt = t /\ pt_Root pt = root /\
    (GlobalRateIsProcessOwned ->
       globalRateOf h root =
         Some (sampler_GetGlobalRate (pb.deref (heap w) root)
               * RateLimiter_RealRate (ext w))%float).
Proof.
  unfold prepare.
  unfold bind at 1.
  destruct (spansOnly_forRange t
              (fun span => bind (onHeap (Obfuscate span)) (fun _ => onHeap (Truncate span)))
              (fun span => spansOnly_bind _ _
                 (spansOnly_onHeap _ (fun HG => proj1 (proj2 (proj2 HG)) span))
                 (fun _ => spansOnly_onHeap _
                    (fun HG => proj1 (proj2 (proj2 (proj2 HG))) span))) w)
    as ([] & h1 & -> & H1).
  destruct w as [h0 e0 cf rl st out so ci gs cs0]. simpl in H1.
  unfold bind at 1, onHeap at 1, modify at 1. simpl.
  unfold bind at 1, gets at 1. simpl.
  unfold bind at 1, onHeap at 1, modify at 1. simpl.
  unfold bind at 1, gets at 1. simpl.
  unfold bind at 1, onHeap at 1, modify at 1. simpl.
  unfold bind at 1, onHeap at 1, modify at 1. simpl.
  unfold bind at 1, onHeap at 1, modify at 1. simpl.
  unfold bind at 1, gets at 1. simpl.
  unfold bind at 1.
  match goal with |- context [sublayersLoop ?l ?m ?w] =>
    destruct (spansOnly_sublayersLoop l m w) as (sub & h2 & -> & H2) end.
  simpl in *. unfold bind, gets, ret. simpl.
  do 2 eexists. split; [reflexivity|]. split; [done|]. split; [done|].
  intros HG. rewrite (H2 HG).
  pose proof HG as (Hkc & Hkp & _ & _ & HR & HT & _).
  rewrite HT, globalRateOf_AddGlobalRate, decide_True by done.
  rewrite !GetGlobalRate_globalRateOf.
  rewrite globalRateOf_SetPreSampleRate, globalRateOf_SetClientRate by done.
  by rewrite HR, (H1 HG).
Qed.

(** What [sample] does to the record of calls, to the concentrator's
    channel and to the global rate of the root. *)
Lemma sample_run (ts : info.Tags) (pt : ProcessedTrace) (w : World) :
  exists sampled rate w1 w' cs,
    runSamplers pt w = (Done (sampled, rate), w1) /\
    sample ts pt w = (Done tt, w') /\
    concentratorIn w' = concentratorIn w /\
    calls w' = calls w ++ cs /\ samplersInvoked cs /\ eventsExtracted cs /\
    (GlobalRateIsProcessOwned ->
       globalRateOf (heap w') (pt_Root pt) =
         if sampled
         then Some (sampler_GetGlobalRate (pb.deref (heap w) (pt_Root pt)) * rate)%float
         else globalRateOf (heap w) (pt_Root pt)).
Proof.
  destruct (runSamplers_run pt w) as (sampled & rate & e & h & cs & Hrun & Hinv & Hh).
  destruct w as [h0 e0 cf rl st out so ci gs cs0].
  exists sampled, rate. eexists.
  destruct (EventProcessor_Process (pt_Root pt) (pt_Trace pt)
              (e, if sampled then sampler_AddGlobalRate (pt_Root pt) rate h else h))
    as [[events n] [e' h']] eqn:EP.
  assert (eventsExtracted (cs ++ [CallEventProcess (pt_Root pt) (pt_Trace pt)])) as Hev.
  { do 2 eexists. apply elem_of_app. right. by left. }
  assert (samplersInvoked (cs ++ [CallEventProcess (pt_Root pt) (pt_Trace pt)])) as Hinv'.
  { destruct Hinv as (name & pt' & k & r & Hin). exists name, pt', k, r.
    apply elem_of_app. by left. }
  unfold sample, bind. rewrite Hrun.
  unfold onHeap, modify, call, method, ret, atomic_AddInt64, modify, send_spansOut.
  simpl in Hh.
  destruct sampled; simpl in *; rewrite EP; simpl;
    match goal with |- context [writer.Empty ?x] => destruct (writer.Empty x) end;
    simpl; do 2 eexists; (split; [reflexivity|]); (split; [reflexivity|]);
    (split; [reflexivity|]); simpl; rewrite <- app_assoc;
    (split; [reflexivity|]); (split; [exact Hinv'|]); (split; [exact Hev|]);
    intros HG; rewrite (EventProcessor_keeps _ _ _ _ _ _ _ HG EP);
    rewrite ?globalRateOf_AddGlobalRate, ?decide_True by done;
    rewrite ?GetGlobalRate_globalRateOf; by rewrite (Hh HG).
Qed.

Lemma not_invoked_timing (name : string) :
  ~ samplersInvoked [CallTimingSince name] /\ ~ eventsExtracted [CallTimingSince name].
Proof.
  split.
  - intros (? & ? & ? & ? & H%list_elem_of_singleton). discriminate.
  - intros (? & ? & H%list_elem_of_singleton). discriminate.
Qed.

Lemma invoked_app_timing (cs : list Call) (name : string) :
  (samplersInvoked cs -> samplersInvoked (cs ++ [CallTimingSince name])) /\
  (eventsExtracted cs -> eventsExtracted (cs ++ [CallTimingSince name])).
Proof.
  split.
  - intros (a & b & c & d & H). exists a, b, c, d. apply elem_of_app. by left.
  - intros (a & b & H). exists a, b. apply elem_of_app. by left.
Qed.

Lemma length_nonzero {A} (t : list A) : t <> [] -> (Z.of_nat (length t) =? 0) = false.
Proof. destruct t; [done|]. intros _. apply Z.eqb_neq. simpl length. lia. Qed.

(** A priority that was not set reads as 0, which is not negative. *)
Lemma missing_priority_nonneg (s : pb.Span) :
  snd (sampler_GetSamplingPriority s) = false ->
  (0 <=? fst (sampler_GetSamplingPriority s))%float = true.
Proof.
  unfold sampler_GetSamplingPriority, getMetric.
  by destruct (pb.Metrics s !! KeySamplingPriority).
Qed.

(** C6, as the code has it.  For a non-empty trace that the blacklister
    lets through: the samplers and the event processor are called exactly
    when the priority read up front is [>= 0] or was not set; and whatever
    the priority, negative too, the trace is sent to the concentrator. *)
Theorem Process_sampling_gate (t : pb.Trace) (w : World) :
  t <> [] ->
  Blacklister_Allows (heap w) (GetRoot (heap w) t) = true ->
  let p := sampler_GetSamplingPriority (pb.deref (heap w) (GetRoot (heap w) t)) in
  exists w', Process t w = (Done tt, w') /\
    (samplersInvoked (newCalls w w') <-> (0 <=? fst p)%float = true \/ snd p = false) /\
    (eventsExtracted (newCalls w w') <-> (0 <=? fst p)%float = true \/ snd p = false) /\
    (exists input, concentratorIn w' = concentratorIn w ++ [input]).
Proof.
  intros Ht Hallow. cbv zeta.
  pose proof (missing_priority_nonneg (pb.deref (heap w) (GetRoot (heap w) t))) as Hmiss.
  unfold Process. rewrite (length_nonzero t Ht).
  destruct w as [h0 e0 cf rl st out so ci gs cs0]. simpl in *.
  unfold bind at 1, gets at 1. simpl.
  unfold bind at 1, gets at 1. simpl.
  destruct (sampler_GetSamplingPriority _) as [priority hasPriority]. simpl in Hmiss.
  unfold bind at 1, atomic_AddInt64 at 1, modify at 1. simpl.
  unfold bind at 1, gets at 1. simpl. rewrite Hallow. simpl.
  unfold bind at 1. unfold bind at 1.
  match goal with |- context [prepare t ?r ?W] =>
    destruct (prepare_run t r W) as (pt & h & -> & Hpt & Hroot & _) end.
  simpl. unfold bind at 1.
  destruct (0 <=? priority)%float eqn:Hprio.
  - match goal with |- context [sample ?ts pt ?W] =>
      destruct (sample_run ts pt W)
        as (sampled & rate & w1 & w' & cs & _ & -> & Hci & Hcs & Hinv & Hev & _) end.
    destruct w' as [h' e' cf' rl' st' out' so' ci' gs' cs']. simpl in *. subst.
    unfold send_concentratorIn, call, modify. simpl.
    eexists. split; [reflexivity|].
    erewrite newCalls_app; [|simpl; rewrite <- app_assoc; reflexivity].
    split; [|split; [|by eexists]].
    + split; [auto|]. intros _. by apply invoked_app_timing.
    + split; [auto|]. intros _. by apply invoked_app_timing.
  - unfold ret, send_concentratorIn, call, modify. simpl.
    eexists. split; [reflexivity|].
    erewrite newCalls_app; [|simpl; reflexivity].
    split; [|split; [|by eexists]].
    + split; [by intros ?%not_invoked_timing|].
      intros [?| ->]; [done|]. specialize (Hmiss eq_refl). congruence.
    + split; [by intros ?%not_invoked_timing|].
      intros [?| ->]; [done|]. specialize (Hmiss eq_refl). congruence.
Qed.

(** C3, as the code has it.  Let no collaborator write the [_sample_rate]
    metric.  For a non-empty trace that the blacklister lets through and
    whose priority is not negative, so that it goes through the sampling
    stage: when [Process] returns, the global rate of the root is the client
    rate times the pre-sample rate times the rate of the samplers if the
    samplers kept the trace, and the client rate times the pre-sample rate
    if they did not. *)
Theorem Process_global_rate (t : pb.Trace) (w : World) :
  GlobalRateIsProcessOwned ->
  t <> [] ->
  Blacklister_Allows (heap w) (GetRoot (heap w) t) = true ->
  (0 <=? fst (sampler_GetSamplingPriority
                (pb.deref (heap w) (GetRoot (heap w) t))))%float = true ->
  let root := GetRoot (heap w) t in
  let clientRate := sampler_GetGlobalRate (pb.deref (heap w) root) in
  let preSampleRate := RateLimiter_RealRate (ext w) in
  exists pt wi sampled rate ws w',
    prepare t root (countedPriority t w) = (Done pt, wi) /\
    runSamplers pt wi = (Done (sampled, rate), ws) /\
    Process t w = (Done tt, w') /\
    globalRateOf (heap w') root =
      Some (if sampled then (clientRate * preSampleRate * rate)%float
            else (clientRate * preSampleRate)%float).
Proof.
  intros HG Ht Hallow Hprio. cbv zeta.
  unfold Process, countedPriority. rewrite (length_nonzero t Ht).
  destruct w as [h0 e0 cf rl st out so ci gs cs0]. simpl in *.
  unfold bind at 1, gets at 1. simpl.
  unfold bind at 1, gets at 1. simpl.
  destruct (sampler_GetSamplingPriority _) as [priority hasPriority]. simpl in Hprio.
  unfold bind at 1, atomic_AddInt64 at 1, modify at 1. simpl.
  unfold bind at 1, gets at 1. simpl. rewrite Hallow. simpl.
  unfold bind at 1. unfold bind at 1.
  match goal with |- context [prepare t ?r ?W] =>
    destruct (prepare_run t r W) as (pt & h & Hprep & Hpt & Hroot & Hrate) end.
  rewrite Hprep. specialize (Hrate HG). simpl in Hrate.
  simpl. unfold bind at 1. rewrite Hprio.
  match goal with |- context [sample ?ts pt ?W] =>
    destruct (sample_run ts pt W)
      as (sampled & rate & w1 & w' & cs & Hrun & Hsample & _ & _ & _ & _ & Hfin) end.
  rewrite Hsample. specialize (Hfin HG). rewrite Hroot in Hfin. simpl in Hfin.
  destruct w' as [h' e' cf' rl' st' out' so' ci' gs' cs']. simpl in *.
  unfold send_concentratorIn, call, modify. simpl.
  exists pt. eexists. exists sampled, rate, w1. eexists.
  split; [reflexivity|]. split; [exact Hrun|]. split; [reflexivity|]. simpl.
  rewrite Hfin, GetGlobalRate_globalRateOf, Hrate. by destruct sampled.
Qed.


(** * The receiver *)

Lemma traceCount_run (req : Request) (st : World) :
  exists cs, traceCount req st =
    (Done (reportedTraceCount req), setCalls (calls st ++ cs) st).
Proof.
  destruct st as [h0 e0 cf rl rs out so ci gs cs0].
  unfold traceCount, reportedTraceCount.
  destruct (String.eqb _ ""); [exists []; unfold ret; simpl; by rewrite app_nil_r|].
  destruct (strconv_Atoi _) as [n [err|]]; unfold bind, call, modify, ret; simpl.
  - by eexists.
  - exists []. by rewrite app_nil_r.
Qed.

(** Decoding does not count, send or start anything. *)
Lemma getMediaType_run (req : Request) (st : World) :
  exists mt cs, getMediaType req st = (Done mt, setCalls (calls st ++ cs) st).
Proof.
  destruct st as [h0 e0 cf rl rs out so ci gs cs0].
  unfold getMediaType. destruct (mime_ParseMediaType _);
    unfold bind, call, modify, ret; simpl.
  - by do 2 eexists.
  - eexists; exists []. by rewrite app_nil_r.
Qed.

Lemma decodeRequest_run (req : Request) (st : World) :
  exists d cs, decodeRequest req st = (Done d, setCalls (calls st ++ cs) st).
Proof.
  unfold decodeRequest, bind.
  destruct (getMediaType_run req st) as (mt & cs & ->).
  repeat match goal with
         | |- context [if ?b then _ else _] => destruct b
         | |- context [match ?d with inl _ => _ | inr _ => _ end] => destruct d
         end; unfold ret; by do 2 eexists.
Qed.

Lemma decodeTraces_run (v : Version) (req : Request) (st : World) :
  exists d h cs, decodeTraces v req st =
    (Done d, setCalls (calls st ++ cs) (setHeap h st)).
Proof.
  destruct st as [h0 e0 cf rl rs out so ci gs cs0].
  unfold decodeTraces. destruct (decide (v = v01)).
  - destruct (Result (json_Decode_spans _)).
    + unfold ret. eexists; exists h0, []. simpl. by rewrite app_nil_r.
    + unfold bind, ret. simpl. destruct (tracesFromSpans _ _) as [traces h].
      eexists; exists h, []. simpl. by rewrite app_nil_r.
  - unfold bind.
    destruct (decodeRequest_run req (mkWorld h0 e0 cf rl rs out so ci gs cs0))
      as (d & cs & ->).
    destruct (Result d).
    + unfold ret. by eexists; exists h0, cs.
    + simpl. destruct (allocTraces _ _) as [traces h]. unfold ret.
      by eexists; exists h, cs.
Qed.

Lemma httpDecodingError_status (err : error) (tags : list string) :
  exists code, Status (httpDecodingError err tags newResponseWriter) = Some code /\
    400 <= code < 500.
Proof. destruct err; simpl; eexists; (split; [reflexivity | lia]). Qed.

(** C7.  When the payload gets past the rate limiter to the decoder and its
    body fails to decode, [handleTraces] answers with a 4xx status, adds the
    trace count reported in [X-Datadog-Trace-Count] to the counter
    [TracesDropped.DecodingError] of the request's tags and to no other
    counter, sends nothing on the output channel and starts no goroutine
    that would.  The count is the value [strconv.Atoi] reads in the header,
    the number itself for a header that is the decimal notation of an
    [int64]; the counter is an [int64] and the sum wraps around as
    [atomic.AddInt64] has it. *)
Theorem handleTraces_decoding_error (v : Version) (req : Request) (st : World)
    (err : error) :
  fst (RateLimiter_Permits (reportedTraceCount req) (ext st)) = true ->
  DecodingFails v req err ->
  exists w st', handleTraces v newResponseWriter req st = (Done w, st') /\
    (exists code, Status w = Some code /\ 400 <= code < 500) /\
    (forall tags c,
       receiverStats st' tags c =
         if decide (tags = tagStats req /\ c = info.TracesDropped_DecodingError)
         then int64 (receiverStats st tags c + reportedTraceCount req)
         else receiverStats st tags c) /\
    (forall z, - 2 ^ 63 <= z < 2 ^ 63 ->
       Header req !! headerTraceCount = Some (pretty z) ->
       reportedTraceCount req = z) /\
    receiverOut st' = receiverOut st /\
    goroutines st' = goroutines st.
Proof.
  intros Hpermit Hfail. unfold handleTraces, bind at 1.
  destruct (traceCount_run req st) as (cs1 & ->).
  pose proof (reportedTraceCount_decimal req) as Hdecimal.
  destruct st as [h0 e0 cf rl rs out so ci gs cs0]. simpl in *.
  unfold bind at 1. simpl.
  destruct (RateLimiter_Permits _ e0) as [permits e1]. simpl in Hpermit. subst permits.
  simpl. unfold bind at 1.
  match goal with |- context [decodeTraces v req ?W] =>
    destruct (Hfail W) as (d & st' & Hd & Herr);
    destruct (decodeTraces_run v req W) as (d' & h & cs2 & Hrun) end.
  rewrite Hd in Hrun. injection Hrun as <- ->. rewrite Hd, Herr.
  unfold bind, atomic_AddInt64, call, modify, ret. simpl.
  do 2 eexists. split; [reflexivity|]. simpl.
  split; [apply httpDecodingError_status|].
  split; [done|]. split; [exact Hdecimal|]. done.
Qed.


(** * The watchdog *)

(** Membership in an explicit list of calls. *)
Ltac list_mem :=
  repeat first [apply list_elem_of_here | apply list_elem_of_further].
Ltac list_not_mem :=
  let H := fresh in
  intros H;
  repeat (apply elem_of_cons in H as [H|H]; [discriminate H|]);
  by apply elem_of_nil in H.

(** C5, as the code has it.  The memory limit counts only when it is
    configured ([MaxMemory > 0]); likewise the CPU limit.  On a tick the
    process is ended exactly when a memory limit is configured and the
    allocated memory is above 1.5 times the limit: the OOM counter is then
    emitted and the metrics flushed before [killProcess], and the target
    rate is left as it was.  On every other tick the target rate is set to
    the minimum of the memory rate and the CPU rate, each of them
    [clip01(max / current * real rate)] when its limit is configured and 1
    when it is not. *)
Theorem watchdog_sets_rate_or_kills (now : Z) (w : World) :
  let alloc := float64_of_uint64 (watchdog_Mem (ext w)) in
  let cpu := watchdog_CPU now (ext w) in
  let maxMemory := MaxMemory (conf w) in
  let maxCPU := MaxCPU (conf w) in
  let realRate := RateLimiter_RealRate (ext w) in
  let rateMem := if (0 <? maxMemory)%float
                 then clip01 (maxMemory / alloc * realRate)%float else 1%float in
  let rateCPU := if (0 <? maxCPU)%float
                 then clip01 (maxCPU / cpu * realRate)%float else 1%float in
  exists w',
    if (0 <? maxMemory)%float && (maxMemory * 1.5 <? alloc)%float
    then watchdog now w = (Exited, w') /\
         newCalls w w' =
           [CallMetricsCount "datadog.trace_agent.receiver.oom_kill" 1;
            CallMetricsFlush;
            CallLog Critical "Killing process. Memory threshold exceeded: %.2fM / %.2fM";
            CallKillProcess "OOM"] /\
         ext w' = ext w
    else watchdog now w = (Done tt, w') /\
         ext w' = RateLimiter_SetTargetRate (math_Min rateMem rateCPU) (ext w) /\
         CallSetTargetRate (math_Min rateMem rateCPU) ∈ newCalls w w' /\
         (forall msg, CallKillProcess msg ∉ newCalls w w').
Proof.
  destruct w as [h0 e0 cf rl rs out so ci gs cs0]. cbv zeta. simpl.
  unfold watchdog, computeRateLimitingRate.
  unfold bind, gets, call, modify, ret, killProcess, SetTargetRate,
    bind, modify, call. simpl.
  rewrite (math_Min_comm
             (if (0 <? MaxMemory cf)%float then _ else _)
             (if (0 <? MaxCPU cf)%float then _ else _)).
  destruct (0 <? MaxMemory cf)%float; simpl;
    [destruct (MaxMemory cf * 1.5 <? float64_of_uint64 (watchdog_Mem e0))%float; simpl|].
  - eexists. split; [reflexivity|]. split; [|reflexivity].
    apply newCalls_app. simpl. by rewrite <- !app_assoc.
  - destruct (clip01 _ <? 1)%float; simpl;
      destruct (0 <? MaxCPU cf)%float; simpl;
      try destruct (clip01 (MaxCPU cf / _ * _) <? 1)%float; simpl;
      eexists; (split; [reflexivity|]); (split; [reflexivity|]);
      (erewrite newCalls_app; [|simpl; rewrite <- !app_assoc; simpl; reflexivity]);
      (split; [list_mem | intros msg; list_not_mem]).
  - destruct (0 <? MaxCPU cf)%float; simpl;
      try destruct (clip01 (MaxCPU cf / _ * _) <? 1)%float; simpl;
      eexists; (split; [reflexivity|]); (split; [reflexivity|]);
      (erewrite newCalls_app; [|simpl; rewrite <- !app_assoc; simpl; reflexivity]);
      (split; [list_mem | intros msg; list_not_mem]).
Qed.


End PipelineProofs.

(** * [tracesFromSpans] *)

Lemma tracesFromSpans_unfold (spans : list pb.Span) (h : pb.Heap) :
  tracesFromSpans spans h =
    let st := foldl (groupStep (pb.next h))
                (∅, snd (pb.alloc pb.zeroSpan h)) spans in
    (map snd (map_to_list (fst st)), snd st).
Proof. unfold tracesFromSpans. simpl. by destruct (foldl _ _ _). Qed.

Lemma deref_store_same (p : pb.addr) (s : pb.Span) (h : pb.Heap) :
  pb.deref (pb.store p s h) p = s.
Proof. unfold pb.deref, pb.store. simpl. by rewrite lookup_insert_eq. Qed.

(** Every pointer the loop files is the address of the loop variable, which
    holds the span of the last iteration, and there is one entry per
    trace ID. *)
Lemma groupStep_fold (s : pb.addr) (spans : list pb.Span)
    (byID : gmap Z (list pb.addr)) (h : pb.Heap) :
  (forall id l, byID !! id = Some l -> Forall (eq s) l) ->
  let st := foldl (groupStep s) (byID, h) spans in
  (forall id l, fst st !! id = Some l -> Forall (eq s) l) /\
  (forall spans0 x, spans = spans0 ++ [x] -> pb.deref (snd st) s = x) /\
  dom (fst st) = dom byID ∪ list_to_set (pb.TraceID <$> spans).
Proof.
  intros Hinit. induction spans as [|x spans IH] using rev_ind; cbv zeta.
  - simpl. split; [done|]. split; [intros [|??] ? ?; discriminate|].
    by rewrite (right_id_L ∅ (∪)).
  - rewrite foldl_snoc. cbv zeta in IH.
    destruct (foldl (groupStep s) (byID, h) spans) as [byID' h'].
    destruct IH as (Hall & _ & Hdom). simpl in *.
    rewrite deref_store_same. split; [|split].
    + intros id l. destruct (decide (pb.TraceID x = id)) as [<-|Hne].
      * rewrite lookup_insert_eq. intros [= <-]. apply Forall_app. split.
        -- destruct (byID' !! pb.TraceID x) as [l'|] eqn:E; simpl; [by eapply Hall|done].
        -- by constructor.
      * rewrite lookup_insert_ne by done. apply Hall.
    + intros spans0 x0 [_ [= <-]]%app_inj_tail. done.
    + rewrite dom_insert_L, Hdom, fmap_app, list_to_set_app_L. simpl.
      rewrite (right_id_L ∅ (∪)), (comm_L (∪) {[pb.TraceID x]}).
      by rewrite (assoc_L (∪)).
Qed.

(** The traces [tracesFromSpans] returns, read through their pointers, hold
    nothing but copies of the last span of the input. *)
Theorem tracesFromSpans_aliases_last (spans : list pb.Span) (x : pb.Span)
    (h : pb.Heap) (t : list pb.Span) :
  t ∈ map (pb.spansOf (snd (tracesFromSpans (spans ++ [x]) h)))
          (fst (tracesFromSpans (spans ++ [x]) h)) ->
  Forall (eq x) t.
Proof.
  rewrite tracesFromSpans_unfold. cbv zeta. simpl fst. simpl snd.
  pose proof (groupStep_fold (pb.next h) (spans ++ [x]) ∅
                (snd (pb.alloc pb.zeroSpan h))) as Hf.
  cbv zeta in Hf. destruct (foldl _ _ _) as [byID h'].
  destruct Hf as (Hall & Hlast & _); [intros ??; by rewrite lookup_empty|].
  simpl in *. specialize (Hlast spans x eq_refl).
  intros (ps & -> & ([id ps'] & -> & Hin%elem_of_map_to_list)%list_elem_of_fmap)%list_elem_of_fmap.
  simpl. specialize (Hall _ _ Hin). unfold pb.spansOf.
  apply Forall_fmap. eapply Forall_impl; [exact Hall|].
  intros p <-. simpl. done.
Qed.

(** The part of the claim that holds: one trace per trace ID of the
    input. *)
Lemma tracesFromSpans_one_per_id (spans : list pb.Span) (h : pb.Heap) :
  length (fst (tracesFromSpans spans h)) =
    size (list_to_set (pb.TraceID <$> spans) : gset Z).
Proof.
  rewrite tracesFromSpans_unfold. cbv zeta. simpl fst.
  pose proof (groupStep_fold (pb.next h) spans ∅
                (snd (pb.alloc pb.zeroSpan h))) as Hf.
  cbv zeta in Hf. destruct (foldl _ _ _) as [byID h'].
  destruct Hf as (_ & _ & Hdom); [intros ??; by rewrite lookup_empty|].
  simpl in *. rewrite length_map, length_map_to_list.
  rewrite <- (size_dom byID), Hdom.
  f_equal. rewrite dom_empty_L. apply (left_id_L ∅ (∪)).
Qed.

(** C4, on the body of scenario S3: the spans A and B of trace 7 and the
    span C of trace 9 come back as a trace of two spans and a trace of one
    span, but all three pointers are the address of the loop variable and
    read as C.  A and B are lost and C stands in trace 7. *)
Theorem tracesFromSpans_scenario_S3 :
  let '(traces, h) := tracesFromSpans [demo.spanA; demo.spanB; demo.spanC] pb.emptyHeap in
  traces = [[0%nat; 0%nat]; [0%nat]] /\
  map (pb.spansOf h) traces = [[demo.spanC; demo.spanC]; [demo.spanC]].
Proof. vm_compute. done. Qed.

(** * The other versions keep the spans apart *)

(** A payload of [/v0.2/traces] and later is decoded into one new cell per
    span: the traces that come back read as the traces that were sent. *)
Lemma allocTrace_faithful (spans : list pb.Span) (h : pb.Heap) :
  let '(t, h') := allocTrace spans h in
  (pb.next h <= pb.next h')%nat /\
  (forall p, (p < pb.next h)%nat -> pb.deref h' p = pb.deref h p) /\
  pb.spansOf h' t = spans.
Proof.
  revert h. induction spans as [|s spans IH]; intros h; simpl.
  - split; [lia|]. split; done.
  - specialize (IH (pb.mkHeap (<[pb.next h := s]> (pb.cells h)) (S (pb.next h)))).
    destruct (allocTrace spans _) as [ps h']. simpl in *.
    destruct IH as (Hle & Hkeep & Hread). split; [lia|]. split.
    + intros p Hp. rewrite Hkeep by lia. unfold pb.deref. simpl.
      by rewrite lookup_insert_ne by lia.
    + f_equal; [|done]. rewrite Hkeep by lia. unfold pb.deref. simpl.
      by rewrite lookup_insert_eq.
Qed.

Lemma spansOf_ext (h h' : pb.Heap) (t : pb.Trace) :
  (forall p, p ∈ t -> pb.deref h' p = pb.deref h p) ->
  pb.spansOf h' t = pb.spansOf h t.
Proof.
  intros H. unfold pb.spansOf. induction t as [|p t IH]; [done|]. simpl.
  rewrite H by (by left). f_equal. apply IH. intros q Hq. apply H. by right.
Qed.

Lemma allocTrace_range (spans : list pb.Span) (h : pb.Heap) :
  forall p, p ∈ fst (allocTrace spans h) ->
    (pb.next h <= p < pb.next (snd (allocTrace spans h)))%nat.
Proof.
  revert h. induction spans as [|s spans IH]; intros h p; simpl.
  - by intros ?%elem_of_nil.
  - specialize (IH (pb.mkHeap (<[pb.next h := s]> (pb.cells h)) (S (pb.next h))) p).
    pose proof (allocTrace_faithful spans
                  (pb.mkHeap (<[pb.next h := s]> (pb.cells h)) (S (pb.next h)))) as HF.
    destruct (allocTrace spans _) as [ps h']. simpl in *.
    destruct HF as (Hle & _). intros [->|Hin]%elem_of_cons; [lia|].
    specialize (IH Hin). lia.
Qed.

Lemma allocTraces_faithful (traces : list (list pb.Span)) (h : pb.Heap) :
  let '(ts, h') := allocTraces traces h in
  (pb.next h <= pb.next h')%nat /\
  (forall p, (p < pb.next h)%nat -> pb.deref h' p = pb.deref h p) /\
  map (pb.spansOf h') ts = traces.
Proof.
  revert h. induction traces as [|t traces IH]; intros h; simpl.
  - split; [lia|]. split; done.
  - pose proof (allocTrace_faithful t h) as HT.
    pose proof (allocTrace_range t h) as HR.
    destruct (allocTrace t h) as [ps h1]. simpl in HR.
    specialize (IH h1). destruct (allocTraces traces h1) as [ts h'].
    destruct HT as (Hle1 & Hkeep1 & Hread1). destruct IH as (Hle & Hkeep & Hread).
    simpl. split; [lia|]. split.
    + intros p Hp. rewrite Hkeep by lia. by apply Hkeep1.
    + f_equal; [|done]. rewrite <- Hread1. apply spansOf_ext.
      intros p Hp%HR. apply Hkeep. lia.
Qed.

Section DecodeProofs.

Context {C : Collaborators}.

(** On [/v0.1/spans], [decodeTraces] returns what [tracesFromSpans] makes
    of the decoded spans. *)
Lemma decodeTraces_v01_run (req : Request) (w : World) (n : Z)
    (spans : list pb.Span) :
  json_Decode_spans (Body req) = mkDecoded n (inr spans) ->
  decodeTraces v01 req w =
    (Done (mkDecoded n (inr (fst (tracesFromSpans spans (heap w))))),
     setHeap (snd (tracesFromSpans spans (heap w))) w).
Proof.
  intros Hd. unfold decodeTraces. simpl. rewrite Hd. simpl.
  unfold bind, ret. by destruct (tracesFromSpans spans (heap w)).
Qed.

(** The traces [decodeTraces] returns for a body of [/v0.1/spans] hold
    nothing but copies of the last span of the body. *)
Lemma decodeTraces_v01_aliases_last (req : Request) (w : World) (n : Z)
    (spans : list pb.Span) (x : pb.Span) :
  json_Decode_spans (Body req) = mkDecoded n (inr (spans ++ [x])) ->
  exists traces w',
    decodeTraces v01 req w = (Done (mkDecoded n (inr traces)), w') /\
    forall t, t ∈ traces -> Forall (eq x) (pb.spansOf (heap w') t).
Proof.
  intros Hd. do 2 eexists. split; [by apply decodeTraces_v01_run|].
  intros t Ht. apply (tracesFromSpans_aliases_last spans x (heap w)).
  destruct w. simpl. apply list_elem_of_fmap. by exists t.
Qed.

End DecodeProofs.

(** * The code run on the small deployment *)

Lemma demo_GlobalRateIsProcessOwned : @GlobalRateIsProcessOwned demo.collaborators.
Proof. by repeat split. Qed.

(** At an input: a trace of one span without metrics goes through the
    sampling stage; the score sampler drops it. *)
Lemma Process_global_rate_witness :
  exists pt wi sampled rate ws w',
    prepare (C := demo.collaborators) [0%nat] 0%nat
      (countedPriority [0%nat] demo.plainWorld) = (Done pt, wi) /\
    runSamplers pt wi = (Done (sampled, rate), ws) /\
    Process [0%nat] demo.plainWorld = (Done tt, w') /\
    globalRateOf (heap w') 0%nat =
      Some (if sampled then (1 * 1 * rate)%float else (1 * 1)%float).
Proof.
  apply (Process_global_rate (C := demo.collaborators) [0%nat] demo.plainWorld).
  - exact demo_GlobalRateIsProcessOwned.
  - discriminate.
  - reflexivity.
  - reflexivity.
Defined.

(** C3 fails where the samplers drop the trace: the root had the client
    rate 1, the pre-sample rate is 1, the one sampler consulted answered
    "drop" with rate 0.5, so that the combined sampler rate is 0.5 and the
    product of the three is 0.5; but the global rate of the root after
    [Process] is 1, the sampler rate not being multiplied in. *)
Lemma Process_rate_of_dropped_trace :
  let w := demo.plainWorld in
  let w' := snd (Process [0%nat] w) in
  fst (Process [0%nat] w) = Done tt /\
  sampler_GetGlobalRate (pb.deref (heap w) 0%nat) = 1%float /\
  RateLimiter_RealRate (ext w) = 1%float /\
  newCalls w w' =
    [CallSamplerAdd ScoreSampler
       (mkProcessedTrace [0%nat] [] 0%nat "none" ∅) false 0.5%float;
     CallEventProcess 0%nat [0%nat];
     CallTimingSince "datadog.trace_agent.internal.process_trace_ms"] /\
  (1 * 1 * sampler_CombineRates 0 0.5)%float = 0.5%float /\
  globalRateOf (heap w') 0%nat = Some 1%float /\
  (1 =? 0.5)%float = false.
Proof. vm_compute. by repeat split. Qed.

(** At an input: a trace of one span without priority meets the samplers
    and the event processor, and is sent to the concentrator. *)
Lemma Process_sampling_gate_witness :
  exists w', Process (C := demo.collaborators) [0%nat] demo.plainWorld = (Done tt, w') /\
    (samplersInvoked (newCalls demo.plainWorld w') <->
       (0 <=? 0)%float = true \/ false = false) /\
    (eventsExtracted (newCalls demo.plainWorld w') <->
       (0 <=? 0)%float = true \/ false = false) /\
    (exists input, concentratorIn w' = concentratorIn demo.plainWorld ++ [input]).
Proof.
  apply (Process_sampling_gate (C := demo.collaborators) [0%nat] demo.plainWorld).
  - discriminate.
  - reflexivity.
Defined.

(** C6 fails on the traces the blacklister refuses.  A non-empty trace whose
    root has the priority 1 is not sampled: [Process] calls no sampler and
    no event processor.  One whose root has the priority -1 is not sent to
    the concentrator.  In both runs the only calls are the log line of the
    blacklister and the deferred timing. *)
Lemma Process_blacklisted :
  let w1 := demo.blockedWorld in
  let w1' := snd (Process [0%nat] w1) in
  let w2 := demo.blockedNegativeWorld in
  let w2' := snd (Process [0%nat] w2) in
  sampler_GetSamplingPriority (pb.deref (heap w1) 0%nat) = (1%float, true) /\
  (0 <=? 1)%float = true /\
  fst (Process [0%nat] w1) = Done tt /\
  newCalls w1 w1' =
    [CallLog Debug "Trace rejected by blacklister. root: %v";
     CallTimingSince "datadog.trace_agent.internal.process_trace_ms"] /\
  sampler_GetSamplingPriority (pb.deref (heap w2) 0%nat) = ((-1)%float, true) /\
  fst (Process [0%nat] w2) = Done tt /\
  concentratorIn w2 = [] /\ concentratorIn w2' = [].
Proof. vm_compute. by repeat split. Qed.

(** C5 fails where no memory limit is configured.  With [MaxMemory = 0] and
    100 bytes allocated, the allocated memory exceeds 1.5 times the limit,
    yet the watchdog returns without [killProcess]; and the target rate it
    sets is 1, not the minimum of [clip01(0 / 100 * 1)] and
    [clip01(0 / 0.5 * 1)], which is 0. *)
Lemma watchdog_without_limit :
  let w := demo.plainWorld in
  let w' := snd (watchdog 0 w) in
  MaxMemory (conf w) = 0%float /\
  watchdog_Mem (ext w) = 100 /\
  (MaxMemory (conf w) * 1.5 <? float64_of_uint64 (watchdog_Mem (ext w)))%float = true /\
  fst (watchdog 0 w) = Done tt /\
  newCalls w w' =
    [CallSetTargetRate 1%float;
     CallUpdateRateLimiter;
     CallUpdateWatchdogInfo (mkWatchdogInfo 100 0.5%float);
     CallMetricsGauge "datadog.trace_agent.heap_alloc" 100%float;
     CallMetricsGauge "datadog.trace_agent.cpu_percent" 50%float;
     CallMetricsGauge "datadog.trace_agent.receiver.ratelimit" 1%float] /\
  math_Min (computeRateLimitingRate 0 100 1) (computeRateLimitingRate 0 0.5 1) = 0%float.
Proof. vm_compute. by repeat split. Qed.

Lemma demo_brokenRequest_fails :
  DecodingFails (C := demo.collaborators) v01 demo.brokenRequest
    (ErrOther "unexpected end of JSON input").
Proof. intros st. do 2 eexists. split; reflexivity. Qed.

(** At an input: a body that does not decode, announced as three traces. *)
Lemma handleTraces_decoding_error_witness :
  exists w st',
    handleTraces (C := demo.collaborators) v01 newResponseWriter
      demo.brokenRequest demo.plainWorld = (Done w, st') /\
    (exists code, Status w = Some code /\ 400 <= code < 500) /\
    (forall tags c,
       receiverStats st' tags c =
         if decide (tags = tagStats demo.brokenRequest /\
                    c = info.TracesDropped_DecodingError)
         then int64 (receiverStats demo.plainWorld tags c + 3)
         else receiverStats demo.plainWorld tags c) /\
    (forall z, - 2 ^ 63 <= z < 2 ^ 63 ->
       Header demo.brokenRequest !! headerTraceCount = Some (pretty z) ->
       reportedTraceCount demo.brokenRequest = z) /\
    receiverOut st' = receiverOut demo.plainWorld /\
    goroutines st' = goroutines demo.plainWorld.
Proof.
  apply (handleTraces_decoding_error (C := demo.collaborators) v01
           demo.brokenRequest demo.plainWorld (ErrOther "unexpected end of JSON input")).
  - reflexivity.
  - exact demo_brokenRequest_fails.
Defined.

(** * The code on examples *)

(** Scenario S5 of the spec, with a limit of 1000 bytes: at 1400 bytes the
    watchdog warns and sets a target rate below 1, at 1600 bytes it ends the
    process after the OOM counter. *)
Example watchdog_scenario_S5 :
  let at_ (bytes : Z) :=
    demo.world (demo.mkState (true, 1%float) (true, 1%float) (false, 0.5%float) []
                  1%float 1%float true bytes 0.5%float)
      pb.emptyHeap demo.limited in
  let r1 := watchdog (C := demo.collaborators) 0 (at_ 1400) in
  let r2 := watchdog (C := demo.collaborators) 0 (at_ 1600) in
  fst r1 = Done tt /\
  head (newCalls (at_ 1400) (snd r1)) =
    Some (CallLog Warn "Memory threshold exceeded (apm_config.max_memory: %.0f bytes): %d") /\
  (demo.targetRate (ext (snd r1)) <? 1)%float = true /\
  fst r2 = Exited /\
  newCalls (at_ 1600) (snd r2) =
    [CallMetricsCount "datadog.trace_agent.receiver.oom_kill" 1;
     CallMetricsFlush;
     CallLog Critical "Killing process. Memory threshold exceeded: %.2fM / %.2fM";
     CallKillProcess "OOM"].
Proof. vm_compute. by repeat split. Qed.

Example parseContainerHealth_starting :
  docker.parseContainerHealth "Up 5 seconds (health: starting)" = Some "starting".
Proof. reflexivity. Qed.

Example parseContainerHealth_unhealthy :
  docker.parseContainerHealth "Up 18 hours (unhealthy)" = Some "unhealthy".
Proof. reflexivity. Qed.

Example parseContainerHealth_plain :
  docker.parseContainerHealth "Up about an hour" = Some "".
Proof. reflexivity. Qed.

Example parseContainerHealth_second_group :
  docker.parseContainerHealth "Up (health: ) (health: a_1) (health: b)" = Some "a_1".
Proof. reflexivity. Qed.

Example traceCount_reported :
  reportedTraceCount demo.brokenRequest = 3 /\
  reportedTraceCount (mkRequest ∅ "") = 0 /\
  reportedTraceCount (mkRequest {[ headerTraceCount := "-12" ]} "") = -12 /\
  reportedTraceCount (mkRequest {[ headerTraceCount := "12a" ]} "") = 0 /\
  reportedTraceCount
    (mkRequest {[ headerTraceCount := "99999999999999999999x" ]} "") = 2 ^ 63 - 1 /\
  reportedTraceCount
    (mkRequest {[ headerTraceCount := "-99999999999999999999x" ]} "") = - 2 ^ 63 /\
  reportedTraceCount
    (mkRequest {[ headerTraceCount := "-9223372036854775808" ]} "") = - 2 ^ 63.
Proof. vm_compute. by repeat split. Qed.

(** Two payloads that announce [2^63 - 1] traces each and do not decode
    leave the counter at -2. *)
Example AddInt64_wraps :
  let c := info.TracesDropped_DecodingError in
  info.AddInt64 noTags c (2 ^ 63 - 1)
    (info.AddInt64 noTags c (2 ^ 63 - 1) info.NewReceiverStats) noTags c = -2.
Proof. reflexivity. Qed.

Example decodeTraces_scenario_S3 :
  let r := decodeTraces (C := demo.collaborators) v01 demo.s3Request demo.plainWorld in
  exists d, fst r = Done d /\
    Result d = inr [[1%nat; 1%nat]; [1%nat]] /\
    pb.deref (heap (snd r)) 1%nat = demo.spanC.
Proof. eexists. vm_compute. by repeat split. Qed.

Example handleTraces_refused_payload :
  let refusing := demo.mkState (true, 1%float) (true, 1%float) (false, 0.5%float) []
                    1%float 1%float false 100 0.5%float in
  let w := demo.world refusing pb.emptyHeap demo.noLimits in
  let r := handleTraces (C := demo.collaborators) v01 newResponseWriter demo.brokenRequest w in
  fst r = Done (mkResponseWriter (Some 200) ["OK"]) /\
  newCalls w (snd r) =
    [CallMetricsCount "datadog.trace_agent.receiver.payload_refused" 1].
Proof. vm_compute. by repeat split. Qed.

(** * More of the code *)

(** * The health of a status that carries one, and of one that does not *)

(** No match starts before the first [(]. *)
Lemma healthRe_scan_skip (pre s : string) :
  ~ docker.occurs "(" pre ->
  docker.healthRe_scan (pre +:+ s) 0 = docker.healthRe_scan s 0.
Proof.
  induction pre as [|c pre IH]; intros Hno; [by rewrite sapp_nil_l|].
  rewrite sapp_cons. cbn [docker.healthRe_scan].
  assert (docker.healthRe_at (String c (pre +:+ s)) = None) as ->.
  { unfold docker.healthRe_at. cbn [docker.TrimPrefix].
    destruct (Ascii.eqb_spec c "("%char) as [->|Hc]; [|done].
    exfalso. apply Hno. exists "", pre. by rewrite sapp_nil_l, sapp_cons, sapp_nil_l. }
  apply IH. intros (p1 & p2 & ->). apply Hno.
  exists (String c p1), p2. by rewrite sapp_cons.
Qed.

Lemma Index_none (s sub : string) :
  ~ docker.occurs sub s -> (0 <=? docker.Index s sub) = false.
Proof.
  intros Hno. apply Z.leb_gt.
  destruct (Index_range s sub) as [->|H]; [lia|].
  by apply Index_found in H.
Qed.

(** X1.  A status that carries a health check result in the form Docker prints
    it, [(health: g)] with nothing in brackets before it, has the health
    [g] -- unless the word [unhealthy] stands anywhere in the status. *)
Theorem parseContainerHealth_reads_health (pre g post : string) :
  g <> "" -> docker.isWord g = true ->
  ~ docker.occurs "(" pre ->
  ~ docker.occurs "unhealthy" (pre +:+ ("(health: " +:+ g +:+ ")") +:+ post) ->
  docker.parseContainerHealth (pre +:+ ("(health: " +:+ g +:+ ")") +:+ post) = Some g.
Proof.
  intros Hne Hw Hpre Hun. unfold docker.parseContainerHealth.
  rewrite (Index_none _ _ Hun).
  destruct (Z.eqb_spec (docker.IndexByte (pre +:+ ("(health: " +:+ g +:+ ")") +:+ post) "(")
              (-1)) as [Hb|_].
  { exfalso.
    assert (0 <= docker.IndexByte (pre +:+ ("(health: " +:+ g +:+ ")") +:+ post) "(");
      [|lia].
    apply IndexByte_found. exists pre, ("health: " +:+ g +:+ ")" +:+ post).
    f_equal. rewrite !sapp_cons, !sapp_nil_l. do 9 f_equal.
    by rewrite sapp_assoc, sapp_cons, sapp_nil_l. }
  unfold docker.healthRe_FindAllStringSubmatch.
  rewrite healthRe_scan_skip by done.
  assert (exists d rest, ("(health: " +:+ g +:+ ")") +:+ post = String d rest)
    as (d & rest & Hs).
  { rewrite !sapp_cons. by do 2 eexists. }
  rewrite Hs. cbn [docker.healthRe_scan]. rewrite <- Hs.
  rewrite (healthRe_at_complete _ g post) by done.
  cbn [length head default].
  match goal with |- context [Z.of_nat (S ?n) <? 1] =>
    replace (Z.of_nat (S n) <? 1) with false by (symmetry; apply Z.ltb_ge; lia) end.
  reflexivity.
Qed.

(** X2.  A status in which neither [unhealthy] nor [(health: ] occurs has the
    empty health, whatever else it holds in brackets: [(healthy)], as Docker
    prints it for a healthy container, is not read. *)
Theorem parseContainerHealth_without_health (status : string) :
  ~ docker.occurs "unhealthy" status ->
  ~ docker.occurs "(health: " status ->
  docker.parseContainerHealth status = Some "".
Proof.
  intros Hun Hno. unfold docker.parseContainerHealth.
  rewrite (Index_none _ _ Hun).
  destruct (docker.IndexByte status "(" =? -1); [done|].
  unfold docker.healthRe_FindAllStringSubmatch.
  destruct (healthRe_scan_first status) as [(g & rest & _ & Hfirst)|[-> _]]; [|done].
  exfalso. apply Hno.
  destruct Hfirst as (i & (p1 & p2 & -> & _ & _) & _).
  exists p1, (g +:+ ")" +:+ p2). f_equal.
  by rewrite !sapp_assoc.
Qed.

(** At an input: a status with a health check that has just started. *)
Lemma parseContainerHealth_reads_health_witness :
  docker.parseContainerHealth "Up 5 seconds (health: starting) (x)" = Some "starting".
Proof.
  apply (parseContainerHealth_reads_health "Up 5 seconds " "starting" " (x)").
  - discriminate.
  - reflexivity.
  - intros H%IndexByte_found. vm_compute in H. by apply H.
  - intros H%Index_found. vm_compute in H. by apply H.
Defined.

(** At an input: the status of a healthy container. *)
Lemma parseContainerHealth_without_health_witness :
  docker.parseContainerHealth "Up 18 hours (healthy)" = Some "".
Proof.
  apply parseContainerHealth_without_health.
  - intros H%Index_found. vm_compute in H. by apply H.
  - intros H%Index_found. vm_compute in H. by apply H.
Defined.

(** Membership in a list that is written out. *)
Ltac elem_listed :=
  repeat first [apply list_elem_of_here | apply list_elem_of_further].

Section AgentProofs.

Context {C : Collaborators}.

(** * What [Process] counts and hands on *)

(** [prepare] only writes to the spans; the weighted trace and the
    environment of its result are read from the spans as it leaves them. *)
Lemma prepare_result (t : pb.Trace) (root : pb.addr) (w : World) :
  exists pt h, prepare t root w = (Done pt, setHeap h w) /\
    pt = mkProcessedTrace t (NewWeightedTrace h t root) root
           (if negb (String.eqb (GetEnv h t) "") then GetEnv h t
            else DefaultEnv (conf w))
           (pt_Sublayers pt).
Proof.
  unfold prepare.
  unfold bind at 1.
  destruct (spansOnly_forRange t
              (fun span => bind (onHeap (Obfuscate span)) (fun _ => onHeap (Truncate span)))
              (fun span => spansOnly_bind _ _
                 (spansOnly_onHeap _ (fun HG => proj1 (proj2 (proj2 HG)) span))
                 (fun _ => spansOnly_onHeap _
                    (fun HG => proj1 (proj2 (proj2 (proj2 HG))) span))) w)
    as ([] & h1 & -> & _).
  destruct w as [h0 e0 cf rl st out so ci gs cs0].
  unfold bind at 1, onHeap at 1, modify at 1. simpl.
  unfold bind at 1, gets at 1. simpl.
  unfold bind at 1, onHeap at 1, modify at 1. simpl.
  unfold bind at 1, gets at 1. simpl.
  unfold bind at 1, onHeap at 1, modify at 1. simpl.
  unfold bind at 1, onHeap at 1, modify at 1. simpl.
  unfold bind at 1, onHeap at 1, modify at 1. simpl.
  unfold bind at 1, gets at 1. simpl.
  unfold bind at 1.
  match goal with |- context [sublayersLoop ?l ?m ?w] =>
    destruct (spansOnly_sublayersLoop l m w) as (sub & h2 & -> & _) end.
  simpl. unfold bind, gets, ret. simpl.
  do 2 eexists. split; reflexivity.
Qed.

(** The whole of what [sample] does to the state. *)
Lemma sample_shape (ts : info.Tags) (pt : ProcessedTrace) (w : World) :
  exists sampled rate w1 events numExtracted e' h' cs,
    runSamplers pt w = (Done (sampled, rate), w1) /\
    EventProcessor_Process (pt_Root pt) (pt_Trace pt)
      (ext w1, if sampled then sampler_AddGlobalRate (pt_Root pt) rate (heap w1)
               else heap w1) = ((events, numExtracted), (e', h')) /\
    let ss := writer.mkSampledSpans (if sampled then pt_Trace pt else []) events in
    sample ts pt w =
      (Done tt,
       mkWorld h' e' (conf w) (rateLimiterResponse w)
         (info.AddInt64 ts info.EventsSampled (Z.of_nat (length events))
            (info.AddInt64 ts info.EventsExtracted numExtracted (receiverStats w)))
         (receiverOut w)
         (if writer.Empty ss then spansOut w else spansOut w ++ [ss])
         (concentratorIn w) (goroutines w) (calls w ++ cs)).
Proof.
  destruct (runSamplers_run pt w) as (sampled & rate & e & h & cs & Hrun & _).
  destruct w as [h0 e0 cf rl st out so ci gs cs0].
  exists sampled, rate. eexists.
  destruct (EventProcessor_Process (pt_Root pt) (pt_Trace pt)
              (e, if sampled then sampler_AddGlobalRate (pt_Root pt) rate h else h))
    as [[events n] [e' h']] eqn:EP.
  exists events, n, e', h', (cs ++ [CallEventProcess (pt_Root pt) (pt_Trace pt)]).
  split; [exact Hrun|]. split; [exact EP|].
  unfold sample, bind. rewrite Hrun.
  unfold onHeap, modify, call, method, ret, atomic_AddInt64, modify, send_spansOut.
  destruct sampled; simpl in *; rewrite EP; simpl;
    match goal with |- context [writer.Empty ?x] => destruct (writer.Empty x) end;
    simpl; by rewrite <- app_assoc.
Qed.

(** The two counters of [sample] are the event counters. *)
Lemma AddInt64_other (ts tags : info.Tags) (c c' : info.Counter) (n : Z)
    (st : info.ReceiverStats) :
  c' <> c -> info.AddInt64 ts c n st tags c' = st tags c'.
Proof. intros Hc. unfold info.AddInt64. rewrite decide_False; [done|]. by intros [_ ?]. Qed.

Lemma AddInt64_same (ts : info.Tags) (c : info.Counter) (n : Z)
    (st : info.ReceiverStats) :
  info.AddInt64 ts c n st ts c = int64 (st ts c + n).
Proof. unfold info.AddInt64. by rewrite decide_True. Qed.

Lemma AddInt64_other_tags (ts tags : info.Tags) (c c' : info.Counter) (n : Z)
    (st : info.ReceiverStats) :
  tags <> ts -> info.AddInt64 ts c n st tags c' = st tags c'.
Proof. intros Hc. unfold info.AddInt64. rewrite decide_False; [done|]. by intros [? _]. Qed.

(** X3.  [sample] adds what the event processor reports to the two event
    counters of the tags it is given, whether the samplers keep the trace or
    not: the number of events it extracted to [EventsExtracted], the number
    of events it returns to [EventsSampled], each sum being the sum of two
    [int64].  No other counter moves. *)
Theorem sample_counts_events (ts : info.Tags) (pt : ProcessedTrace) (w : World) :
  exists sampled rate w1 events numExtracted w',
    runSamplers pt w = (Done (sampled, rate), w1) /\
    fst (EventProcessor_Process (pt_Root pt) (pt_Trace pt)
           (ext w1,
            if sampled then sampler_AddGlobalRate (pt_Root pt) rate (heap w1)
            else heap w1)) = (events, numExtracted) /\
    sample ts pt w = (Done tt, w') /\
    forall tags c,
      receiverStats w' tags c =
        if decide (tags = ts /\ c = info.EventsExtracted)
        then int64 (receiverStats w tags c + numExtracted)
        else if decide (tags = ts /\ c = info.EventsSampled)
             then int64 (receiverStats w tags c + Z.of_nat (length events))
             else receiverStats w tags c.
Proof.
  destruct (sample_shape ts pt w)
    as (sampled & rate & w1 & events & n & e' & h' & cs & Hrun & EP & Hs).
  exists sampled, rate, w1, events, n. eexists.
  split; [exact Hrun|]. split; [by rewrite EP|]. split; [exact Hs|].
  intros tags c. simpl. unfold info.AddInt64.
  repeat case_decide; try done;
    repeat match goal with H : _ /\ _ |- _ => destruct H end; congruence.
Qed.

Lemma priorityStat_in (priority : float) (hasPriority : bool) :
  priorityStat priority hasPriority ∈ priorityCounters.
Proof.
  unfold priorityStat, priorityCounters.
  destruct hasPriority; [|elem_listed].
  destruct (priority <? 0)%float; [elem_listed|].
  destruct (priority =? 0)%float; [elem_listed|].
  destruct (priority =? 1)%float; elem_listed.
Qed.

Lemma not_priorityCounter (c c' : info.Counter) :
  c ∈ priorityCounters -> c' ∉ priorityCounters -> c <> c'.
Proof. intros Hc Hc' ->. done. Qed.

Lemma other_counters :
  (info.TracesFiltered ∉ priorityCounters) /\ (info.SpansFiltered ∉ priorityCounters) /\
  (info.EventsExtracted ∉ priorityCounters) /\ (info.EventsSampled ∉ priorityCounters).
Proof.
  unfold priorityCounters. repeat split; intros H;
    repeat (apply elem_of_cons in H as [H|H]; [discriminate H|]);
    by apply elem_of_nil in H.
Qed.

(** X4.  A trace that the blacklister rejects is counted and dropped: beside
    its priority counter, [TracesFiltered] goes up by one and
    [SpansFiltered] by the number of its spans, all under the empty tags.
    Its spans are not sanitized or written to, no collaborator changes
    state, and nothing is sent to the writers or the concentrator. *)
Theorem Process_rejected_trace (t : pb.Trace) (w : World) :
  t <> [] ->
  Blacklister_Allows (heap w) (GetRoot (heap w) t) = false ->
  exists w', Process t w = (Done tt, w') /\
    heap w' = heap w /\ ext w' = ext w /\
    spansOut w' = spansOut w /\ concentratorIn w' = concentratorIn w /\
    receiverStats w' =
      info.AddInt64 noTags info.SpansFiltered (Z.of_nat (length t))
        (info.AddInt64 noTags info.TracesFiltered 1
           (receiverStats (countedPriority t w))) /\
    newCalls w w' =
      [CallLog Debug "Trace rejected by blacklister. root: %v";
       CallTimingSince "datadog.trace_agent.internal.process_trace_ms"].
Proof.
  intros Ht Hrej. unfold Process, countedPriority. rewrite (length_nonzero t Ht).
  destruct w as [h0 e0 cf rl st out so ci gs cs0]. simpl in *.
  unfold bind at 1, gets at 1. simpl.
  unfold bind at 1, gets at 1. simpl.
  destruct (sampler_GetSamplingPriority _) as [priority hasPriority].
  unfold bind at 1, atomic_AddInt64 at 1, modify at 1. simpl.
  unfold bind at 1, gets at 1. simpl. rewrite Hrej. simpl.
  unfold bind, call, atomic_AddInt64, modify. simpl.
  eexists. split; [reflexivity|]. simpl.
  repeat (split; [reflexivity|]).
  erewrite newCalls_app; [reflexivity|]. simpl. by rewrite <- app_assoc.
Qed.

(** X5.  Every non-empty trace is counted once by priority: [Process] adds one
    to exactly one of the five priority counters of the empty tags, as
    [atomic.AddInt64] adds, and leaves the other four as they were --
    whatever the blacklister and the samplers then decide. *)
Theorem Process_counts_priority (t : pb.Trace) (w : World) :
  t <> [] ->
  exists w' stat, Process t w = (Done tt, w') /\
    stat ∈ priorityCounters /\
    forall c, c ∈ priorityCounters ->
      receiverStats w' noTags c =
        if decide (c = stat) then int64 (receiverStats w noTags c + 1)
        else receiverStats w noTags c.
Proof.
  intros Ht. unfold Process. rewrite (length_nonzero t Ht).
  destruct w as [h0 e0 cf rl st out so ci gs cs0]. simpl in *.
  unfold bind at 1, gets at 1. simpl.
  unfold bind at 1, gets at 1. simpl.
  destruct (sampler_GetSamplingPriority _) as [priority hasPriority].
  pose proof (priorityStat_in priority hasPriority) as Hin.
  set (stat := priorityStat priority hasPriority) in *.
  assert (forall c st', c ∈ priorityCounters ->
            (forall c0, c0 ∈ priorityCounters ->
               st' noTags c0 = info.AddInt64 noTags stat 1 st noTags c0) ->
            st' noTags c = if decide (c = stat) then int64 (st noTags c + 1)
                           else st noTags c) as Hfin.
  { intros c st' Hc ->; [|done]. unfold info.AddInt64.
    destruct (decide (c = stat)) as [->|Hne].
    - by rewrite decide_True.
    - rewrite decide_False; [done|]. by intros [_ ?]. }
  unfold bind at 1, atomic_AddInt64 at 1, modify at 1. simpl.
  unfold bind at 1, gets at 1. simpl.
  destruct (Blacklister_Allows h0 _); simpl.
  - unfold bind at 1. unfold bind at 1.
    match goal with |- context [prepare t ?r ?W] =>
      destruct (prepare_run t r W) as (pt & h & -> & _) end.
    simpl. unfold bind at 1.
    destruct (0 <=? priority)%float.
    + match goal with |- context [sample ?ts pt ?W] =>
        destruct (sample_shape ts pt W)
          as (sampled & rate & w1 & events & n & e' & h' & cs & _ & _ & ->) end.
      simpl. unfold send_concentratorIn, call, modify. simpl.
      do 2 eexists. split; [reflexivity|]. split; [exact Hin|].
      intros c Hc. simpl. apply Hfin; [done|]. intros c0 Hc0.
      rewrite !AddInt64_other by (apply not_priorityCounter; [done | apply other_counters]). done.
    + unfold ret, send_concentratorIn, call, modify. simpl.
      do 2 eexists. split; [reflexivity|]. split; [exact Hin|].
      intros c Hc. simpl. by apply Hfin.
  - unfold bind, call, atomic_AddInt64, modify. simpl.
    do 2 eexists. split; [reflexivity|]. split; [exact Hin|].
    intros c Hc. simpl. apply Hfin; [done|]. intros c0 Hc0.
    rewrite !AddInt64_other by (apply not_priorityCounter; [done | apply other_counters]). done.
Qed.

(** X6.  A non-empty trace that the blacklister lets through reaches the
    concentrator whatever the samplers decide.  What the concentrator
    receives was fixed before the samplers ran: the weights were taken from
    the spans as [prepare] left them, and the environment is the one of the
    trace if it names one, the default environment of the configuration if
    not. *)
Theorem Process_concentrator_input (t : pb.Trace) (w : World) :
  t <> [] ->
  Blacklister_Allows (heap w) (GetRoot (heap w) t) = true ->
  let root := GetRoot (heap w) t in
  exists pt w1 w',
    prepare t root (countedPriority t w) = (Done pt, w1) /\
    Process t w = (Done tt, w') /\
    concentratorIn w' =
      concentratorIn w ++
        [stats.mkInput (NewWeightedTrace (heap w1) t root) (pt_Sublayers pt)
           (if negb (String.eqb (GetEnv (heap w1) t) "") then GetEnv (heap w1) t
            else DefaultEnv (conf w))].
Proof.
  intros Ht Hallow. cbv zeta.
  unfold Process, countedPriority. rewrite (length_nonzero t Ht).
  destruct w as [h0 e0 cf rl st out so ci gs cs0]. simpl in *.
  unfold bind at 1, gets at 1. simpl.
  unfold bind at 1, gets at 1. simpl.
  destruct (sampler_GetSamplingPriority _) as [priority hasPriority].
  unfold bind at 1, atomic_AddInt64 at 1, modify at 1. simpl.
  unfold bind at 1, gets at 1. simpl. rewrite Hallow. simpl.
  unfold bind at 1. unfold bind at 1.
  match goal with |- context [prepare t ?r ?W] =>
    destruct (prepare_result t r W) as (pt & h & Hprep & Hpt) end.
  rewrite Hprep. simpl. unfold bind at 1.
  destruct (0 <=? priority)%float.
  - match goal with |- context [sample ?ts pt ?W] =>
      destruct (sample_shape ts pt W)
        as (sampled & rate & w1 & events & n & e' & h' & cs & _ & _ & ->) end.
    simpl. unfold send_concentratorIn, call, modify. simpl.
    exists pt. do 2 eexists. split; [reflexivity|].
    split; [reflexivity|]. simpl. rewrite Hpt at 1 2 3. done.
  - unfold ret, send_concentratorIn, call, modify. simpl.
    exists pt. do 2 eexists. split; [reflexivity|].
    split; [reflexivity|]. simpl. rewrite Hpt at 1 2 3. done.
Qed.

End AgentProofs.

(** * The count a client announces *)


Section ReceiverProofs.

Context {C : Collaborators}.

Lemma Header_Get_Some (req : Request) (key s : string) :
  Header req !! key = Some s -> Header_Get req key = s.
Proof. unfold Header_Get. by intros ->. Qed.

(** X7.  A count written in decimal notation is read back as it was written,
    negative counts too: [traceCount] returns the number, logs nothing and
    changes nothing. *)
Theorem traceCount_decimal (req : Request) (z : Z) (w : World) :
  - 2 ^ 63 <= z < 2 ^ 63 ->
  Header req !! headerTraceCount = Some (pretty z) ->
  traceCount req w = (Done z, w).
Proof.
  intros Hz Hh. unfold traceCount. rewrite (Header_Get_Some _ _ _ Hh).
  destruct (String.eqb_spec (pretty z) "") as [He|_]; [by apply pretty_Z_nonempty in He|].
  rewrite strconv_Atoi_pretty by done. unfold bind, ret. done.
Qed.

(** X8.  A count with a byte that is not a decimal digit -- a sign in front
    apart -- after at most 19 bytes is read as 0, and the error goes to the
    log: a payload that announces [12a], [1.5] or [ 12] traces announces
    none.  The bound is there because [strconv.Atoi] reads from left to
    right and stops at the first error: 19 bytes cannot take the value out
    of the range of [uint64], more digits can, and the count is then the
    bound of the range whatever follows. *)
Theorem traceCount_malformed (req : Request) (pre post : string) (c : ascii)
    (w : World) :
  Header req !! headerTraceCount = Some (pre +:+ String c post) ->
  digitValue c = None ->
  pre <> "" \/ (c <> "-"%char /\ c <> "+"%char) ->
  (String.length pre <= 19)%nat ->
  traceCount req w =
    (Done 0, setCalls (calls w ++ [CallLog Error "Error parsing %q HTTP header: %s"]) w).
Proof.
  intros Hh Hc Hsign Hlen. unfold traceCount. rewrite (Header_Get_Some _ _ _ Hh).
  destruct (String.eqb_spec (pre +:+ String c post) "") as [He|_].
  { by apply sapp_cons_nonempty in He. }
  destruct (strconv_Atoi_not_digit pre post c Hc Hsign Hlen) as (msg & ->).
  reflexivity.
Qed.

(** X9.  A count beyond the range of [int64] is read as the nearest bound of the
    range, and the error goes to the log. *)
Theorem traceCount_out_of_range (req : Request) (z : Z) (w : World) :
  2 ^ 63 <= z \/ z < - 2 ^ 63 ->
  Header req !! headerTraceCount = Some (pretty z) ->
  traceCount req w =
    (Done (if 0 <=? z then 2 ^ 63 - 1 else - 2 ^ 63),
     setCalls (calls w ++ [CallLog Error "Error parsing %q HTTP header: %s"]) w).
Proof.
  intros Hz Hh. unfold traceCount. rewrite (Header_Get_Some _ _ _ Hh).
  destruct (String.eqb_spec (pretty z) "") as [He|_]; [by apply pretty_Z_nonempty in He|].
  destruct (strconv_Atoi_pretty_large z Hz) as (msg & ->).
  reflexivity.
Qed.

(** * Payloads the receiver refuses, and payloads it accepts *)

(** X10.  A payload the rate limiter refuses is answered with the status the
    receiver was configured with and is otherwise ignored: its body is not
    decoded, no counter of the receiver moves, nothing is sent on and no
    goroutine is started; the refusal is counted in the metric
    [payload_refused]. *)
Theorem handleTraces_rate_limited (v : Version) (w : ResponseWriter) (req : Request)
    (st : World) :
  fst (RateLimiter_Permits (reportedTraceCount req) (ext st)) = false ->
  Status w = None ->
  exists w' st', handleTraces v w req st = (Done w', st') /\
    Status w' = Some (rateLimiterResponse st) /\
    heap st' = heap st /\
    receiverStats st' = receiverStats st /\
    receiverOut st' = receiverOut st /\
    goroutines st' = goroutines st /\
    ext st' = snd (RateLimiter_Permits (reportedTraceCount req) (ext st)) /\
    last (calls st') =
      Some (CallMetricsCount "datadog.trace_agent.receiver.payload_refused" 1).
Proof.
  intros Hrefuse Hw. unfold handleTraces, bind at 1.
  destruct (traceCount_run req st) as (cs1 & ->).
  destruct st as [h0 e0 cf rl rs out so ci gs cs0]. simpl in *.
  unfold bind at 1. simpl.
  destruct (RateLimiter_Permits _ e0) as [permits e1]. simpl in Hrefuse. subst permits.
  simpl. unfold bind at 1, gets at 1. simpl.
  destruct w as [status written]. simpl in Hw. subst status.
  destruct v; unfold replyOK, httpRateByService, bind, gets, call, modify, ret; simpl;
    do 2 eexists; (split; [reflexivity|]); simpl;
    rewrite last_snoc; by repeat split.
Qed.

(** X11.  A payload that the rate limiter lets in and that decodes is accounted
    for under the tags of the request: [TracesReceived] goes up by the
    number of traces, [TracesBytes] by the number of bytes read from the
    body, [PayloadAccepted] by one, each as [atomic.AddInt64] adds, and
    nothing else moves.  The handler itself sends no trace on: it starts
    one goroutine that will.  The count the rate limiter is asked about is
    the one [traceCount] reads in the header. *)
Theorem handleTraces_accepted (v : Version) (w : ResponseWriter) (req : Request)
    (st : World) (d : Decoded pb.Traces) (st2 : World) (traces : pb.Traces) :
  let n := reportedTraceCount req in
  fst (RateLimiter_Permits n (ext st)) = true ->
  decodeTraces v req
    (setExt (snd (RateLimiter_Permits n (ext st))) (snd (traceCount req st))) =
    (Done d, st2) ->
  Result d = inr traces ->
  exists w' st', handleTraces v w req st = (Done w', st') /\
    heap st' = heap st2 /\
    goroutines st' = goroutines st ++ [GoProcessTraces (tagStats req) traces] /\
    receiverOut st' = receiverOut st /\
    (forall tags c,
       receiverStats st' tags c =
         let n := receiverStats st tags c in
         if decide (tags = tagStats req) then
           match c with
           | info.TracesReceived => int64 (n + Z.of_nat (length traces))
           | info.TracesBytes => int64 (n + BytesRead d)
           | info.PayloadAccepted => int64 (n + 1)
           | _ => n
           end
         else n).
Proof.
  cbv zeta. intros Hpermit Hdec Hres. unfold handleTraces, bind at 1.
  destruct (traceCount_run req st) as (cs1 & Htc). rewrite Htc in Hdec |- *.
  destruct st as [h0 e0 cf rl rs out so ci gs cs0]. simpl in *.
  unfold bind at 1. simpl.
  destruct (RateLimiter_Permits _ e0) as [permits e1]. simpl in Hpermit. subst permits.
  simpl in *. unfold bind at 1.
  match goal with |- context [decodeTraces v req ?W] =>
    destruct (decodeTraces_run v req W) as (d' & h & cs2 & Hrun) end.
  unfold setExt, setCalls, setHeap in Hdec, Hrun |- *. simpl in Hdec, Hrun |- *.
  rewrite Hdec in Hrun. injection Hrun as -> ->. rewrite Hdec, Hres.
  destruct v; unfold replyOK, httpRateByService, bind, gets, atomic_AddInt64, go, call,
    modify, ret; simpl;
    do 2 eexists; (split; [reflexivity|]); simpl;
    (split; [reflexivity|]); (split; [reflexivity|]); (split; [reflexivity|]);
    intros tags c; unfold info.AddInt64; cbv zeta;
    destruct (decide (tags = tagStats req)) as [->|Hne];
    destruct c; repeat case_decide; try done;
    repeat match goal with H : _ /\ _ |- _ => destruct H end;
    try congruence;
    try (exfalso; match goal with H : ~ (_ /\ _) |- _ => apply H; by split end).
Qed.

(** * The goroutine that hands the traces on *)




End ReceiverProofs.

Section HandlerProofs.

Context {C : Collaborators}.

Variable httpFormatError : ResponseWriter -> Version -> error -> ResponseWriter.

(** X13.  A msgpack payload is turned away from the endpoints of versions 0.1 and
    0.2 before their handler runs: the rate limiter is not asked, nothing
    is decoded or counted, and the state is as it was.  On the later
    versions it goes to the handler as it came. *)
Theorem httpHandleWithVersion_msgpack (v : Version)
    (f : Version -> ResponseWriter -> Request -> M ResponseWriter)
    (w : ResponseWriter) (req : Request) (st : World) :
  mime_ParseMediaType (Header_Get req "Content-Type") = inr "application/msgpack" ->
  httpHandleWithVersion httpFormatError v f w req st =
    if decide (v = v01 \/ v = v02)
    then (Done (httpFormatError w v (ErrOther "unsupported media type: %q")), st)
    else f v w req st.
Proof.
  intros Hmt. unfold httpHandleWithVersion, httpHandle, bind, getMediaType.
  rewrite Hmt. unfold ret. simpl.
  destruct v; simpl; reflexivity.
Qed.

End HandlerProofs.

(** * The shape of what [tracesFromSpans] returns *)

Lemma sum_list_perm (l l' : list nat) : l ≡ₚ l' -> sum_list l = sum_list l'.
Proof. induction 1; simpl; lia. Qed.

Lemma entries_insert_new (byID : gmap Z (list pb.addr)) (id : Z) (l : list pb.addr) :
  byID !! id = None -> entries (<[id := l]> byID) = (length l + entries byID)%nat.
Proof.
  intros Hn. unfold entries.
  rewrite (sum_list_perm _ (length <$> (snd <$> ((id, l) :: map_to_list byID)))).
  - done.
  - by rewrite map_to_list_insert.
Qed.

Lemma entries_insert (byID : gmap Z (list pb.addr)) (id : Z) (s : pb.addr) :
  entries (<[id := default [] (byID !! id) ++ [s]]> byID) = S (entries byID).
Proof.
  destruct (byID !! id) as [l|] eqn:Hl; simpl.
  - rewrite <- (insert_delete_eq byID id (l ++ [s])).
    rewrite entries_insert_new by apply lookup_delete_eq.
    rewrite <- (insert_delete_id byID id l Hl) at 2.
    rewrite entries_insert_new by apply lookup_delete_eq.
    rewrite length_app. simpl. lia.
  - by rewrite entries_insert_new.
Qed.

(** Every round of the loop files one pointer, in a trace that is then not
    empty. *)
Lemma groupStep_entries (s : pb.addr) (spans : list pb.Span)
    (byID : gmap Z (list pb.addr)) (h : pb.Heap) :
  (forall id l, byID !! id = Some l -> l <> []) ->
  let st := foldl (groupStep s) (byID, h) spans in
  (forall id l, fst st !! id = Some l -> l <> []) /\
  entries (fst st) = (entries byID + length spans)%nat.
Proof.
  intros Hinit. induction spans as [|x spans IH] using rev_ind; cbv zeta.
  - simpl. split; [done|lia].
  - rewrite foldl_snoc. cbv zeta in IH.
    destruct (foldl (groupStep s) (byID, h) spans) as [byID' h'].
    destruct IH as (Hne & Hsum). simpl in *.
    rewrite deref_store_same. split.
    + intros id l. destruct (decide (pb.TraceID x = id)) as [<-|Hd].
      * rewrite lookup_insert_eq. intros [= <-]. by intros [_ ?]%app_eq_nil.
      * rewrite lookup_insert_ne by done. apply Hne.
    + rewrite entries_insert, Hsum, length_app. simpl. lia.
Qed.

(** X14.  [tracesFromSpans] returns one trace for each trace ID that occurs in
    the input, none of them empty, and as many pointers in all as the input
    has spans. *)
Theorem tracesFromSpans_shape (spans : list pb.Span) (h : pb.Heap) :
  let traces := fst (tracesFromSpans spans h) in
  length traces = size (list_to_set (pb.TraceID <$> spans) : gset Z) /\
  Forall (fun t => t <> []) traces /\
  sum_list (length <$> traces) = length spans.
Proof.
  cbv zeta. split; [apply tracesFromSpans_one_per_id|].
  rewrite tracesFromSpans_unfold. cbv zeta. simpl fst.
  pose proof (groupStep_entries (pb.next h) spans ∅
                (snd (pb.alloc pb.zeroSpan h))) as Hf.
  cbv zeta in Hf. destruct (foldl _ _ _) as [byID h'].
  destruct Hf as (Hne & Hsum); [intros ??; by rewrite lookup_empty|].
  simpl in *. split.
  - apply Forall_forall. intros t ([id t'] & -> & Hin%elem_of_map_to_list)%list_elem_of_fmap.
    by eapply Hne.
  - unfold entries in Hsum. rewrite map_to_list_empty in Hsum. simpl in Hsum.
    exact Hsum.
Qed.

(** * The languages the receiver has seen *)

Lemma ascii_compare_N (a b : ascii) :
  Ascii.compare a b = N.compare (N_of_ascii a) (N_of_ascii b).
Proof. reflexivity. Qed.

Lemma string_compare_lt_trans (a b c : string) :
  String.compare a b = Lt -> String.compare b c = Lt -> String.compare a c = Lt.
Proof.
  revert b c. induction a as [|x a IH]; intros [|y b] [|z c]; simpl; try done.
  rewrite !ascii_compare_N.
  destruct (N.compare_spec (N_of_ascii x) (N_of_ascii y)) as [Hxy|Hxy|Hxy];
    destruct (N.compare_spec (N_of_ascii y) (N_of_ascii z)) as [Hyz|Hyz|Hyz];
    destruct (N.compare_spec (N_of_ascii x) (N_of_ascii z)) as [Hxz|Hxz|Hxz];
    try done; try lia.
  apply IH.
Qed.

Lemma string_le_lt (a b : string) :
  string_le a b <-> a = b \/ String.compare a b = Lt.
Proof.
  unfold string_le, String.leb.
  destruct (String.compare a b) eqn:Hc.
  - apply String.compare_eq_iff in Hc. naive_solver.
  - naive_solver.
  - split; [done|]. intros [->|?]; [|done].
    assert (String.compare b b = Eq) as Hb; [|congruence].
    clear Hc. induction b as [|x b IH]; [done|]. simpl.
    rewrite ascii_compare_N, N.compare_refl. done.
Qed.

Lemma string_le_trans : Transitive string_le.
Proof.
  intros a b c [->|Hab]%string_le_lt [->|Hbc]%string_le_lt; apply string_le_lt; auto.
  right. by eapply string_compare_lt_trans.
Qed.

Lemma string_le_total : Total string_le.
Proof. intros a b. apply String.leb_total. Qed.

Lemma string_le_antisym : AntiSymm (=) string_le.
Proof. intros a b. apply String.leb_antisym. Qed.

(** [sort.Strings] returns the one increasing arrangement of its input. *)
Lemma sort_Strings_sorted (a : list string) :
  Sorted string_le (sort_Strings a) /\ sort_Strings a ≡ₚ a.
Proof.
  split.
  - apply (@Sorted_merge_sort _ string_le _ string_le_total).
  - apply merge_sort_Permutation.
Qed.

Lemma sort_Strings_perm (a b : list string) :
  a ≡ₚ b -> sort_Strings a = sort_Strings b.
Proof.
  intros Hp.
  apply (@Sorted_unique _ string_le string_le_trans string_le_antisym);
    try apply sort_Strings_sorted.
  destruct (sort_Strings_sorted a) as [_ ->].
  destruct (sort_Strings_sorted b) as [_ ->]. done.
Qed.

Lemma strictly_sorted (l : list string) :
  StronglySorted string_le l -> NoDup l ->
  StronglySorted (fun a b => String.ltb a b = true) l.
Proof.
  induction 1 as [|x l Hl IH Hx]; intros Hnd; [constructor|].
  apply NoDup_cons in Hnd as [Hx' Hl'].
  constructor; [by apply IH|].
  apply Forall_forall. intros y Hy.
  rewrite Forall_forall in Hx. specialize (Hx y Hy).
  apply string_le_lt in Hx as [->|Hlt]; [by destruct Hx'|].
  unfold String.ltb. by rewrite Hlt.
Qed.

(** The loop collects every language once. *)
Lemma languageStep_fold (keys : list info.Tags) (langs : gmap string bool)
    (str : list string) :
  NoDup str -> (forall l, is_Some (langs !! l) <-> l ∈ str) ->
  let st := foldl languageStep (langs, str) keys in
  NoDup (snd st) /\
  (forall l, is_Some (fst st !! l) <-> l ∈ snd st) /\
  (forall l, l ∈ snd st <-> l ∈ str \/ l ∈ info.Lang <$> keys).
Proof.
  revert langs str. induction keys as [|tags keys IH]; intros langs str Hnd Hdom; cbv zeta.
  - simpl. split; [done|]. split; [done|]. intros l. rewrite elem_of_nil. tauto.
  - simpl. destruct (langs !! info.Lang tags) as [b|] eqn:Hl.
    + destruct (IH langs str Hnd Hdom) as (H1 & H2 & H3). split; [done|]. split; [done|].
      intros l. rewrite H3, elem_of_cons.
      assert (info.Lang tags ∈ str) by (apply Hdom; by eexists).
      intuition (subst; auto).
    + assert (info.Lang tags ∉ str) as Hnew.
      { intros [b Hb]%Hdom. congruence. }
      destruct (IH (<[info.Lang tags := true]> langs) (str ++ [info.Lang tags]))
        as (H1 & H2 & H3).
      * apply NoDup_app. split; [done|]. split; [|apply NoDup_singleton].
        intros l Hin ->%list_elem_of_singleton. done.
      * intros l. rewrite elem_of_app, list_elem_of_singleton.
        destruct (decide (l = info.Lang tags)) as [->|Hne].
        -- rewrite lookup_insert_eq. split; [auto|by eexists].
        -- rewrite lookup_insert_ne by done. rewrite Hdom. intuition congruence.
      * split; [done|]. split; [done|].
        intros l. rewrite H3, elem_of_app, list_elem_of_singleton, elem_of_cons.
        tauto.
Qed.

Lemma Languages_unfold (keys : list info.Tags) :
  exists str, Languages keys = strings_Join (sort_Strings str) "|" /\
    NoDup str /\ forall l, l ∈ str <-> l ∈ info.Lang <$> keys.
Proof.
  unfold Languages.
  pose proof (languageStep_fold keys ∅ []) as H. cbv zeta in H.
  destruct (foldl languageStep (∅, []) keys) as [langs str].
  destruct H as (H1 & _ & H3).
  - apply NoDup_nil_2.
  - intros l. rewrite lookup_empty, elem_of_nil. split; [by intros [??]|done].
  - exists str. split; [done|]. split; [done|].
    intros l. rewrite H3, elem_of_nil. simpl in *. tauto.
Qed.

(** X15.  The result of [Languages] is the list of the languages of the tags,
    each once, in strictly increasing order, joined by [|].  The language of
    a client that sent none is the empty string and is listed like any
    other. *)
Theorem Languages_sorted (keys : list info.Tags) :
  exists langs,
    Languages keys = strings_Join langs "|" /\
    StronglySorted (fun a b => String.ltb a b = true) langs /\
    forall l, l ∈ langs <-> exists tags, tags ∈ keys /\ info.Lang tags = l.
Proof.
  destruct (Languages_unfold keys) as (str & -> & Hnd & Hin).
  exists (sort_Strings str). split; [done|].
  destruct (sort_Strings_sorted str) as [Hs Hp]. split.
  - apply strictly_sorted; [|by rewrite Hp].
    by apply (@Sorted_StronglySorted _ string_le string_le_trans).
  - intros l. rewrite Hp, Hin, list_elem_of_fmap.
    split; intros (tags & ? & ?); by exists tags.
Qed.

(** X16.  The order in which the tags are visited has no part in the result. *)
Theorem Languages_order (keys keys' : list info.Tags) :
  keys ≡ₚ keys' -> Languages keys = Languages keys'.
Proof.
  intros Hp.
  destruct (Languages_unfold keys) as (str & -> & Hnd & Hin).
  destruct (Languages_unfold keys') as (str' & -> & Hnd' & Hin').
  f_equal. apply sort_Strings_perm. apply NoDup_Permutation; [done..|].
  intros l. rewrite Hin, Hin'. by rewrite Hp.
Qed.

(** * Network addresses of a container *)

Section DockerProofs.

Context {CD : dockerutil.ContainerData} {DM : dockerutil.Daemon}.

(** The loop over the ports, as a whole. *)
Lemma portStep_fold (ports : list types.Port)
    (addrList tempAddrList : list dockerutil.NetworkAddress) (logs : list dockerutil.LogLine) :
  exists logs',
    foldl (dockerutil.portStep) (addrList, tempAddrList, logs) ports =
      (addrList ++ omap (dockerutil.hostAddress) ports,
       tempAddrList ++
         ((fun port => dockerutil.mkNetworkAddress None
                         (types.PrivatePort port) (types.Type_ port))
            <$> filter (fun port => dockerutil.isExposed port = false) ports),
       logs').
Proof.
  revert addrList tempAddrList logs.
  induction ports as [|port ports IH]; intros addrList tempAddrList logs; simpl.
  - exists logs. by rewrite !app_nil_r.
  - unfold dockerutil.hostAddress at 1.
    destruct (dockerutil.isExposed port) eqn:He; simpl;
      [rewrite filter_cons_False by (by rewrite He)
      |rewrite filter_cons_True by done].
    + destruct (dockerutil.net_ParseIP (types.IP port)) as [ip|]; simpl.
      * destruct (IH (addrList ++
                   [dockerutil.mkNetworkAddress (Some ip) (types.PublicPort port)
                      (types.Type_ port)]) tempAddrList logs) as (logs' & ->).
        exists logs'. by rewrite <- app_assoc.
      * destruct (IH addrList tempAddrList
                   (logs ++ [dockerutil.Warnf "Unable to parse IP: %v for container: %s"]))
          as (logs' & ->).
        by exists logs'.
    + destruct (IH addrList
                 (tempAddrList ++
                    [dockerutil.mkNetworkAddress None (types.PrivatePort port)
                       (types.Type_ port)]) logs) as (logs' & ->).
      exists logs'. simpl. by rewrite <- app_assoc.
Qed.

(** The inner loop: one address per port put aside. *)
Lemma tempAddrList_fold (ip : net.IP) (addrList tempAddrList : list dockerutil.NetworkAddress) :
  foldl (fun addrList addr =>
           addrList ++ [dockerutil.mkNetworkAddress (Some ip)
                          (dockerutil.NA_Port addr) (dockerutil.NA_Protocol addr)])
        addrList tempAddrList =
    addrList ++ ((fun addr => dockerutil.mkNetworkAddress (Some ip)
                    (dockerutil.NA_Port addr) (dockerutil.NA_Protocol addr))
                   <$> tempAddrList).
Proof.
  revert addrList. induction tempAddrList as [|a l IH]; intros addrList; simpl.
  - by rewrite app_nil_r.
  - rewrite IH. by rewrite <- app_assoc.
Qed.

(** The loop over the networks, as a whole. *)
Lemma networkStep_fold (ports : list types.Port)
    (networks : list (string * types.EndpointSettings))
    (addrList : list dockerutil.NetworkAddress) (logs : list dockerutil.LogLine) :
  exists logs',
    foldl (dockerutil.networkStep
             ((fun port => dockerutil.mkNetworkAddress None
                             (types.PrivatePort port) (types.Type_ port))
                <$> ports))
          (addrList, logs) networks =
      (addrList ++
         (ip ← omap (dockerutil.networkIP) networks;
          dockerutil.networkAddress ip <$> ports),
       logs').
Proof.
  revert addrList logs.
  induction networks as [|network networks IH]; intros addrList logs; simpl.
  - exists logs. by rewrite app_nil_r.
  - unfold dockerutil.networkIP at 1.
    destruct (String.eqb _ ""); simpl.
    + apply IH.
    + destruct (dockerutil.net_ParseIP _) as [ip|]; simpl; [|apply IH].
      rewrite tempAddrList_fold.
      edestruct IH as (logs' & ->).
      exists logs'. rewrite <- app_assoc. do 2 f_equal.
      rewrite <- list_fmap_compose. done.
Qed.

(** The addresses [parseContainerNetworkAddresses] returns, in order: the
    host addresses of the exposed ports, then, network by network, the
    addresses of the other ports. *)
Lemma parseContainerNetworkAddresses_unfold (ports : list types.Port)
    (networks : list (string * types.EndpointSettings)) (container : string) :
  networks <> [] ->
  fst (dockerutil.parseContainerNetworkAddresses ports
         (Some (types.mkSummaryNetworkSettings networks)) container) =
    omap (dockerutil.hostAddress) ports ++
    (ip ← omap (dockerutil.networkIP) networks;
     dockerutil.networkAddress ip
       <$> filter (fun port => dockerutil.isExposed port = false) ports).
Proof.
  intros Hn. unfold dockerutil.parseContainerNetworkAddresses. simpl.
  destruct networks as [|n networks]; [done|].
  replace (Z.of_nat (length (n :: networks)) =? 0) with false
    by (symmetry; apply Z.eqb_neq; simpl length; lia).
  destruct (portStep_fold ports [] [] []) as (logs1 & ->).
  cbv beta iota. rewrite !app_nil_l.
  destruct (networkStep_fold
              (filter (fun port => dockerutil.isExposed port = false) ports)
              (n :: networks)
              (omap (dockerutil.hostAddress) ports) logs1) as (logs2 & ->).
  done.
Qed.

(** X17.  An address is returned exactly when the container has network settings
    with some network and the address is either the host IP and public port
    of an exposed port, or the IP of a network and the private port of a port
    that is not exposed.  Without a network even the exposed ports give
    nothing. *)
Theorem parseContainerNetworkAddresses_elem (ports : list types.Port)
    (netSettings : option types.SummaryNetworkSettings) (container : string)
    (a : dockerutil.NetworkAddress) :
  a ∈ fst (dockerutil.parseContainerNetworkAddresses ports netSettings container)
  <->
  exists ns, netSettings = Some ns /\ types.Networks ns <> [] /\
    ((exists port ip, port ∈ ports /\
        (0 <? types.PublicPort port) = true /\ types.IP port <> "" /\
        dockerutil.net_ParseIP (types.IP port) = Some ip /\
        a = dockerutil.mkNetworkAddress (Some ip) (types.PublicPort port)
              (types.Type_ port))
     \/
     (exists port network ip, port ∈ ports /\ network ∈ types.Networks ns /\
        dockerutil.isExposed port = false /\
        types.IPAddress (snd network) <> "" /\
        dockerutil.net_ParseIP (types.IPAddress (snd network)) = Some ip /\
        a = dockerutil.mkNetworkAddress (Some ip) (types.PrivatePort port)
              (types.Type_ port))).
Proof.
  destruct netSettings as [[networks]|]; cycle 1.
  { simpl. split; [by intros ?%elem_of_nil|]. by intros (ns & ? & _). }
  destruct (decide (networks = [])) as [->|Hn].
  { simpl. split; [by intros ?%elem_of_nil|]. intros (ns & [= <-] & Hne & _). done. }
  rewrite parseContainerNetworkAddresses_unfold by done.
  rewrite elem_of_app, list_elem_of_omap, list_elem_of_bind.
  split.
  - intros H. eexists. split; [done|]. split; [done|]. simpl.
    destruct H as [(port & Hport & Hh)|(ip & Ha & Hip)].
    + left. unfold dockerutil.hostAddress in Hh.
      destruct (dockerutil.isExposed port) eqn:He; [|done].
      destruct (dockerutil.net_ParseIP (types.IP port)) as [ip|] eqn:Hip; [|done].
      simpl in Hh. injection Hh as <-.
      unfold dockerutil.isExposed in He. apply andb_true_iff in He as [Hp Hi].
      exists port, ip. repeat split; try done.
      intros Heq. rewrite Heq in Hi. done.
    + right. apply list_elem_of_omap in Hip as (network & Hnw & Hip).
      apply list_elem_of_fmap in Ha as (port & -> & Hport).
      apply list_elem_of_filter in Hport as [He Hport].
      unfold dockerutil.networkIP in Hip.
      destruct (String.eqb_spec (types.IPAddress (snd network)) ""); [done|].
      by exists port, network, ip.
  - intros (ns & [= <-] & _ & H). simpl in H.
    destruct H as [(port & ip & Hport & Hp & Hi & Hip & ->)
                  |(port & network & ip & Hport & Hnw & He & Hi & Hip & ->)].
    + left. exists port. split; [done|]. unfold dockerutil.hostAddress, dockerutil.isExposed.
      rewrite Hp, Hip. simpl.
      destruct (String.eqb_spec (types.IP port) ""); done.
    + right. exists ip. split.
      * apply list_elem_of_fmap. exists port. split; [done|].
        by apply list_elem_of_filter.
      * apply list_elem_of_omap. exists network. split; [done|].
        unfold dockerutil.networkIP.
        destruct (String.eqb_spec (types.IPAddress (snd network)) ""); done.
Qed.

(** X18.  The number of addresses: one per exposed port whose host IP parses, and
    one per pair of a port that is not exposed and a network whose IP is
    given and parses; none at all without a network. *)
Theorem parseContainerNetworkAddresses_length (ports : list types.Port)
    (networks : list (string * types.EndpointSettings)) (container : string) :
  length (fst (dockerutil.parseContainerNetworkAddresses ports
                 (Some (types.mkSummaryNetworkSettings networks)) container)) =
    if decide (networks = []) then 0%nat
    else (length (omap (dockerutil.hostAddress) ports) +
          length (omap (dockerutil.networkIP) networks) *
          length (filter (fun port => dockerutil.isExposed port = false) ports))%nat.
Proof.
  destruct (decide (networks = [])) as [->|Hn]; [done|].
  rewrite parseContainerNetworkAddresses_unfold by done.
  rewrite length_app. f_equal.
  induction (omap (dockerutil.networkIP) networks) as [|ip ips IH]; [done|].
  change (length ((dockerutil.networkAddress ip
                     <$> filter (fun port => dockerutil.isExposed port = false) ports) ++
                  (ips ≫= fun ip => dockerutil.networkAddress ip
                     <$> filter (fun port => dockerutil.isExposed port = false) ports)) =
          (length (filter (fun port => dockerutil.isExposed port = false) ports) +
           length ips * length (filter (fun port => dockerutil.isExposed port = false) ports))%nat).
  rewrite length_app, length_fmap, IH. done.
Qed.

(** X19.  The order in which the networks are visited only changes the order of
    the addresses, not the addresses nor how often each occurs. *)
Theorem parseContainerNetworkAddresses_order (ports : list types.Port)
    (networks networks' : list (string * types.EndpointSettings))
    (container : string) :
  networks ≡ₚ networks' ->
  fst (dockerutil.parseContainerNetworkAddresses ports
         (Some (types.mkSummaryNetworkSettings networks)) container)
  ≡ₚ
  fst (dockerutil.parseContainerNetworkAddresses ports
         (Some (types.mkSummaryNetworkSettings networks')) container).
Proof.
  intros Hp. destruct (decide (networks = [])) as [->|Hn].
  { apply Permutation_nil_l in Hp as ->. done. }
  assert (networks' <> []) as Hn'.
  { intros ->. by apply Permutation_nil_r in Hp. }
  rewrite !parseContainerNetworkAddresses_unfold by done.
  apply Permutation_app_head. by rewrite Hp.
Qed.


(** * The caches of [DockerUtil] *)

(** Deleting along a list of keys. *)
Lemma deleteUnknown_foldl {V} (live : gset string) (keys : list string)
    (m : gmap string V) (k : string) :
  foldl (fun m k => if decide (k ∈ live) then m else delete k m) m keys !! k =
    if decide (k ∈ keys /\ k ∉ live) then None else m !! k.
Proof.
  revert m. induction keys as [|k' keys IH]; intros m; cbn [foldl].
  - rewrite decide_False; [done|]. by intros [?%elem_of_nil _].
  - rewrite IH. destruct (decide (k' ∈ live)) as [Hl|Hl].
    + destruct (decide (k ∈ keys /\ k ∉ live)) as [[Hk Hn]|Hn].
      * rewrite decide_True; [done|]. split; [by right|done].
      * rewrite decide_False; [done|].
        intros [[->|Hk]%elem_of_cons Hk']; [done|]. by apply Hn.
    + destruct (decide (k ∈ keys /\ k ∉ live)) as [[Hk Hn]|Hn].
      * rewrite decide_True; [done|]. split; [by right|done].
      * destruct (decide (k = k')) as [->|Hne].
        -- rewrite lookup_delete_eq. rewrite decide_True; [done|].
           split; [by left|done].
        -- rewrite lookup_delete_ne by done.
           rewrite decide_False; [done|].
           intros [[->|Hk]%elem_of_cons Hk']; [done|]. by apply Hn.
Qed.

(** What the loop over a cache leaves: the entries whose key is known. *)
Lemma deleteUnknown_lookup {V} (live : gset string) (m : gmap string V) (k : string) :
  dockerutil.deleteUnknown live m !! k = if decide (k ∈ live) then m !! k else None.
Proof.
  unfold dockerutil.deleteUnknown. rewrite deleteUnknown_foldl.
  destruct (decide (k ∈ map fst (map_to_list m) /\ k ∉ live)) as [[Hk Hl]|Hn].
  - by rewrite decide_False.
  - destruct (decide (k ∈ live)) as [Hl|Hl]; [done|].
    destruct (m !! k) as [v|] eqn:Hm; [|done].
    exfalso. apply Hn. split; [|done].
    apply list_elem_of_fmap. exists (k, v). split; [done|].
    by apply elem_of_map_to_list.
Qed.

(** The two sets the first loop of [cleanupCaches] builds. *)
Lemma liveSets_foldl (containers : list types.Container)
    (liveContainers liveImages : gset string) :
  foldl (fun (st : gset string * gset string) c =>
           ({[types.ID c]} ∪ fst st, {[types.Image c]} ∪ snd st))
        (liveContainers, liveImages) containers =
    (list_to_set (types.ID <$> containers) ∪ liveContainers,
     list_to_set (types.Image <$> containers) ∪ liveImages).
Proof.
  revert liveContainers liveImages.
  induction containers as [|c containers IH]; intros liveContainers liveImages; simpl.
  - by rewrite !(left_id_L ∅ (∪)).
  - rewrite IH. f_equal.
    + by rewrite (assoc_L (∪)), (comm_L (∪) (list_to_set _) {[_]}).
    + by rewrite (assoc_L (∪)), (comm_L (∪) (list_to_set _) {[_]}).
Qed.

Lemma cleanupCaches_unfold (containers : list types.Container)
    (d : dockerutil.DockerUtil) :
  dockerutil.cleanupCaches containers d =
    dockerutil.mkDockerUtil (dockerutil.CollectNetwork d)
      (dockerutil.deleteUnknown (list_to_set (types.ID <$> containers))
         (dockerutil.networkMappings d))
      (dockerutil.deleteUnknown (list_to_set (types.Image <$> containers))
         (dockerutil.imageNameBySha d))
      (dockerutil.lastInvalidate d).
Proof.
  unfold dockerutil.cleanupCaches. rewrite liveSets_foldl.
  by rewrite !(right_id_L ∅ (∪)).
Qed.

(** X20.  After [cleanupCaches] each cache holds exactly the entries it held for
    the containers, respectively the images, of the list, with the values
    they had. *)
Theorem cleanupCaches_lookup (containers : list types.Container)
    (d : dockerutil.DockerUtil) (k : string) :
  dockerutil.networkMappings (dockerutil.cleanupCaches containers d) !! k =
    (if decide (k ∈ types.ID <$> containers)
     then dockerutil.networkMappings d !! k else None) /\
  dockerutil.imageNameBySha (dockerutil.cleanupCaches containers d) !! k =
    (if decide (k ∈ types.Image <$> containers)
     then dockerutil.imageNameBySha d !! k else None).
Proof.
  rewrite cleanupCaches_unfold. simpl. rewrite !deleteUnknown_lookup.
  split.
  - destruct (decide (k ∈ types.ID <$> containers)) as [Hk|Hk].
    + rewrite decide_True; [done|]. by apply elem_of_list_to_set.
    + rewrite decide_False; [done|]. by intros ?%elem_of_list_to_set.
  - destruct (decide (k ∈ types.Image <$> containers)) as [Hk|Hk].
    + rewrite decide_True; [done|]. by apply elem_of_list_to_set.
    + rewrite decide_False; [done|]. by intros ?%elem_of_list_to_set.
Qed.

(** X21.  Cleaning twice with the same list is cleaning once, and two cleanings
    with different lists can be done in either order. *)
Theorem cleanupCaches_compose (cs cs' : list types.Container)
    (d : dockerutil.DockerUtil) :
  dockerutil.cleanupCaches cs (dockerutil.cleanupCaches cs d) =
    dockerutil.cleanupCaches cs d /\
  dockerutil.cleanupCaches cs (dockerutil.cleanupCaches cs' d) =
    dockerutil.cleanupCaches cs' (dockerutil.cleanupCaches cs d).
Proof.
  rewrite !cleanupCaches_unfold. simpl.
  split; f_equal; apply map_eq; intros k; rewrite !deleteUnknown_lookup;
    repeat case_decide; done.
Qed.

End DockerProofs.

(** * The list of containers *)

(** [parseContainerHealth] never panics. *)
Lemma parseContainerHealth_total (status : string) :
  is_Some (docker.parseContainerHealth status).
Proof.
  unfold docker.parseContainerHealth.
  destruct (0 <=? docker.Index status "unhealthy"); [by eexists|].
  destruct (docker.IndexByte status "(" =? -1); [by eexists|].
  unfold docker.healthRe_FindAllStringSubmatch.
  destruct (healthRe_scan_first status) as [(g & rest & -> & _)|[-> _]];
    [|by eexists].
  match goal with |- context [(Z.of_nat (length ?l) <? 1)] =>
    replace (Z.of_nat (length l) <? 1) with false
      by (symmetry; apply Z.ltb_ge; simpl length; lia) end.
  by eexists.
Qed.

Section ListProofs.

Context {CD : dockerutil.ContainerData} {DM : dockerutil.Daemon}.

(** One round of the loop of [dockerContainers] adds no entry or the entry
    of its container. *)
Lemma containerStep_listed (cfg : dockerutil.ContainerListConfig)
    (c : types.Container) ret d logs ret' d' logs' :
  dockerutil.containerStep cfg (ret, d, logs) c = Some (ret', d', logs') ->
  ret' = ret \/ exists out, ret' = ret ++ [out] /\ dockerutil.listedAs cfg c out.
Proof.
  unfold dockerutil.containerStep.
  match goal with |- context [match ?m with Some _ => _ | None => _ end = _] =>
    destruct m as [d1|] end; [|intros [= <- _ _]; by left].
  destruct (dockerutil.ResolveImageName _ _) as [[image err] images] eqn:Hres.
  destruct (types.Names c !! 0%nat) as [name|] eqn:Hname; simpl; [|done].
  destruct (dockerutil.filter_IsExcluded name image && negb (dockerutil.FlagExcluded cfg))
    eqn:Hex; [intros [= <- _ _]; by left|].
  destruct (docker.parseContainerHealth (types.Status c)) as [health|] eqn:Hh;
    simpl; [|done].
  destruct (dockerutil.parseContainerNetworkAddresses _ _ _) as [addrs alogs] eqn:Ha.
  intros [= <- _ _]. right. eexists. split; [reflexivity|].
  unfold dockerutil.listedAs. simpl.
  repeat split; try done.
  - exists (dockerutil.imageNameBySha d1). by rewrite Hres.
  - intros Hx. rewrite Hx in Hex. simpl in Hex.
    by destruct (dockerutil.FlagExcluded cfg).
  - by rewrite Ha.
Qed.

Lemma containerLoop_listed (cfg : dockerutil.ContainerListConfig)
    (cList : list types.Container) ret d logs ret' d' logs' :
  dockerutil.forEach (dockerutil.containerStep cfg) cList (ret, d, logs) =
    Some (ret', d', logs') ->
  exists sub new, ret' = ret ++ new /\ sublist sub cList /\
    Forall2 (dockerutil.listedAs cfg) sub new.
Proof.
  revert ret d logs.
  induction cList as [|c cList IH]; intros ret d logs; cbn [dockerutil.forEach].
  - intros [= <- _ _]. exists [], []. by rewrite app_nil_r.
  - destruct (dockerutil.containerStep cfg (ret, d, logs) c) as [[[ret1 d1] logs1]|] eqn:Hs;
      simpl; [|done].
    intros (sub & new & -> & Hsub & Hall)%IH.
    apply containerStep_listed in Hs as [->|(out & -> & Hout)].
    + exists sub, new. split; [done|]. split; [by apply sublist_cons|done].
    + exists (c :: sub), (out :: new). rewrite <- app_assoc.
      split; [done|]. split; [by apply sublist_skip|by constructor].
Qed.

(** X22.  What [dockerContainers] returns is made of the daemon's list: a
    selection of its containers, in the daemon's order, each with its own
    identifier, first name, state, health parsed from its status text, and
    addresses parsed from its ports and networks.  An excluded container is
    listed only when the caller asked for it with [FlagExcluded]. *)
Theorem dockerContainers_lists (cfg : dockerutil.ContainerListConfig) (now : Z)
    (d : dockerutil.DockerUtil) (logs : list dockerutil.LogLine)
    (ret : list dockerutil.Container) (d' : dockerutil.DockerUtil)
    (logs' : list dockerutil.LogLine) :
  dockerutil.dockerContainers (Some cfg) now d logs = Some (inr ret, d', logs') ->
  exists cList sub,
    dockerutil.cli_ContainerList (dockerutil.IncludeExited cfg) = inr cList /\
    sublist sub cList /\
    Forall2 (dockerutil.listedAs cfg) sub ret.
Proof.
  unfold dockerutil.dockerContainers.
  destruct (dockerutil.cli_ContainerList _) as [e|cList]; [done|].
  destruct (dockerutil.forEach _ cList _) as [[[ret1 d1] logs1]|] eqn:Hloop;
    simpl; [|done].
  intros [= <- _ _].
  apply containerLoop_listed in Hloop as (sub & new & -> & Hsub & Hall).
  by exists cList, sub.
Qed.

Lemma containerStep_returns (cfg : dockerutil.ContainerListConfig)
    (c : types.Container) st :
  types.Names c <> [] -> is_Some (dockerutil.containerStep cfg st c).
Proof.
  intros Hn. destruct st as [[ret d] logs]. unfold dockerutil.containerStep.
  match goal with |- context [match ?m with Some _ => _ | None => _ end] =>
    destruct m as [d1|] end; [|by eexists].
  destruct (dockerutil.ResolveImageName _ _) as [[image err] images].
  destruct (types.Names c) as [|name names]; [done|]. simpl.
  destruct (_ && _); [by eexists|].
  destruct (parseContainerHealth_total (types.Status c)) as [health ->]. simpl.
  destruct (dockerutil.parseContainerNetworkAddresses _ _ _). by eexists.
Qed.

(** X23.  [dockerContainers] returns -- a list or an error -- whenever every
    container in the daemon's list has a name; the one place where it can
    panic is [c.Names[0]]. *)
Theorem dockerContainers_returns (cfg : option dockerutil.ContainerListConfig)
    (now : Z) (d : dockerutil.DockerUtil) (logs : list dockerutil.LogLine) :
  (forall cfg' cList, cfg = Some cfg' ->
     dockerutil.cli_ContainerList (dockerutil.IncludeExited cfg') = inr cList ->
     Forall (fun c => types.Names c <> []) cList) ->
  is_Some (dockerutil.dockerContainers cfg now d logs).
Proof.
  intros Hnames. unfold dockerutil.dockerContainers.
  destruct cfg as [cfg|]; [|by eexists].
  destruct (dockerutil.cli_ContainerList _) as [e|cList] eqn:Hl; [by eexists|].
  specialize (Hnames cfg cList eq_refl Hl).
  assert (forall st, is_Some (dockerutil.forEach (dockerutil.containerStep cfg) cList st))
    as Hloop.
  { clear Hl. induction Hnames as [|c cList Hc _ IH]; intros st; cbn [dockerutil.forEach];
      [by eexists|].
    destruct (containerStep_returns cfg c st Hc) as [st' ->]. simpl. apply IH. }
  destruct (Hloop ([], d, logs)) as [[[ret1 d1] logs1] ->]. simpl. by eexists.
Qed.

(** * The loops over the containers *)

Lemma passedOver_test (c : dockerutil.Container) :
  negb (String.eqb (dockerutil.C_State c) dockerutil.ContainerRunningState)
    || dockerutil.C_Excluded c = true <-> dockerutil.passedOver c.
Proof.
  unfold dockerutil.passedOver. rewrite orb_true_iff, negb_true_iff.
  destruct (String.eqb_spec (dockerutil.C_State c) dockerutil.ContainerRunningState);
    intuition congruence.
Qed.

(** The cases of a round: the container is passed over, or written to. *)
Ltac own_untouched c Hp :=
  exists c; split; [done|]; split; [done|]; split; [done|];
  rewrite Hp; by eexists.
Ltac own_written c :=
  exists c; split; [done|]; split; [done|]; split;
  [intros ? ?; by rewrite !lookup_insert_ne
  |rewrite lookup_insert_eq; by eexists].

Lemma updateStep_own (d : dockerutil.DockerUtil) :
  dockerutil.ownContainerOnly (dockerutil.updateStep d).
Proof.
  intros objs logs p objs' logs'. unfold dockerutil.updateStep, dockerutil.Objects in *.
  destruct (objs !! p) as [c|] eqn:Hp; simpl; [|done].
  pose proof (passedOver_test c) as Hpo.
  destruct (negb _ || _).
  { intros [= <- <-]. own_untouched c Hp. }
  assert (~ dockerutil.passedOver c) as Hno by (intros ?%Hpo; done).
  destruct (dockerutil.FillCgroupMetrics c) as [[e|] c1].
  - destruct (dockerutil.prefix12 _); simpl; [|done]. intros [= <- <-].
    own_written c.
  - destruct (dockerutil.CollectNetwork d).
    + destruct (dockerutil.FillNetworkMetrics _ c1) as [[e|] c2];
        intros [= <- <-]; own_written c.
    + intros [= <- <-]. own_written c.
Qed.

Lemma limitsStep_own (cgByContainer : gmap string dockerutil.Cgroup) :
  dockerutil.ownContainerOnly (dockerutil.limitsStep cgByContainer).
Proof.
  intros objs logs p objs' logs'. unfold dockerutil.limitsStep, dockerutil.Objects in *.
  destruct (objs !! p) as [c|] eqn:Hp; simpl; [|done].
  pose proof (passedOver_test c) as Hpo.
  destruct (negb _ || _).
  { intros [= <- <-]. own_untouched c Hp. }
  assert (~ dockerutil.passedOver c) as Hno by (intros ?%Hpo; done).
  destruct (cgByContainer !! dockerutil.C_ID c) as [cgroup|].
  - destruct (dockerutil.FillCgroupLimits _) as [[e|] c1].
    + destruct (dockerutil.prefix12 _); simpl; [|done]. intros [= <- <-].
      own_written c.
    + intros [= <- <-]. own_written c.
  - destruct (dockerutil.prefix12 _); simpl; [|done]. intros [= <- <-].
    own_untouched c Hp.
Qed.

(** Such a loop leaves alone every container that is passed over when the
    loop starts, and every container that is not in its list. *)
Lemma ownContainerOnly_loop step (cList : list nat) objs logs objs' logs' :
  dockerutil.ownContainerOnly step ->
  dockerutil.forEach step cList (objs, logs) = Some (objs', logs') ->
  (forall p, p ∈ cList -> is_Some (objs !! p)) /\
  (forall p c, objs !! p = Some c -> dockerutil.passedOver c -> objs' !! p = Some c) /\
  (forall p, p ∉ cList -> objs' !! p = objs !! p).
Proof.
  intros Hstep. revert objs logs.
  induction cList as [|q cList IH]; intros objs logs; cbn [dockerutil.forEach].
  - intros [= <- <-]. split; [by intros ? ?%elem_of_nil|]. by split.
  - destruct (step (objs, logs) q) as [[objs1 logs1]|] eqn:Hs; simpl; [|done].
    intros (Hin & Hpo & Hout)%IH.
    destruct (Hstep _ _ _ _ _ Hs) as (cq & Hq & Hsame & Hother & _).
    split; [|split].
    + intros p [->|Hp]%elem_of_cons; [by eexists|].
      destruct (decide (p = q)) as [->|Hne]; [by eexists|].
      rewrite <- Hother by done. by apply Hin.
    + intros p c Hp Hc. apply Hpo; [|done].
      destruct (decide (p = q)) as [->|Hne].
      * rewrite Hsame; [done|]. by replace cq with c by congruence.
      * by rewrite Hother.
    + intros p Hp. rewrite Hout by (intros ?; apply Hp; by right).
      apply Hother. intros ->. apply Hp. by left.
Qed.

(** X24.  [UpdateContainerMetrics] never returns an error: what the containers'
    methods report is logged and goes no further.  It leaves alone the
    containers that are not running or are excluded, and those that are not
    in its list. *)
Theorem UpdateContainerMetrics_result (d : dockerutil.DockerUtil) (cList : list nat)
    (objs : dockerutil.Objects) (logs : list dockerutil.LogLine)
    (err : option string) (objs' : dockerutil.Objects)
    (logs' : list dockerutil.LogLine) :
  dockerutil.UpdateContainerMetrics d cList objs logs = Some (err, objs', logs') ->
  err = None /\
  (forall p c, objs !! p = Some c -> dockerutil.passedOver c -> objs' !! p = Some c) /\
  (forall p, p ∉ cList -> objs' !! p = objs !! p).
Proof.
  unfold dockerutil.UpdateContainerMetrics.
  destruct (dockerutil.forEach _ cList _) as [[objs1 logs1]|] eqn:Hloop;
    simpl; [|done].
  intros [= <- <- <-]. split; [done|].
  eapply ownContainerOnly_loop in Hloop as (_ & ? & ?); [done|apply updateStep_own].
Qed.


(** The containers [allocContainers] stores. *)
Lemma allocContainers_lookup (ret : list dockerutil.Container) (next : nat)
    (objs : dockerutil.Objects) :
  fst (dockerutil.allocContainers ret next objs) = seq next (length ret) /\
  (forall i c, ret !! i = Some c ->
     snd (dockerutil.allocContainers ret next objs) !! (next + i)%nat = Some c) /\
  (forall p, (p < next)%nat ->
     snd (dockerutil.allocContainers ret next objs) !! p = objs !! p).
Proof.
  unfold dockerutil.allocContainers, dockerutil.Objects in *. simpl.
  split; [done|].
  revert next objs. induction ret as [|c ret IH]; intros next objs; simpl.
  - split; [by intros ? ? ?|done].
  - destruct (IH (S next) (<[next := c]> objs)) as [Hin Hout]. split.
    + intros [|i] c' Hc; simpl in Hc.
      * injection Hc as <-. rewrite Nat.add_0_r.
        rewrite Hout by lia. by rewrite lookup_insert_eq.
      * replace (next + S i)%nat with (S next + i)%nat by lia. by apply Hin.
    + intros p Hp. rewrite Hout by lia. rewrite lookup_insert_ne by lia. done.
Qed.

(** X26.  [ListContainers] returns an error only when the cgroups cannot be
    scraped or the containers cannot be listed; what happens to a
    container after that is logged and never returned.  With an error there
    is no list, and no container has been touched. *)
Theorem ListContainers_error (cfg : option dockerutil.ContainerListConfig) (now : Z)
    (d : dockerutil.DockerUtil) (next : nat) (objs : dockerutil.Objects)
    (logs : list dockerutil.LogLine) (cList : list nat) (msg : string)
    (d' : dockerutil.DockerUtil) (objs' : dockerutil.Objects)
    (logs' : list dockerutil.LogLine) :
  dockerutil.ListContainers cfg now d next objs logs =
    Some ((cList, Some msg), d', objs', logs') ->
  cList = [] /\ objs' = objs /\
  ((exists e, dockerutil.ScrapeAllCgroups = inl e) /\ d' = d /\ logs' = logs
   \/ (exists e, dockerutil.dockerContainers cfg now d logs = Some (inl e, d', logs'))).
Proof.
  unfold dockerutil.ListContainers.
  destruct dockerutil.ScrapeAllCgroups as [e|cgByContainer].
  { intros [= <- _ <- <- <-]. split; [done|]. split; [done|]. left. by eauto. }
  destruct (dockerutil.dockerContainers cfg now d logs) as [[[[e|ret] d1] logs1]|];
    cbn [mbind option_bind]; [| |done].
  { intros [= <- _ <- <- <-]. split; [done|]. split; [done|]. right. by eauto. }
  destruct (dockerutil.allocContainers ret next objs) as [cList1 objs1].
  match goal with |- context [dockerutil.forEach ?f cList1 ?st] =>
    destruct (dockerutil.forEach f cList1 st) as [[objs2 logs2]|] end;
    cbn [mbind option_bind fst snd]; [|done].
  unfold dockerutil.UpdateContainerMetrics.
  match goal with |- context [dockerutil.forEach ?f cList1 ?st] =>
    destruct (dockerutil.forEach f cList1 st) as [[objs3 logs3]|] end;
    cbn [mbind option_bind fst snd]; done.
Qed.

(** X27.  When [ListContainers] returns without an error it returns every
    container that [dockerContainers] listed, in that order and each behind
    a pointer of its own -- also those for which no cgroup was found or
    whose limits or metrics failed.  The containers that are not running or
    are excluded are returned as they were listed, and the containers that
    existed before are not touched. *)
Theorem ListContainers_returns_all (cfg : option dockerutil.ContainerListConfig)
    (now : Z) (d : dockerutil.DockerUtil) (next : nat) (objs : dockerutil.Objects)
    (logs : list dockerutil.LogLine) (cList : list nat)
    (d' : dockerutil.DockerUtil) (objs' : dockerutil.Objects)
    (logs' : list dockerutil.LogLine) :
  dockerutil.ListContainers cfg now d next objs logs =
    Some ((cList, None), d', objs', logs') ->
  exists ret logs1,
    dockerutil.dockerContainers cfg now d logs = Some (inr ret, d', logs1) /\
    cList = seq next (length ret) /\
    (forall i c, ret !! i = Some c -> dockerutil.passedOver c ->
       objs' !! (next + i)%nat = Some c) /\
    (forall p, (p < next)%nat -> objs' !! p = objs !! p).
Proof.
  unfold dockerutil.ListContainers.
  destruct dockerutil.ScrapeAllCgroups as [e|cgByContainer]; [done|].
  destruct (dockerutil.dockerContainers cfg now d logs) as [[[[e|ret] d1] logs1]|];
    cbn [mbind option_bind]; [done| |done].
  pose proof (allocContainers_lookup ret next objs) as (Hlist & Hnew & Hold).
  destruct (dockerutil.allocContainers ret next objs) as [cList1 objs1].
  cbn [fst snd] in Hlist, Hnew, Hold.
  match goal with |- context [dockerutil.forEach ?f cList1 ?st] =>
    destruct (dockerutil.forEach f cList1 st) as [[objs2 logs2]|] eqn:Hlimits end;
    cbn [mbind option_bind fst snd]; [|done].
  unfold dockerutil.UpdateContainerMetrics.
  match goal with |- context [dockerutil.forEach ?f cList1 ?st] =>
    destruct (dockerutil.forEach f cList1 st) as [[objs3 logs3]|] eqn:Hupdate end;
    cbn [mbind option_bind fst snd]; [|done].
  intros [= <- <- <- <-].
  apply ownContainerOnly_loop in Hlimits as (_ & Hpo2 & Hout2); [|apply limitsStep_own].
  apply ownContainerOnly_loop in Hupdate as (_ & Hpo3 & Hout3); [|apply updateStep_own].
  exists ret, logs1. split; [done|]. split; [done|]. split.
  - intros i c Hc Hpo. apply Hpo3; [|done]. apply Hpo2; [|done]. by apply Hnew.
  - intros p Hp.
    assert (p ∉ cList1) as Hnotin.
    { rewrite Hlist. intros ?%elem_of_seq. lia. }
    rewrite Hout3, Hout2 by done. by apply Hold.
Qed.

End ListProofs.

(** * The further properties at an input *)

(** At an input: the two networks of [/web], visited in either order. *)
Lemma parseContainerNetworkAddresses_order_witness :
  fst (dockerutil.parseContainerNetworkAddresses (types.Ports harbor.web)
         (Some (types.mkSummaryNetworkSettings
                  [("bridge", types.mkEndpointSettings "n1" "10.0.0.2");
                   ("backend", types.mkEndpointSettings "n2" "10.0.1.2")])) "/web")
  ≡ₚ
  fst (dockerutil.parseContainerNetworkAddresses (types.Ports harbor.web)
         (Some (types.mkSummaryNetworkSettings
                  [("backend", types.mkEndpointSettings "n2" "10.0.1.2");
                   ("bridge", types.mkEndpointSettings "n1" "10.0.0.2")])) "/web").
Proof.
  apply (parseContainerNetworkAddresses_order (DM := harbor.daemon)).
  apply perm_swap.
Defined.

(** At an input: the host lists its two containers. *)
Lemma dockerContainers_lists_witness :
  exists ret cList sub,
    dockerutil.cli_ContainerList (dockerutil.IncludeExited harbor.everything) = inr cList /\
    sublist sub cList /\
    Forall2 (dockerutil.listedAs harbor.everything) sub ret.
Proof.
  eexists.
  eapply (dockerContainers_lists (DM := harbor.daemon) harbor.everything 100
            harbor.util []).
  reflexivity.
Defined.

(** At an input: both containers of the host have a name. *)
Lemma dockerContainers_returns_witness :
  is_Some (dockerutil.dockerContainers (Some harbor.everything) 100 harbor.util []).
Proof.
  apply (dockerContainers_returns (DM := harbor.daemon)).
  intros cfg' cList _ [= <-]. repeat constructor; discriminate.
Defined.

(** At an input: the two containers of the host, one running, one excluded. *)
Lemma UpdateContainerMetrics_result_witness :
  exists (err : option string) (objs' : gmap nat dockerutil.Container),
    err = None /\
    (forall p c, harbor.objects !! p = Some c -> dockerutil.passedOver c ->
       objs' !! p = Some c) /\
    (forall p, p ∉ [0%nat; 1%nat] -> objs' !! p = harbor.objects !! p).
Proof.
  do 2 eexists.
  eapply (UpdateContainerMetrics_result (DM := harbor.daemon) harbor.util
            [0%nat; 1%nat] harbor.objects []).
  reflexivity.
Defined.


(** At an input: a caller that passes no configuration. *)
Lemma ListContainers_error_witness :
  [] = @nil nat /\ (∅ : dockerutil.Objects) = ∅ /\
  ((exists e, dockerutil.ScrapeAllCgroups = inl e) /\ harbor.util = harbor.util /\
     [] = @nil dockerutil.LogLine
   \/ (exists e, dockerutil.dockerContainers None 100 harbor.util [] =
                   Some (inl e, harbor.util, []))).
Proof.
  apply (ListContainers_error (DM := harbor.daemon) None 100 harbor.util 0 ∅ [] []
           "could not get docker containers: %s" harbor.util ∅ []).
  reflexivity.
Defined.

(** At an input: the host, where no cgroup is found for any container. *)
Lemma ListContainers_returns_all_witness :
  exists cList d' (objs' : gmap nat dockerutil.Container) ret logs1,
    dockerutil.dockerContainers (Some harbor.everything) 100 harbor.util [] =
      Some (inr ret, d', logs1) /\
    cList = seq 0 (length ret) /\
    (forall i c, ret !! i = Some c -> dockerutil.passedOver c ->
       objs' !! (0 + i)%nat = Some c) /\
    (forall p, (p < 0)%nat -> objs' !! p = (∅ : dockerutil.Objects) !! p).
Proof.
  do 3 eexists.
  eapply (ListContainers_returns_all (DM := harbor.daemon) (Some harbor.everything) 100
            harbor.util 0 ∅ []).
  reflexivity.
Defined.

(** At an input: a trace of one span whose resource is blacklisted. *)
Lemma Process_rejected_trace_witness :
  exists w', Process (C := demo.collaborators) [0%nat] demo.blockedWorld = (Done tt, w') /\
    heap w' = heap demo.blockedWorld /\ ext w' = ext demo.blockedWorld /\
    spansOut w' = spansOut demo.blockedWorld /\
    concentratorIn w' = concentratorIn demo.blockedWorld /\
    receiverStats w' =
      info.AddInt64 noTags info.SpansFiltered (Z.of_nat (length [0%nat]))
        (info.AddInt64 noTags info.TracesFiltered 1
           (receiverStats (countedPriority [0%nat] demo.blockedWorld))) /\
    newCalls demo.blockedWorld w' =
      [CallLog Debug "Trace rejected by blacklister. root: %v";
       CallTimingSince "datadog.trace_agent.internal.process_trace_ms"].
Proof.
  apply (Process_rejected_trace (C := demo.collaborators) [0%nat] demo.blockedWorld).
  - discriminate.
  - reflexivity.
Defined.

(** At an input: a trace of one span without priority. *)
Lemma Process_counts_priority_witness :
  exists w' stat,
    Process (C := demo.collaborators) [0%nat] demo.plainWorld = (Done tt, w') /\
    stat ∈ priorityCounters /\
    forall c, c ∈ priorityCounters ->
      receiverStats w' noTags c =
        if decide (c = stat) then int64 (receiverStats demo.plainWorld noTags c + 1)
        else receiverStats demo.plainWorld noTags c.
Proof.
  apply (Process_counts_priority (C := demo.collaborators) [0%nat] demo.plainWorld).
  discriminate.
Defined.

(** At an input: a trace of one span that the blacklister lets through. *)
Lemma Process_concentrator_input_witness :
  exists pt w1 w',
    prepare (C := demo.collaborators) [0%nat] 0%nat
      (countedPriority [0%nat] demo.plainWorld) = (Done pt, w1) /\
    Process [0%nat] demo.plainWorld = (Done tt, w') /\
    concentratorIn w' =
      concentratorIn demo.plainWorld ++
        [stats.mkInput (@NewWeightedTrace demo.collaborators (heap w1) [0%nat] 0%nat)
           (pt_Sublayers pt)
           (if negb (String.eqb (@GetEnv demo.collaborators (heap w1) [0%nat]) "")
            then @GetEnv demo.collaborators (heap w1) [0%nat]
            else DefaultEnv (conf demo.plainWorld))].
Proof.
  apply (Process_concentrator_input (C := demo.collaborators) [0%nat] demo.plainWorld).
  - discriminate.
  - reflexivity.
Defined.

(** At an input: a client that announces -12 traces. *)
Lemma traceCount_decimal_witness :
  traceCount (C := demo.collaborators)
    (mkRequest {[ headerTraceCount := "-12" ]} "") demo.plainWorld =
    (Done (-12), demo.plainWorld).
Proof.
  apply (traceCount_decimal (C := demo.collaborators)).
  - lia.
  - reflexivity.
Defined.

(** At an input: a client that announces [12a] traces. *)
Lemma traceCount_malformed_witness :
  traceCount (C := demo.collaborators)
    (mkRequest {[ headerTraceCount := "12a" ]} "") demo.plainWorld =
    (Done 0,
     setCalls (calls demo.plainWorld ++
                 [CallLog Error "Error parsing %q HTTP header: %s"]) demo.plainWorld).
Proof.
  apply (traceCount_malformed (C := demo.collaborators) _ "12" "" "a"%char).
  - reflexivity.
  - reflexivity.
  - by left.
  - simpl. lia.
Defined.

(** At an input: a client that announces 2^63 traces. *)
Lemma traceCount_out_of_range_witness :
  traceCount (C := demo.collaborators)
    (mkRequest {[ headerTraceCount := "9223372036854775808" ]} "") demo.plainWorld =
    (Done (2 ^ 63 - 1),
     setCalls (calls demo.plainWorld ++
                 [CallLog Error "Error parsing %q HTTP header: %s"]) demo.plainWorld).
Proof.
  apply (traceCount_out_of_range (C := demo.collaborators) _ (2 ^ 63)).
  - lia.
  - reflexivity.
Defined.

(** At an input: the payload of scenario S3 sent to [/v0.4/traces] while the rate
    limiter refuses. *)
Lemma handleTraces_rate_limited_witness :
  let st := demo.world harbor.refusing pb.emptyHeap demo.noLimits in
  exists w' st',
    handleTraces (C := demo.collaborators) v04 newResponseWriter demo.s3Request st =
      (Done w', st') /\
    Status w' = Some (rateLimiterResponse st) /\
    heap st' = heap st /\
    receiverStats st' = receiverStats st /\
    receiverOut st' = receiverOut st /\
    goroutines st' = goroutines st /\
    ext st' = snd (RateLimiter_Permits (reportedTraceCount demo.s3Request) (ext st)) /\
    last (calls st') =
      Some (CallMetricsCount "datadog.trace_agent.receiver.payload_refused" 1).
Proof.
  apply (handleTraces_rate_limited (C := demo.collaborators)); reflexivity.
Defined.

(** At an input: the payload of scenario S3 sent to [/v0.1/spans]. *)
Lemma handleTraces_accepted_witness :
  exists (d : Decoded pb.Traces) (st2 : @World demo.collaborators) traces w' st',
    handleTraces (C := demo.collaborators) v01 newResponseWriter demo.s3Request
      demo.plainWorld = (Done w', st') /\
    heap st' = heap st2 /\
    goroutines st' =
      goroutines demo.plainWorld ++ [GoProcessTraces (tagStats demo.s3Request) traces] /\
    receiverOut st' = receiverOut demo.plainWorld /\
    (forall tags c,
       receiverStats st' tags c =
         let n := receiverStats demo.plainWorld tags c in
         if decide (tags = tagStats demo.s3Request) then
           match c with
           | info.TracesReceived => int64 (n + Z.of_nat (length traces))
           | info.TracesBytes => int64 (n + BytesRead d)
           | info.PayloadAccepted => int64 (n + 1)
           | _ => n
           end
         else n).
Proof.
  do 3 eexists.
  eapply (handleTraces_accepted (C := demo.collaborators) v01 newResponseWriter
            demo.s3Request demo.plainWorld).
  - reflexivity.
  - vm_compute. reflexivity.
  - reflexivity.
Defined.

(** At an input: the tags of three clients, visited forwards and backwards. *)
Lemma Languages_order_witness :
  Languages harbor.clients = Languages (reverse harbor.clients).
Proof.
  apply Languages_order. by rewrite reverse_Permutation.
Defined.

(** At an input: a msgpack payload sent to [/v0.1/spans]. *)
Lemma httpHandleWithVersion_msgpack_witness :
  httpHandleWithVersion (C := demo.collaborators) harbor.formatError v01 handleTraces
    newResponseWriter harbor.msgpackRequest demo.plainWorld =
    if decide (v01 = v01 \/ v01 = v02)
    then (Done (harbor.formatError newResponseWriter v01
                  (ErrOther "unsupported media type: %q")), demo.plainWorld)
    else handleTraces v01 newResponseWriter harbor.msgpackRequest demo.plainWorld.
Proof.
  apply (httpHandleWithVersion_msgpack (C := demo.collaborators)).
  reflexivity.
Defined.

(** * The further code on examples *)

Example Languages_clients :
  Languages harbor.clients = "go|python" /\
  Languages (info.mkTags "" "" "" "" :: harbor.clients) = "|go|python".
Proof. vm_compute. by split. Qed.

Example dockerContainers_harbor :
  exists d' logs',
    dockerutil.dockerContainers (Some harbor.everything) 100 harbor.util [] =
      Some (inr [dockerutil.mkContainer "Docker" "0123456789abcdef"
                   "docker://0123456789abcdef" "/web" "nginx" "sha256:1" 1000 "running"
                   false "starting"
                   [dockerutil.mkNetworkAddress
                      (Some [Byte.x7f; Byte.x00; Byte.x00; Byte.x01]) 8080 "tcp";
                    dockerutil.mkNetworkAddress
                      (Some [Byte.x0a; Byte.x00; Byte.x00; Byte.x02]) 9000 "tcp";
                    dockerutil.mkNetworkAddress
                      (Some [Byte.x0a; Byte.x00; Byte.x01; Byte.x02]) 9000 "tcp"] tt;
                 dockerutil.mkContainer "Docker" "fedcba9876543210"
                   "docker://fedcba9876543210" "/pause" "pause" "sha256:2" 900 "exited"
                   true "" [] tt],
            d', logs').
Proof. do 2 eexists. reflexivity. Qed.
